(** * The inference runner of anemoi-inference, embedded and verified

    Source: [src/anemoi/inference/runner.py] (class [Runner]).

    The development follows the order of [Runner.run]: the feature
    classification, the assembly of the lagged input tensor, the check for
    missing values, the initial call of the output callback and the
    autoregressive loop with its accumulator and its sliding window.

    - Python exceptions are values of [PyError]; a computation that may raise
      and that talks to the outside world (logger, data source, model, output
      callback) is a value of [Eff]: the events it produced, in order, and
      either the exception it raised or its result.
    - numpy arrays are lists: a [(L, N, G)] array is a list of [L] lag slots,
      each a list of [N] rows, each row the list of the [G] grid values.
    - The float32 scalars are kept behind the interface [Float32]: the runner
      only moves them, tests them with [np.isnan], adds them and clips them
      with [np.maximum(0, _)]. *)

From stdpp Require Import base option list numbers strings gmap sorting.

Open Scope Z_scope.

(** ** Python exceptions *)

Inductive PyError : Type :=
  | AssertionError
  | AttributeError
  | IndexError
  | KeyError
  | ZeroDivisionError
  | ValueError (msg : string)
  | RuntimeError (msg : string).

Definition PyResult (A : Type) : Type := (PyError + A)%type.

(** ** Computations with a trace of events and exceptions *)

Definition Eff (E A : Type) : Type := (list E * PyResult A)%type.

Definition ret {E A} (a : A) : Eff E A := ([], inr a).
Definition raise {E A} (e : PyError) : Eff E A := ([], inl e).
Definition tell {E} (ev : E) : Eff E unit := ([ev], inr tt).
Definition lift {E A} (r : PyResult A) : Eff E A := ([], r).

Definition bind {E A B} (m : Eff E A) (k : A → Eff E B) : Eff E B :=
  match m with
  | (tr, inl e) => (tr, inl e)
  | (tr, inr a) => (tr ++ (k a).1, (k a).2)
  end.

Notation "'let*' x ':=' m 'in' k" := (bind m (fun x => k))
  (at level 10, x pattern, m at level 100, k at level 200).

(** [assert cond] *)
Definition py_assert {E} (b : bool) : Eff E unit :=
  if b then ret tt else raise AssertionError.

(** [for a in l: s = f(s, a)] *)
Fixpoint foldM {E A S} (f : S → A → Eff E S) (s : S) (l : list A) : Eff E S :=
  match l with
  | [] => ret s
  | a :: l' => let* s' := f s a in foldM f s' l'
  end.

(** ** Python integers, ranges, sequences *)

(** [range(n)] (empty when [n <= 0]) *)
Definition py_range (n : Z) : list Z := Z.of_nat <$> seq 0 (Z.to_nat n).

(** [a // b] on Python integers: floor division, [ZeroDivisionError] on 0. *)
Definition py_floordiv (a b : Z) : PyResult Z :=
  if decide (b = 0) then inl ZeroDivisionError else inr (a `div` b).

(** [l[i]] for a non-negative index *)
Definition py_index {A} (l : list A) (i : nat) : PyResult A :=
  match l !! i with
  | Some a => inr a
  | None => inl IndexError
  end.

(** [enumerate(l)] *)
Definition enumerate {A} (l : list A) : list (nat * A) :=
  zip (seq 0 (length l)) l.

(** [sorted(l)] on integers *)
Definition py_sorted (l : list Z) : list Z := merge_sort Z.le l.

(** ** Dates

    A [datetime] is a number of microseconds on the time line;
    [datetime.timedelta(hours=h)] is [h] hours in that unit.  The time line
    is unbounded: the [OverflowError] of a date outside the years 1 to 9999
    is not modelled. *)

Definition datetime : Type := Z.
Definition timedelta_hours (h : Z) : Z := h * 3600000000.

(** ** The checkpoint

    The class [Checkpoint] lives in [checkpoint.py]; the runner only reads
    the attributes below.  The masks are index arrays ([len(mask)] is the
    number of variables of the kind, see [accumulated_output]). *)

Record Checkpoint : Type := {
  num_input_features : nat;
  computed_constants_mask : list nat;
  constants_from_input_mask : list nat;
  computed_forcings_mask : list nat;
  prognostic_input_mask : list nat;
  prognostic_output_mask : list nat;
  diagnostic_output_mask : list nat;
  model_to_data : nat → nat;
  index_to_variable : nat → string;
  variable_to_index : gmap string nat;
  imputable_variables : list string;
  computed_constants : list string;
  computed_forcings : list string;
  prognostic_params : list string;
  diagnostic_params : list string;
  hour_steps : Z;
  multi_step : Z;
}.

(** [Runner.lagged] *)
Definition lagged (ckpt : Checkpoint) : list Z :=
  let result := py_range (multi_step ckpt) in
  let result := (λ s, - s * hour_steps ckpt) <$> result in
  py_sorted result.

(** The date handed to the data source for lag slot [i] during assembly:
    [start_datetime + datetime.timedelta(hours=self.lagged[i])]. *)
Definition lag_date (ckpt : Checkpoint) (start_datetime : datetime)
    (i : nat) : PyResult datetime :=
  match py_index (lagged ckpt) i with
  | inl e => inl e
  | inr h => inr (start_datetime + timedelta_hours h)
  end.

(** The loop header of the rollout:
    [for i in range(lead_time // self.hour_steps)] with
    [step = (i + 1) * self.hour_steps]. *)
Definition rollout_range (ckpt : Checkpoint) (lead_time : Z) : PyResult (list Z) :=
  match py_floordiv lead_time (hour_steps ckpt) with
  | inl e => inl e
  | inr q => inr (py_range q)
  end.

Definition step_of (ckpt : Checkpoint) (i : Z) : Z := (i + 1) * hour_steps ckpt.

(** ** Scalars

    What the runner needs from [np.float32]: the constant [np.nan], the zero
    of [np.zeros], the test [np.isnan], the addition of [+=] and the clip
    [np.maximum(0, _)]. *)

Class Float32 (V : Type) : Type := {
  f32_nan : V;
  f32_zero : V;
  f32_isnan : V → bool;
  f32_add : V → V → V;
  f32_maximum0 : V → V;
}.

(** An order on the scalars (the comparison [<=] of floats) with the laws
    that hold on the numbers that are not NaN.  Only the monotonicity of the
    accumulator relies on them. *)

Class Float32Order (V : Type) `{Float32 V} : Type := {
  f32_le : V → V → Prop;
  f32_zero_number : f32_isnan f32_zero = false;
  f32_le_zero_zero : f32_le f32_zero f32_zero;
  f32_maximum0_number v :
    f32_isnan v = false → f32_isnan (f32_maximum0 v) = false;
  f32_maximum0_nonneg v :
    f32_isnan v = false → f32_le f32_zero (f32_maximum0 v);
  f32_add_number a b :
    f32_isnan a = false → f32_isnan b = false →
    f32_le f32_zero a → f32_le f32_zero b → f32_isnan (f32_add a b) = false;
  f32_add_nonneg a b :
    f32_isnan a = false → f32_isnan b = false →
    f32_le f32_zero a → f32_le f32_zero b → f32_le f32_zero (f32_add a b);
  f32_add_increases a b :
    f32_isnan a = false → f32_isnan b = false →
    f32_le f32_zero a → f32_le f32_zero b → f32_le a (f32_add a b);
}.

(** What float32 does with a NaN: [np.maximum(0, nan)] is [nan] and a sum
    with a NaN operand is a NaN. *)

Class Float32NaN (V : Type) `{Float32 V} : Type := {
  f32_nan_isnan : f32_isnan f32_nan = true;
  f32_maximum0_nan v : f32_isnan v = true → f32_isnan (f32_maximum0 v) = true;
  f32_add_nan_l a b : f32_isnan a = true → f32_isnan (f32_add a b) = true;
  f32_add_nan_r a b : f32_isnan b = true → f32_isnan (f32_add a b) = true;
}.

(** ** Kinds of input features: the codes ["?"], ["C"], ["K"], ["F"], ["P"]
    of the array [kinds]. *)

Inductive Kind : Type :=
  | Unknown
  | ComputedConstant
  | ConstantFromInput
  | ComputedForcing
  | PrognosticInput.

Global Instance Kind_eq_dec : EqDecision Kind.
Proof. solve_decision. Defined.

(** ** Rows, tensors, fields, events *)

(** One grid row, and the lagged tensor [(L, N, G)]. *)
Abbreviation Row V := (list V) (only parsing).
Abbreviation Tensor V := (list (list (list V))) (only parsing).

(** A retrieved field: its [valid_datetime()] and its values
    ([to_numpy], one per grid point). *)
Record Field (V : Type) : Type := {
  valid_datetime : datetime;
  values : Row V;
}.
Arguments valid_datetime {V} _.
Arguments values {V} _.

(** What the run does to the outside world.  Of the logger only the
    [LOG.error] calls are recorded. *)
Inductive Event (V : Type) : Type :=
  | LogMissing (i data_index : nat) (name : string)
  | LogNoImputation (name : string) (i model_index : nat)
  | LoadSource (date : datetime) (param : list string)
  | Predict (x : Tensor V)
  | CallbackInit (fields : list (Field V))
      (diagnostics : option (list string * Field V * nat))
  | CallbackField (data : Row V) (template : Field V) (step : Z)
      (check_nans : bool)
  | CallbackAccum (data : Row V) (template : Field V) (startStep endStep : Z)
      (param : string) (check_nans : bool).
Arguments LogMissing {V} _ _ _.
Arguments LogNoImputation {V} _ _ _.
Arguments LoadSource {V} _ _.
Arguments Predict {V} _.
Arguments CallbackInit {V} _ _.
Arguments CallbackField {V} _ _ _ _.
Arguments CallbackAccum {V} _ _ _ _ _ _.

(** The external collaborators: the data source behind
    [cml.load_source("constants", source, date=, param=)] and the model's
    [predict_step], which returns one row per output feature. *)
Record Collaborators (V : Type) : Type := {
  cml_load_source : list (Field V) → datetime → list string → list (Row V);
  predict_step : Tensor V → list (Row V);
}.
Arguments cml_load_source {V} _ _ _ _.
Arguments predict_step {V} _ _.

(** What the loop of the rollout reads from the enclosing scope of [run]:
    the checkpoint, [input_fields], [start_datetime], [gridpoints],
    [prognostic_data_from_retrieved_fields_mask], [reference_fields],
    [most_recent_datetime] and [precip_template]. *)
Record Scope (V : Type) : Type := {
  sc_ckpt : Checkpoint;
  sc_input_fields : list (Field V);
  sc_start_datetime : datetime;
  sc_gridpoints : nat;
  sc_prog_cols : list nat;
  sc_reference_fields : list (Field V);
  sc_most_recent_datetime : datetime;
  sc_precip_template : Field V;
}.
Arguments sc_ckpt {V} _.
Arguments sc_input_fields {V} _.
Arguments sc_start_datetime {V} _.
Arguments sc_gridpoints {V} _.
Arguments sc_prog_cols {V} _.
Arguments sc_reference_fields {V} _.
Arguments sc_most_recent_datetime {V} _.
Arguments sc_precip_template {V} _.

Section Runner.

Context {V : Type} `{Float32 V}.
Variable env : Collaborators V.

Local Abbreviation Row := (Row V).
Local Abbreviation Tensor := (Tensor V).
Local Abbreviation Field := (Field V).
Local Abbreviation Event := (Event V).
Local Abbreviation Scope := (Scope V).

(** [forcing_and_constants] *)
Definition forcing_and_constants (source : list Field) (date : datetime)
    (param : list string) : Eff Event (list Row) :=
  let* _ := tell (LoadSource date param) in
  let ds := cml_load_source env source date param in
  let* _ := py_assert (bool_decide (length ds = length param)) in
  ret ds.

(** *** numpy indexing with an index array *)

(** [arr[mask]]: every index must be in range. *)
Fixpoint np_take {A} (arr : list A) (mask : list nat) : PyResult (list A) :=
  match mask with
  | [] => inr []
  | i :: mask' =>
      match arr !! i, np_take arr mask' with
      | Some a, inr l => inr (a :: l)
      | _, _ => inl IndexError
      end
  end.

(** [arr[mask] = v] for indices that were just read with [arr[mask]]. *)
Definition np_put {A} (arr : list A) (mask : list nat) (v : A) : list A :=
  foldl (λ a i, <[i:=v]> a) arr mask.

(** [np.array(l)] of a Python list of integers, used as an index: the empty
    list makes a float64 array, which numpy refuses as an index. *)
Definition np_take_array {A} (arr : list A) (l : list nat) : PyResult (list A) :=
  match l with
  | [] => inl IndexError
  | _ => np_take arr l
  end.

(** Broadcasting [src] to the shape [(n, g)] of the indexed positions.
    Along the feature axis [src] has [n] rows or one row, which is repeated.
    Along the grid axis the rows must have [g] values: the arrays of the
    data source and of the model are on the grid of the input fields, so
    that no array with a single grid column is stretched. *)
Definition broadcast_rows (mismatch : PyError) (n g : nat) (src : list Row)
    : PyResult (list Row) :=
  if forallb (λ r : Row, bool_decide (length r = g)) src then
    if decide (length src = n) then inr src
    else match src with
         | [r] => inr (replicate n r)
         | _ => inl mismatch
         end
  else inl mismatch.

(** [slot[mask] = src] on one lag slot [(N, G)]. *)
Definition assign_rows (mismatch : PyError) (g : nat) (slot : list Row)
    (mask : list nat) (src : list Row) : PyResult (list Row) :=
  match broadcast_rows mismatch (length mask) g src with
  | inl e => inl e
  | inr rows =>
      if forallb (λ i, bool_decide (i < length slot)%nat) mask
      then inr (foldl (λ s ir, <[ir.1 := ir.2]> s) slot (zip mask rows))
      else inl IndexError
  end.

Definition numpy_mismatch : PyError :=
  ValueError "shape mismatch: value array could not be broadcast to indexing result".
Definition torch_mismatch : PyError :=
  RuntimeError "shape mismatch: value tensor cannot be broadcast to indexing result".

(** *** The feature classification (the arrays [check], [kinds], [inputs]) *)

Record Classification : Type := {
  check : list bool;
  kinds : list Kind;
  inputs : list bool;
}.

(** One of the four blocks
    [assert not np.any(check[mask]); check[mask] = True; kinds[mask] = k]
    (and [inputs[mask] = True] for the kinds read from the input fields). *)
Definition mark (mask : list nat) (k : Kind) (from_input : bool)
    (c : Classification) : Eff Event Classification :=
  let* seen := lift (np_take (check c) mask) in
  let* _ := py_assert (negb (existsb id seen)) in
  ret {| check := np_put (check c) mask true;
         kinds := np_put (kinds c) mask k;
         inputs := if from_input then np_put (inputs c) mask true
                   else inputs c |}.

(** [for i, c in enumerate(check): if not c: LOG.error("Missing ...")] *)
Definition report_missing (ckpt : Checkpoint) (chk : list bool) : list Event :=
  enumerate chk ≫= λ ic,
    if ic.2 : bool then []
    else [LogMissing ic.1 (model_to_data ckpt ic.1)
            (index_to_variable ckpt (model_to_data ckpt ic.1))].

Definition classify (ckpt : Checkpoint) : Eff Event Classification :=
  let n := num_input_features ckpt in
  let c := {| check := replicate n false;
              kinds := replicate n Unknown;
              inputs := replicate n false |} in
  let* c := mark (computed_constants_mask ckpt) ComputedConstant false c in
  let* c := mark (constants_from_input_mask ckpt) ConstantFromInput true c in
  let* c := mark (computed_forcings_mask ckpt) ComputedForcing false c in
  let* c := mark (prognostic_input_mask ckpt) PrognosticInput true c in
  if forallb id (check c) then ret c
  else (report_missing ckpt (check c), inl (RuntimeError "Missing fields")).

(** *** Which retrieved field feeds which feature

    The loop building [prognostic_data_from_retrieved_fields_mask] and
    [constant_data_from_retrieved_fields_mask]; the state is the two lists
    and [retrieved_fields_index]. *)

Definition retrieved_step (c : Classification)
    (st : list nat * list nat * nat) (i : nat)
    : Eff Event (list nat * list nat * nat) :=
  let '(prog, const, idx) := st in
  let* is_input := lift (py_index (inputs c) i) in
  if is_input : bool then
    let* k := lift (py_index (kinds c) i) in
    let* _ := py_assert (bool_decide (k = PrognosticInput)
                         || bool_decide (k = ConstantFromInput)) in
    if decide (k = PrognosticInput)
    then ret (prog ++ [idx], const, S idx)
    else ret (prog, const ++ [idx], S idx)
  else ret st.

Definition retrieved_fields_masks (c : Classification)
    : Eff Event (list nat * list nat) :=
  let* st := foldM (retrieved_step c) ([], [], 0%nat)
               (seq 0 (length (check c))) in
  ret (st.1.1, st.1.2).

(** *** The retrieved fields as an array *)

(** [len(input_fields[0].grid_points()[0])] *)
Definition gridpoints_of (input_fields : list Field) : PyResult nat :=
  match py_index input_fields 0 with
  | inl e => inl e
  | inr f => inr (length (values f))
  end.

(** [input_fields.to_numpy(dtype=np.float32, reshape=False)]: the fields
    stacked into an [(n, G)] array; they must be on one grid. *)
Definition fields_to_numpy (gridpoints : nat) (input_fields : list Field)
    : PyResult (list Row) :=
  if forallb (λ f, bool_decide (length (values f) = gridpoints)) input_fields
  then inr (values <$> input_fields)
  else inl (ValueError "setting an array element with a sequence").

(** [a.reshape(nlags, n // nlags, gridpoints)]: row [l * R + r] becomes the
    entry [(l, r)]; the sizes must agree. *)
Definition reshape_lags (nlags gridpoints : nat) (rows : list Row)
    : PyResult (list (list Row)) :=
  if decide (nlags = 0%nat) then inl ZeroDivisionError
  else
    let r := (length rows / nlags)%nat in
    if decide ((length rows * gridpoints = nlags * r * gridpoints)%nat)
    then inr ((λ l, take r (drop (l * r) rows)) <$> seq 0 nlags)
    else inl (ValueError "cannot reshape array").

(** *** Assembly of the input tensor *)

(** [t[:, mask] = src[:, cols]] lag by lag, [cols] being an [np.array] made
    from a Python list. *)
Fixpoint scatter_retrieved (g : nat) (t : Tensor) (mask : list nat)
    (src : list (list Row)) (cols : list nat) : PyResult Tensor :=
  match t, src with
  | slot :: t', fields :: src' =>
      match np_take_array fields cols with
      | inl e => inl e
      | inr rows =>
          match assign_rows numpy_mismatch g slot mask rows,
                scatter_retrieved g t' mask src' cols with
          | inr slot', inr t'' => inr (slot' :: t'')
          | inl e, _ => inl e
          | _, inl e => inl e
          end
      end
  | _, _ => inr t
  end.

(** [for i in range(len(self.lagged)): t[i, mask] = constants] *)
Fixpoint scatter_constants (g : nat) (t : Tensor) (mask : list nat)
    (constants : list Row) : PyResult Tensor :=
  match t with
  | [] => inr []
  | slot :: t' =>
      match assign_rows numpy_mismatch g slot mask constants with
      | inl e => inl e
      | inr slot' =>
          match scatter_constants g t' mask constants with
          | inl e => inl e
          | inr t'' => inr (slot' :: t'')
          end
      end
  end.

(** One turn of the loop over the lags that computes the forcings of lag
    [i] and writes them into slot [i]. *)
Definition scatter_forcing_at (ckpt : Checkpoint)
    (input_fields : list Field) (gridpoints : nat)
    (start_datetime : datetime) (t : Tensor) (i : nat) : Eff Event Tensor :=
  let* date := lift (lag_date ckpt start_datetime i) in
  let* forcings := forcing_and_constants (take 1 input_fields) date
                     (computed_forcings ckpt) in
  let* slot := lift (py_index t i) in
  let* slot' := lift (assign_rows numpy_mismatch gridpoints slot
                        (computed_forcings_mask ckpt) forcings) in
  ret (<[i := slot']> t).

(** [np.full(shape=(nlags, nfeatures, gridpoints), fill_value=np.nan)] *)
Definition full_nan (nlags nfeatures gridpoints : nat) : Tensor :=
  replicate nlags (replicate nfeatures (replicate gridpoints f32_nan)).

Definition assemble (ckpt : Checkpoint) (c : Classification)
    (prog_cols const_cols : list nat)
    (input_fields : list Field) (gridpoints : nat)
    (input_fields_numpy : list (list Row)) (start_datetime : datetime)
    : Eff Event Tensor :=
  let nlags := length (lagged ckpt) in
  let t := full_nan nlags (num_input_features ckpt) gridpoints in
  let* t := lift (scatter_retrieved gridpoints t (prognostic_input_mask ckpt)
                    input_fields_numpy prog_cols) in
  let* t := lift (scatter_retrieved gridpoints t
                    (constants_from_input_mask ckpt)
                    input_fields_numpy const_cols) in
  let* constants := forcing_and_constants (take 1 input_fields)
                      start_datetime (computed_constants ckpt) in
  let* t := lift (scatter_constants gridpoints t
                    (computed_constants_mask ckpt) constants) in
  foldM (scatter_forcing_at ckpt input_fields gridpoints start_datetime) t
    (seq 0 nlags).

(** *** The check for missing values *)

(** [np.isnan(t[:, i, :]).any()] *)
Definition has_missing (t : Tensor) (i : nat) : bool :=
  existsb (λ slot, existsb f32_isnan (default [] (slot !! i))) t.

Definition validate_step (ckpt : Checkpoint) (t : Tensor)
    (can_be_missing : gset string) (i : nat) : Eff Event (gset string) :=
  let name := index_to_variable ckpt (model_to_data ckpt i) in
  let is_imputable := bool_decide (name ∈ imputable_variables ckpt) in
  if has_missing t i then
    let can_be_missing := {[ name ]} ∪ can_be_missing in
    if is_imputable then ret can_be_missing
    else
      let model_index := model_to_data ckpt i in
      let* _ := tell (LogNoImputation name i model_index) in
      raise (ValueError ("Field '" +:+ name +:+
                         "' has NaNs and is not marked as imputable"))
  else ret can_be_missing.

(** [input_tensor_numpy.shape[1]] is [num_input_features]. *)
Definition validate (ckpt : Checkpoint) (t : Tensor)
    : Eff Event (gset string) :=
  foldM (validate_step ckpt t) ∅ (seq 0 (num_input_features ckpt)).

(** *** Templates *)

(** [l[-1]] *)
Definition py_last {A} (l : list A) : PyResult A :=
  match last l with
  | Some a => inr a
  | None => inl IndexError
  end.

Definition get_most_recent_datetime (input_fields : list Field)
    : Eff Event datetime :=
  let datetimes := valid_datetime <$> input_fields in
  let* latest := lift (py_last datetimes) in
  let* _ := foldM (λ _ d, py_assert (bool_decide (d ≤ latest))) tt
              datetimes in
  ret latest.

(** [[f for f in input_fields if f.valid_datetime() == most_recent_datetime]] *)
Definition reference_fields_of (most_recent_datetime : datetime)
    (input_fields : list Field) : list Field :=
  filter (λ f, valid_datetime f = most_recent_datetime) input_fields.

(** [reference_fields[self.checkpoint.variable_to_index["2t"]]] *)
Definition precip_template_of (ckpt : Checkpoint)
    (reference_fields : list Field) : PyResult Field :=
  match variable_to_index ckpt !! "2t" with
  | None => inl KeyError
  | Some i => py_index reference_fields i
  end.

(** *** The first call of the output callback *)

Definition callback_init (ckpt : Checkpoint) (input_fields : list Field)
    (precip_template : Field) (accumulated_output : list Row)
    : Eff Event unit :=
  match diagnostic_params ckpt with
  | [] => tell (CallbackInit input_fields None)
  | _ :: _ =>
      let* row0 := lift (py_index accumulated_output 0) in
      tell (CallbackInit input_fields
              (Some (diagnostic_params ckpt, precip_template, length row0)))
  end.

(** *** One step of the rollout *)

(** [np.squeeze(y_pred.cpu().numpy())[:, mask]]: the prediction has the
    shape [(1, G, Nout)]; [np.squeeze] drops every axis of size one, and the
    two-axis index then fails unless both [G] and [Nout] survive. *)
Definition squeezed_columns (gridpoints : nat) (y_pred : list Row)
    (mask : list nat) : PyResult (list Row) :=
  if decide (gridpoints = 1%nat ∨ length y_pred = 1%nat) then inl IndexError
  else np_take y_pred mask.

(** The body of the loop over the prognostic outputs, for the [n]-th pair
    [(m, param)]. *)
Definition emit_prognostic (reference_fields : list Field)
    (most_recent_datetime : datetime) (prognostic_fields_numpy : list Row)
    (step : Z) (nm : nat * nat) : Eff Event unit :=
  let* template := lift (py_index reference_fields nm.2) in
  let* _ := py_assert
              (bool_decide (valid_datetime template = most_recent_datetime)) in
  let* data := lift (py_index prognostic_fields_numpy nm.1) in
  tell (CallbackField data template step true).

(** [acc_row += np.maximum(0, v)]; the two rows are on the same grid. *)
Definition iadd_maximum0 (acc_row v : Row) : PyResult Row :=
  if decide (length v = length acc_row)
  then inr (zip_with f32_add acc_row (f32_maximum0 <$> v))
  else inl (ValueError "operands could not be broadcast together").

(** The body of the loop over the diagnostic parameters.  The callback is
    handed the row [accumulated_output[n]] as it is at the time of the
    call. *)
Definition accumulate (precip_template : Field)
    (most_recent_datetime : datetime) (diagnostic_fields_numpy : list Row)
    (step : Z) (accumulated_output : list Row) (np : nat * string)
    : Eff Event (list Row) :=
  let* row := lift (py_index accumulated_output np.1) in
  let* v := lift (py_index diagnostic_fields_numpy np.1) in
  let* row' := lift (iadd_maximum0 row v) in
  let accumulated_output := <[np.1 := row']> accumulated_output in
  let* _ := py_assert (bool_decide
              (valid_datetime precip_template = most_recent_datetime)) in
  let* _ := tell (CallbackAccum row' precip_template 0 step np.2 true) in
  ret accumulated_output.

(** [t.roll(-1, dims=1)]: slot [l] receives slot [l + 1], the last slot
    receives slot [0]. *)
Definition roll_lags (t : Tensor) : Tensor :=
  match t with
  | [] => []
  | slot :: t' => t' ++ [slot]
  end.

(** [t[:, -1, :, mask] = src] *)
Definition assign_last (g : nat) (t : Tensor) (mask : list nat)
    (src : list Row) : PyResult Tensor :=
  match last t with
  | None => inl IndexError
  | Some slot =>
      match assign_rows torch_mismatch g slot mask src with
      | inl e => inl e
      | inr slot' => inr (<[pred (length t) := slot']> t)
      end
  end.

(** The window advance at the end of a step. *)
Definition advance (ckpt : Checkpoint) (g : nat) (t : Tensor)
    (prognostic_fields forcing : list Row) : PyResult Tensor :=
  match assign_last g (roll_lags t) (prognostic_input_mask ckpt)
          prognostic_fields with
  | inl e => inl e
  | inr t' => assign_last g t' (computed_forcings_mask ckpt) forcing
  end.

Definition rollout_step (sc : Scope) (st : Tensor * list Row) (i : Z)
    : Eff Event (Tensor * list Row) :=
  let ckpt := sc_ckpt sc in
  let step := step_of ckpt i in
  let* _ := tell (Predict st.1) in
  let y_pred := predict_step env st.1 in
  let* prognostic_fields_numpy :=
    lift (squeezed_columns (sc_gridpoints sc) y_pred
            (prognostic_output_mask ckpt)) in
  let has_diagnostics := negb (bool_decide (diagnostic_output_mask ckpt = [])) in
  let* diagnostic_fields_numpy :=
    if has_diagnostics
    then lift (squeezed_columns (sc_gridpoints sc) y_pred
                 (diagnostic_output_mask ckpt))
    else ret [] in
  let* _ := foldM (λ _ nm, emit_prognostic (sc_reference_fields sc)
                     (sc_most_recent_datetime sc) prognostic_fields_numpy
                     step (nm.1, nm.2.1)) tt
              (enumerate (zip (sc_prog_cols sc) (prognostic_params ckpt))) in
  let* accumulated_output :=
    if has_diagnostics
    then foldM (accumulate (sc_precip_template sc)
                  (sc_most_recent_datetime sc) diagnostic_fields_numpy step)
           st.2 (enumerate (diagnostic_params ckpt))
    else ret st.2 in
  let* prognostic_fields :=
    lift (np_take y_pred (prognostic_output_mask ckpt)) in
  let* forcing := forcing_and_constants (take 1 (sc_input_fields sc))
                    (sc_start_datetime sc + timedelta_hours step)
                    (computed_forcings ckpt) in
  let* t := lift (advance ckpt (sc_gridpoints sc) st.1 prognostic_fields
                    forcing) in
  ret (t, accumulated_output).

Definition rollout (sc : Scope) (lead_time : Z) (st : Tensor * list Row)
    : Eff Event (Tensor * list Row) :=
  let* steps := lift (rollout_range (sc_ckpt sc) lead_time) in
  foldM (rollout_step sc) st steps.

(** *** [Runner.__init__] and [Runner.run] *)

(** The runner object: the attribute [checkpoint] is set or not. *)
Record Runner : Type := {
  checkpoint : option Checkpoint;
}.

(** The argument of the constructor. *)
Inductive InitArg : Type :=
  | PathArg (path : string)
  | CheckpointArg (ckpt : Checkpoint)
  | OtherArg.

(** [Checkpoint_new] stands for the constructor call
    [Checkpoint(self, checkpoint)], which is given the runner under
    construction and the path. *)
Definition Runner_init (Checkpoint_new : Runner → string → PyResult Checkpoint)
    (arg : InitArg) : PyResult Runner :=
  let self := {| checkpoint := None |} in
  match arg with
  | PathArg path =>
      match Checkpoint_new self path with
      | inl e => inl e
      | inr _ => inr self
      end
  | CheckpointArg ckpt => inr {| checkpoint := Some ckpt |}
  | OtherArg => inl AssertionError
  end.

(** [self.checkpoint] *)
Definition get_checkpoint (self : Runner) : PyResult Checkpoint :=
  match checkpoint self with
  | Some ckpt => inr ckpt
  | None => inl AttributeError
  end.

(** The state with which the loop starts, or the exception of the
    preparation.  [input_fields] is the field list after [sel] and
    [order_by]. *)
Definition prepare (ckpt : Checkpoint) (input_fields : list Field)
    (start_datetime : datetime) : Eff Event (Scope * (Tensor * list Row)) :=
  let* gridpoints := lift (gridpoints_of input_fields) in
  let* rows := lift (fields_to_numpy gridpoints input_fields) in
  let* input_fields_numpy :=
    lift (reshape_lags (length (lagged ckpt)) gridpoints rows) in
  let* c := classify ckpt in
  let* cols := retrieved_fields_masks c in
  let* input_tensor_numpy :=
    assemble ckpt c cols.1 cols.2 input_fields gridpoints
      input_fields_numpy start_datetime in
  let* can_be_missing := validate ckpt input_tensor_numpy in
  let* most_recent_datetime := get_most_recent_datetime input_fields in
  let reference_fields :=
    reference_fields_of most_recent_datetime input_fields in
  let* precip_template := lift (precip_template_of ckpt reference_fields) in
  let accumulated_output :=
    replicate (length (diagnostic_output_mask ckpt))
      (replicate gridpoints f32_zero) in
  let* _ := callback_init ckpt input_fields precip_template
              accumulated_output in
  ret ({| sc_ckpt := ckpt;
          sc_input_fields := input_fields;
          sc_start_datetime := start_datetime;
          sc_gridpoints := gridpoints;
          sc_prog_cols := cols.1;
          sc_reference_fields := reference_fields;
          sc_most_recent_datetime := most_recent_datetime;
          sc_precip_template := precip_template |},
       (input_tensor_numpy, accumulated_output)).

Definition run (self : Runner) (input_fields : list Field) (lead_time : Z)
    (start_datetime : datetime) : Eff Event unit :=
  let* ckpt := lift (get_checkpoint self) in
  let* start := prepare ckpt input_fields start_datetime in
  let* _ := rollout start.1 lead_time start.2 in
  ret tt.

End Runner.

(** * Notions of the statements *)

(** The closed form of [Runner.lagged]:
    [[-(multi_step - 1) * hour_steps, ..., -hour_steps, 0]]. *)
Definition lag_offsets (ckpt : Checkpoint) : list Z :=
  (λ j : nat, - (multi_step ckpt - 1 - Z.of_nat j) * hour_steps ckpt)
    <$> seq 0 (Z.to_nat (multi_step ckpt)).

(** A computation that ends with an exception. *)
Definition fails {E A} (x : Eff E A) : Prop := ∃ e, x.2 = inl e.

(** The four masks, each with its kind, in the order of the
    classification. *)
Definition kind_masks (ckpt : Checkpoint) : list (Kind * list nat) :=
  [ (ComputedConstant, computed_constants_mask ckpt);
    (ConstantFromInput, constants_from_input_mask ckpt);
    (ComputedForcing, computed_forcings_mask ckpt);
    (PrognosticInput, prognostic_input_mask ckpt) ].

(** The kinds that the masks give to the index [i]. *)
Definition kinds_of (ckpt : Checkpoint) (i : nat) : list Kind :=
  (filter (λ km, i ∈ km.2) (kind_masks ckpt)).*1.

(** The four masks partition the indices below [N]. *)
Definition partition (ckpt : Checkpoint) : Prop :=
  ∀ i, length (kinds_of ckpt i)
       = if decide (i < num_input_features ckpt)%nat then 1%nat else 0%nat.

(** The report of the indices that no mask holds, in ascending order. *)
Definition missing_report {V} (ckpt : Checkpoint) : list (Event V) :=
  (λ i, LogMissing i (model_to_data ckpt i)
          (index_to_variable ckpt (model_to_data ckpt i)))
  <$> filter (λ i, kinds_of ckpt i = []) (seq 0 (num_input_features ckpt)).

(** The row of the source that lands at the [j]-th index of a mask of
    [n_mask] indices: the [j]-th row, or the single row when a source of one
    row is broadcast. *)
Definition broadcast_index (n_src n_mask j : nat) : nat :=
  if decide (n_src = n_mask) then j else 0%nat.

(** The masks are index arrays in ascending order. *)
Definition ascending_masks (ckpt : Checkpoint) : Prop :=
  StronglySorted lt (computed_constants_mask ckpt)
  ∧ StronglySorted lt (constants_from_input_mask ckpt)
  ∧ StronglySorted lt (computed_forcings_mask ckpt)
  ∧ StronglySorted lt (prognostic_input_mask ckpt).

(** The features read from the retrieved fields. *)
Definition is_input (ckpt : Checkpoint) (i : nat) : Prop :=
  i ∈ constants_from_input_mask ckpt ∨ i ∈ prognostic_input_mask ckpt.

(** The position of the input feature [i] among the retrieved fields of
    one lag: the number of input features before it in the feature
    space. *)
Definition retrieved_index (ckpt : Checkpoint) (i : nat) : nat :=
  length (filter (is_input ckpt) (seq 0 i)).

(** The row of the feature [i] in the lag slot [l]. *)
Definition entry {V} (t : Tensor V) (l i : nat) : option (Row V) :=
  t !! l ≫= (.!! i).

(** The shape [(nlags, nfeatures, gridpoints)]. *)
Definition tensor_shape {V} (nlags nfeatures gridpoints : nat) (t : Tensor V)
    : Prop :=
  length t = nlags
  ∧ Forall (λ slot : list (Row V),
      length slot = nfeatures
      ∧ Forall (λ row : Row V, length row = gridpoints) slot) t.

(** The calls of the data source. *)
Definition load_source_call {V} (e : Event V)
    : option (datetime * list string) :=
  match e with
  | LoadSource date param => Some (date, param)
  | _ => None
  end.

Section Notions.

Context {V : Type} `{Float32 V}.
Variable env : Collaborators V.

Local Abbreviation Event := (Event V).
Local Abbreviation Scope := (Scope V).
Local Abbreviation Field := (Field V).
Local Abbreviation Tensor := (Tensor V).
Local Abbreviation Row := (Row V).

(** The prognostic emissions of the step tagged [step]. *)
Definition field_event_at (step : Z) (e : Event) : Prop :=
  ∃ data template, e = CallbackField data template step true.

(** The accumulation emissions over the range from [0] to [step]. *)
Definition accum_event_at (step : Z) (e : Event) : Prop :=
  ∃ data template param, e = CallbackAccum data template 0 step param true.

(** How many emissions one step makes. *)
Definition prognostic_emissions (sc : Scope) : nat :=
  length (zip (sc_prog_cols sc) (prognostic_params (sc_ckpt sc))).

Definition accumulation_emissions (sc : Scope) : nat :=
  if bool_decide (diagnostic_output_mask (sc_ckpt sc) = []) then 0%nat
  else length (diagnostic_params (sc_ckpt sc)).

(** The tensor given to the model, for the events that are calls of the
    model. *)
Definition predicted (e : Event) : option Tensor :=
  match e with
  | Predict x => Some x
  | _ => None
  end.

(** The step number attached to an emission: [step] of a prognostic
    emission, [endStep] of an accumulation. *)
Definition emitted_step (e : Event) : option Z :=
  match e with
  | CallbackField _ _ step _ => Some step
  | CallbackAccum _ _ _ endStep _ _ => Some endStep
  | _ => None
  end.

(** The calls of the output callback, and among them the first form. *)
Definition is_callback (e : Event) : bool :=
  match e with
  | CallbackInit _ _ | CallbackField _ _ _ _ | CallbackAccum _ _ _ _ _ _ => true
  | _ => false
  end.

Definition is_init (e : Event) : bool :=
  match e with
  | CallbackInit _ _ => true
  | _ => false
  end.

Local Abbreviation quiet := (Forall (λ e : Event, is_callback e = false)).

(** What the first call carries besides the fields. *)
Definition init_payload (ckpt : Checkpoint) (precip_template : Field)
    (gridpoints : nat) : option (list string * Field * nat) :=
  match diagnostic_params ckpt with
  | [] => None
  | _ :: _ => Some (diagnostic_params ckpt, precip_template, gridpoints)
  end.

(** A computation that stays quiet and fails, or ends with the first call
    of the callback. *)
Definition until_init {A} (Q : Event → A → Prop) (x : Eff Event A) : Prop :=
  (∃ e, x.2 = inl e ∧ quiet x.1)
  ∨ (∃ pre init a, x = (pre ++ [init], inr a) ∧ quiet pre ∧ Q init a).

(** What is known of the scope of a prepared run. *)
Definition prepared_scope (ckpt : Checkpoint) (input_fields : list Field)
    (start_datetime : datetime) (sc : Scope) : Prop :=
  sc_ckpt sc = ckpt
  ∧ sc_input_fields sc = input_fields
  ∧ sc_start_datetime sc = start_datetime
  ∧ gridpoints_of input_fields = inr (sc_gridpoints sc)
  ∧ (get_most_recent_datetime input_fields).2
    = inr (sc_most_recent_datetime sc)
  ∧ sc_reference_fields sc
    = reference_fields_of (sc_most_recent_datetime sc) input_fields
  ∧ precip_template_of ckpt (sc_reference_fields sc)
    = inr (sc_precip_template sc).

(** The arrays at the end of a successful classification. *)
Definition classified (ckpt : Checkpoint) : Classification :=
  let n := num_input_features ckpt in
  {| check :=
       np_put (np_put (np_put (np_put (replicate n false)
         (computed_constants_mask ckpt) true)
         (constants_from_input_mask ckpt) true)
         (computed_forcings_mask ckpt) true)
         (prognostic_input_mask ckpt) true;
     kinds :=
       np_put (np_put (np_put (np_put (replicate n Unknown)
         (computed_constants_mask ckpt) ComputedConstant)
         (constants_from_input_mask ckpt) ConstantFromInput)
         (computed_forcings_mask ckpt) ComputedForcing)
         (prognostic_input_mask ckpt) PrognosticInput;
     inputs :=
       np_put (np_put (replicate n false)
         (constants_from_input_mask ckpt) true)
         (prognostic_input_mask ckpt) true |}.

(** The name of the feature [i]. *)
Definition feature_name (ckpt : Checkpoint) (i : nat) : string :=
  index_to_variable ckpt (model_to_data ckpt i).

(** A feature with a NaN that may not be imputed. *)
Definition offending (ckpt : Checkpoint) (t : Tensor) (i : nat) : Prop :=
  has_missing t i = true ∧ feature_name ckpt i ∉ imputable_variables ckpt.

Global Instance offending_dec ckpt t i : Decision (offending ckpt t i).
Proof. unfold offending. apply _. Defined.

(** The names of the features with a NaN among the indices [l]. *)
Definition missing_names (ckpt : Checkpoint) (t : Tensor) (l : list nat)
    : gset string :=
  list_to_set (feature_name ckpt <$> filter (λ i, has_missing t i = true) l).

(** The exception of the check, for the feature [i]. *)
Definition not_imputable_error (ckpt : Checkpoint) (i : nat) : PyError :=
  ValueError ("Field '" +:+ feature_name ckpt i +:+
              "' has NaNs and is not marked as imputable").

(** The stages of a preparation that succeeds. *)
Record Prepared (ckpt : Checkpoint) (input_fields : list Field)
    (start_datetime : datetime) (tr : list Event) (sc : Scope)
    (t : Tensor) (acc : list Row) : Prop := {
  prep_scope : prepared_scope ckpt input_fields start_datetime sc;
  prep_rows : ∃ rows,
    fields_to_numpy (sc_gridpoints sc) input_fields = inr rows
    ∧ ∃ src cols tr_a,
        reshape_lags (length (lagged ckpt)) (sc_gridpoints sc) rows = inr src
        ∧ classify (V:=V) ckpt = ([], inr (classified ckpt))
        ∧ retrieved_fields_masks (V:=V) (classified ckpt) = ([], inr cols)
        ∧ sc_prog_cols sc = cols.1
        ∧ assemble env ckpt (classified ckpt) cols.1 cols.2 input_fields
            (sc_gridpoints sc) src start_datetime = (tr_a, inr t)
        ∧ tr = tr_a ++ [CallbackInit input_fields
                          (init_payload ckpt (sc_precip_template sc)
                             (sc_gridpoints sc))];
  prep_valid : ∃ names, validate (V:=V) ckpt t = ([], inr names);
  prep_acc : acc = replicate (length (diagnostic_output_mask ckpt))
                     (replicate (sc_gridpoints sc) f32_zero);
}.

(** The writes [slot[mask[j]] = rows[j]] one after the other. *)
Definition put_rows (slot : list Row) (mask : list nat) (rows : list Row)
    : list Row :=
  foldl (λ s ir, <[ir.1 := ir.2]> s) slot (zip mask rows).

(** The slots of [t'] come from those of [t] by one assignment each. *)
Definition slotwise (P : nat → list Row → list Row → Prop) (t t' : Tensor)
    : Prop :=
  length t' = length t
  ∧ ∀ l slot, t !! l = Some slot → ∃ slot', t' !! l = Some slot' ∧ P l slot slot'.

(** [np.maximum(0, v)] and [a + b] on rows. *)
Definition np_maximum0 (v : Row) : Row := f32_maximum0 <$> v.

Definition np_add (a b : Row) : Row := zip_with f32_add a b.

(** The sum of [np.maximum(0, v)] over the rows [vs], from the zeros of
    [np.zeros], in the order of the steps. *)
Definition accumulated (gridpoints : nat) (vs : list Row) : Row :=
  foldl np_add (replicate gridpoints f32_zero) (np_maximum0 <$> vs).

(** The output of the model for the [n]-th diagnostic variable:
    [output[:, diagnostic_output_mask][:, n]]. *)
Definition diagnostic_row (ckpt : Checkpoint) (y_pred : list Row) (n : nat)
    : Row :=
  default [] (diagnostic_output_mask ckpt !! n ≫= (y_pred !!.)).

(** What an accumulation emission carries: the end of its range, its
    parameter and its data. *)
Definition accum_emission (e : Event) : option (Z * string * Row) :=
  match e with
  | CallbackAccum data _ _ endStep param _ => Some (endStep, param, data)
  | _ => None
  end.

(** The outputs of the model along a run, step after step. *)
Definition outputs (tr : list Event) : list (list Row) :=
  predict_step env <$> omap predicted tr.

(** The outputs [v_1, v_2, ..] of the [n]-th diagnostic variable. *)
Definition diagnostic_rows (ckpt : Checkpoint) (ys : list (list Row))
    (n : nat) : list Row :=
  (λ y, diagnostic_row ckpt y n) <$> ys.

(** The accumulation emissions of the steps [1 .. m], as the law gives
    them. *)
Definition accumulation_law (ckpt : Checkpoint) (gridpoints : nat)
    (ys : list (list Row)) (m : nat) : list (Z * string * Row) :=
  if bool_decide (diagnostic_output_mask ckpt = []) then []
  else seq 0 m ≫= λ k,
    (λ np : nat * string,
       (step_of ckpt (Z.of_nat k), np.2,
        accumulated gridpoints (diagnostic_rows ckpt (take (S k) ys) np.1)))
    <$> enumerate (diagnostic_params ckpt).

(** A row without NaN. *)
Definition numbers (v : Row) : Prop := Forall (λ x, f32_isnan x = false) v.

End Notions.

(** * A concrete setting for examples

    Scalars: integers with a NaN.  Integers of small magnitude are float32
    numbers and float32 adds them without rounding. *)

Inductive exact : Type :=
  | NaN
  | Num (z : Z).

Global Instance exact_eq_dec : EqDecision exact.
Proof. solve_decision. Defined.

Global Instance exact_float32 : Float32 exact := {|
  f32_nan := NaN;
  f32_zero := Num 0;
  f32_isnan x := match x with NaN => true | Num _ => false end;
  f32_add x y := match x, y with Num a, Num b => Num (a + b) | _, _ => NaN end;
  f32_maximum0 x := match x with NaN => NaN | Num a => Num (Z.max 0 a) end;
|}.

(** The order of these scalars: a NaN compares with nothing. *)
Definition exact_le (a b : exact) : Prop :=
  match a, b with
  | Num x, Num y => x ≤ y
  | _, _ => False
  end.

Global Instance exact_order : Float32Order exact.
Proof.
  refine {| f32_le := exact_le |}; try done.
  - by intros [].
  - intros [|v] Hv; simpl; [done|]. lia.
  - by intros [] [].
  - intros [|a] [|b]; simpl; try done. lia.
  - intros [|a] [|b]; simpl; try done. lia.
Defined.

Global Instance exact_nan : Float32NaN exact.
Proof.
  split; try done.
  - by intros [].
  - by intros [] [].
  - by intros [] [].
Defined.

Module Example.

(** Five input features [P, P, K, C, F], two lags, two grid points, a model
    with two prognostic outputs and one diagnostic output, steps of six
    hours. *)
Definition names : list string := ["2t"; "10u"; "lsm"; "cos_latitude"; "insolation"].

Definition ckpt : Checkpoint := {|
  num_input_features := 5;
  computed_constants_mask := [3%nat];
  constants_from_input_mask := [2%nat];
  computed_forcings_mask := [4%nat];
  prognostic_input_mask := [0%nat; 1%nat];
  prognostic_output_mask := [0%nat; 1%nat];
  diagnostic_output_mask := [2%nat];
  model_to_data := λ i, i;
  index_to_variable := λ i, default "?" (names !! i);
  variable_to_index := {[ "2t" := 0%nat ]};
  imputable_variables := ["10u"];
  computed_constants := ["cos_latitude"];
  computed_forcings := ["insolation"];
  prognostic_params := ["2t"; "10u"];
  diagnostic_params := ["tp"];
  hour_steps := 6;
  multi_step := 2;
|}.

Definition hour : Z := 3600000000.

Definition field (date : datetime) (a b : Z) : Field exact :=
  {| valid_datetime := date; values := [Num a; Num b] |}.

(** Two dates, three retrieved fields each ([2t], [10u], [lsm]); the land
    sea mask is the same at both dates. *)
Definition input_fields : list (Field exact) :=
  [ field (-6 * hour) 11 12; field (-6 * hour) 21 22; field (-6 * hour) 1 0;
    field 0 13 14; field 0 23 24; field 0 1 0 ].

(** The data source answers with the hour of the date in every row; the
    model answers with the newest [2t] plus one, the newest [10u] and a
    precipitation of [-5] and [7]. *)
Definition env : Collaborators exact := {|
  cml_load_source := λ _ date param,
    (λ _, [Num (date `div` hour); Num (date `div` hour)]) <$> param;
  predict_step := λ t,
    match last t with
    | Some [r0; r1; _; _; _] =>
        [f32_add (Num 1) <$> r0; r1; [Num (-5); Num 7]]
    | _ => []
    end;
|}.

Definition runner : Runner := {| checkpoint := Some ckpt |}.

(** The run prepared from these: its scope, its tensor, its accumulator. *)
Definition scope : Scope exact := {|
  sc_ckpt := ckpt;
  sc_input_fields := input_fields;
  sc_start_datetime := 0;
  sc_gridpoints := 2;
  sc_prog_cols := [0%nat; 1%nat];
  sc_reference_fields := [field 0 13 14; field 0 23 24; field 0 1 0];
  sc_most_recent_datetime := 0;
  sc_precip_template := field 0 13 14;
|}.

Definition tensor0 : Tensor exact :=
  [ [ [Num 11; Num 12]; [Num 21; Num 22]; [Num 1; Num 0];
      [Num 0; Num 0]; [Num (-6); Num (-6)] ];
    [ [Num 13; Num 14]; [Num 23; Num 24]; [Num 1; Num 0];
      [Num 0; Num 0]; [Num 0; Num 0] ] ].

Definition accumulator0 : list (Row exact) := [[Num 0; Num 0]].

(** The same fields with a land sea mask that differs between the two
    dates. *)
Definition drifting_fields : list (Field exact) :=
  [ field (-6 * hour) 11 12; field (-6 * hour) 21 22; field (-6 * hour) 1 0;
    field 0 13 14; field 0 23 24; field 0 2 0 ].

(** A model whose precipitation is [1] at the first step and has a NaN
    from the second step on (it looks at the forcing of the newest slot). *)
Definition env_nan : Collaborators exact := {|
  cml_load_source := cml_load_source env;
  predict_step := λ t,
    match last t with
    | Some [r0; r1; _; _; [Num 0; _]] => [r0; r1; [Num 1; Num 1]]
    | Some [r0; r1; _; _; _] => [r0; r1; [NaN; Num 1]]
    | _ => []
    end;
|}.

(** A checkpoint whose masks leave out the features 2 and 4. *)
Definition ckpt_gap : Checkpoint := {|
  num_input_features := 5;
  computed_constants_mask := [3%nat];
  constants_from_input_mask := [];
  computed_forcings_mask := [];
  prognostic_input_mask := [0%nat; 1%nat];
  prognostic_output_mask := [0%nat; 1%nat];
  diagnostic_output_mask := [2%nat];
  model_to_data := λ i, i;
  index_to_variable := λ i, default "?" (names !! i);
  variable_to_index := {[ "2t" := 0%nat ]};
  imputable_variables := ["10u"];
  computed_constants := ["cos_latitude"];
  computed_forcings := [];
  prognostic_params := ["2t"; "10u"];
  diagnostic_params := ["tp"];
  hour_steps := 6;
  multi_step := 2;
|}.

(** A scope whose templates are of another date than the most recent
    one. *)
Definition stale_scope : Scope exact := {|
  sc_ckpt := ckpt;
  sc_input_fields := input_fields;
  sc_start_datetime := 0;
  sc_gridpoints := 2;
  sc_prog_cols := [0%nat; 1%nat];
  sc_reference_fields :=
    [field (-6 * hour) 11 12; field 0 23 24; field 0 1 0];
  sc_most_recent_datetime := 0;
  sc_precip_template := field (-6 * hour) 11 12;
|}.

(** Fields of which the second is later than the last. *)
Definition unordered_fields : list (Field exact) :=
  [ field (-6 * hour) 11 12; field (6 * hour) 21 22; field (-6 * hour) 1 0;
    field 0 13 14; field 0 23 24; field 0 1 0 ].

(** A tensor with a NaN in the feature 1 ([10u], imputable) and one with a
    NaN in the feature 0 ([2t], not imputable). *)
Definition tensor_nan_10u : Tensor exact :=
  [ [ [Num 11; Num 12]; [NaN; Num 22]; [Num 1; Num 0];
      [Num 0; Num 0]; [Num (-6); Num (-6)] ];
    [ [Num 13; Num 14]; [Num 23; Num 24]; [Num 1; Num 0];
      [Num 0; Num 0]; [Num 0; Num 0] ] ].

Definition tensor_nan_2t : Tensor exact :=
  [ [ [Num 11; Num 12]; [Num 21; Num 22]; [Num 1; Num 0];
      [Num 0; Num 0]; [Num (-6); Num (-6)] ];
    [ [Num 13; NaN]; [Num 23; Num 24]; [Num 1; Num 0];
      [Num 0; Num 0]; [Num 0; Num 0] ] ].

End Example.

(** * The ensemble dimension

    [add_ensemble_dim] wraps the model's [predict_step]: it inserts an axis
    of size one at position 2 of the input and removes the axis at position
    2 of the output.  Of a torch tensor these two operations only touch the
    shape: the tensor is modelled by its shape and its values in storage
    order. *)

Record TorchTensor (V : Type) : Type := {
  shape : list nat;
  storage : list V;
}.
Arguments shape {V} _.
Arguments storage {V} _.

Section Torch.

Context {V : Type}.

(** [x.unsqueeze(dim)] for a non-negative [dim]: the new axis may come
    after the last one. *)
Definition unsqueeze (dim : nat) (x : TorchTensor V)
    : PyResult (TorchTensor V) :=
  if decide (dim ≤ length (shape x))%nat
  then inr {| shape := take dim (shape x) ++ 1%nat :: drop dim (shape x);
              storage := storage x |}
  else inl IndexError.

(** [y.squeeze_(dim)] for a non-negative [dim]: the axis is removed when
    its size is one and left alone otherwise; a tensor without axes accepts
    the dimension 0. *)
Definition squeeze_ (dim : nat) (y : TorchTensor V)
    : PyResult (TorchTensor V) :=
  match shape y !! dim with
  | Some 1%nat => inr {| shape := delete dim (shape y); storage := storage y |}
  | Some _ => inr y
  | None => if decide (shape y = [] ∧ dim = 0%nat) then inr y
            else inl IndexError
  end.

(** [add_ensemble_dim(func)] *)
Definition add_ensemble_dim
    (func : TorchTensor V → PyResult (TorchTensor V))
    (x : TorchTensor V) : PyResult (TorchTensor V) :=
  match unsqueeze 2 x with
  | inl e => inl e
  | inr x =>
      match func x with
      | inl e => inl e
      | inr y => squeeze_ 2 y
      end
  end.

End Torch.

(** * Further notions of the statements *)

Section MoreNotions.

Context {V : Type} `{Float32 V}.

Local Abbreviation Event := (Event V).
Local Abbreviation Field := (Field V).
Local Abbreviation Row := (Row V).

(** What a prognostic emission carries: its data, its template and its
    step. *)
Definition field_emission (e : Event) : option (Row * Field * Z) :=
  match e with
  | CallbackField data template step _ => Some (data, template, step)
  | _ => None
  end.

(** The number of input features of a checkpoint: the indices below [N]
    that are prognostic or constant from the input. *)
Definition input_features (ckpt : Checkpoint) : list nat :=
  filter (is_input ckpt) (seq 0 (num_input_features ckpt)).

(** The exception of a computation, if it raised one. *)
Definition raised {E A} (x : Eff E A) : option PyError :=
  match x.2 with
  | inl e => Some e
  | inr _ => None
  end.

End MoreNotions.

(** * Further cases of the example *)

Module Cases.

Import Example.

(** The checkpoint of the example with steps of zero hours. *)
Definition ckpt_still : Checkpoint := {|
  num_input_features := 5;
  computed_constants_mask := [3%nat];
  constants_from_input_mask := [2%nat];
  computed_forcings_mask := [4%nat];
  prognostic_input_mask := [0%nat; 1%nat];
  prognostic_output_mask := [0%nat; 1%nat];
  diagnostic_output_mask := [2%nat];
  model_to_data := λ i, i;
  index_to_variable := λ i, default "?" (names !! i);
  variable_to_index := {[ "2t" := 0%nat ]};
  imputable_variables := ["10u"];
  computed_constants := ["cos_latitude"];
  computed_forcings := ["insolation"];
  prognostic_params := ["2t"; "10u"];
  diagnostic_params := ["tp"];
  hour_steps := 0;
  multi_step := 2;
|}.

(** A checkpoint without constants from the input: four features
    [P, P, C, F]. *)
Definition ckpt_no_constant : Checkpoint := {|
  num_input_features := 4;
  computed_constants_mask := [2%nat];
  constants_from_input_mask := [];
  computed_forcings_mask := [3%nat];
  prognostic_input_mask := [0%nat; 1%nat];
  prognostic_output_mask := [0%nat; 1%nat];
  diagnostic_output_mask := [2%nat];
  model_to_data := λ i, i;
  index_to_variable :=
    λ i, default "?" (["2t"; "10u"; "cos_latitude"; "insolation"] !! i);
  variable_to_index := {[ "2t" := 0%nat ]};
  imputable_variables := ["10u"];
  computed_constants := ["cos_latitude"];
  computed_forcings := ["insolation"];
  prognostic_params := ["2t"; "10u"];
  diagnostic_params := ["tp"];
  hour_steps := 6;
  multi_step := 2;
|}.

(** Two dates, two retrieved fields each, for that checkpoint. *)
Definition fields_no_constant : list (Field exact) :=
  [ field (-6 * hour) 11 12; field (-6 * hour) 21 22;
    field 0 13 14; field 0 23 24 ].

(** A model with a single output feature. *)
Definition env_one_output : Collaborators exact := {|
  cml_load_source := cml_load_source env;
  predict_step := λ _, [[Num 1; Num 2]];
|}.

(** A data source that answers with no field for the dates after the
    start. *)
Definition env_short : Collaborators exact := {|
  cml_load_source := λ source date param,
    if decide (0 < date) then [] else cml_load_source env source date param;
  predict_step := predict_step env;
|}.

(** A tensor of the shape [(1, 2, 3)], as its shape and its six values. *)
Definition small_tensor : TorchTensor exact := {|
  shape := [1%nat; 2%nat; 3%nat];
  storage := [Num 1; Num 2; Num 3; Num 4; Num 5; Num 6];
|}.

(** The checkpoint of the example with its prognostic mask in descending
    order. *)
Definition ckpt_swapped : Checkpoint := {|
  num_input_features := 5;
  computed_constants_mask := [3%nat];
  constants_from_input_mask := [2%nat];
  computed_forcings_mask := [4%nat];
  prognostic_input_mask := [1%nat; 0%nat];
  prognostic_output_mask := [0%nat; 1%nat];
  diagnostic_output_mask := [2%nat];
  model_to_data := λ i, i;
  index_to_variable := λ i, default "?" (names !! i);
  variable_to_index := {[ "2t" := 0%nat ]};
  imputable_variables := ["10u"];
  computed_constants := ["cos_latitude"];
  computed_forcings := ["insolation"];
  prognostic_params := ["2t"; "10u"];
  diagnostic_params := ["tp"];
  hour_steps := 6;
  multi_step := 2;
|}.

(** The checkpoint of the example with four lags and steps of minus three
    hours, and fields for its four lags. *)
Definition ckpt_backward : Checkpoint := {|
  num_input_features := 5;
  computed_constants_mask := [3%nat];
  constants_from_input_mask := [2%nat];
  computed_forcings_mask := [4%nat];
  prognostic_input_mask := [0%nat; 1%nat];
  prognostic_output_mask := [0%nat; 1%nat];
  diagnostic_output_mask := [2%nat];
  model_to_data := λ i, i;
  index_to_variable := λ i, default "?" (names !! i);
  variable_to_index := {[ "2t" := 0%nat ]};
  imputable_variables := ["10u"];
  computed_constants := ["cos_latitude"];
  computed_forcings := ["insolation"];
  prognostic_params := ["2t"; "10u"];
  diagnostic_params := ["tp"];
  hour_steps := -3;
  multi_step := 4;
|}.

Definition fields_backward : list (Field exact) :=
  input_fields ++ input_fields.

(** The checkpoint of the example without diagnostics. *)
Definition ckpt_plain : Checkpoint := {|
  num_input_features := 5;
  computed_constants_mask := [3%nat];
  constants_from_input_mask := [2%nat];
  computed_forcings_mask := [4%nat];
  prognostic_input_mask := [0%nat; 1%nat];
  prognostic_output_mask := [0%nat; 1%nat];
  diagnostic_output_mask := [];
  model_to_data := λ i, i;
  index_to_variable := λ i, default "?" (names !! i);
  variable_to_index := {[ "2t" := 0%nat ]};
  imputable_variables := ["10u"];
  computed_constants := ["cos_latitude"];
  computed_forcings := ["insolation"];
  prognostic_params := ["2t"; "10u"];
  diagnostic_params := [];
  hour_steps := 6;
  multi_step := 2;
|}.

(** A checkpoint with a diagnostic parameter and no diagnostic output. *)
Definition ckpt_no_output : Checkpoint := {|
  num_input_features := 5;
  computed_constants_mask := [3%nat];
  constants_from_input_mask := [2%nat];
  computed_forcings_mask := [4%nat];
  prognostic_input_mask := [0%nat; 1%nat];
  prognostic_output_mask := [0%nat; 1%nat];
  diagnostic_output_mask := [];
  model_to_data := λ i, i;
  index_to_variable := λ i, default "?" (names !! i);
  variable_to_index := {[ "2t" := 0%nat ]};
  imputable_variables := ["10u"];
  computed_constants := ["cos_latitude"];
  computed_forcings := ["insolation"];
  prognostic_params := ["2t"; "10u"];
  diagnostic_params := ["tp"];
  hour_steps := 6;
  multi_step := 2;
|}.

(** A model that answers with two rows only from the second step on (it
    looks at the forcing of the newest slot): the second step raises at the
    diagnostic columns, after the emissions of the first step. *)
Definition env_breaks : Collaborators exact := {|
  cml_load_source := cml_load_source env;
  predict_step := λ t,
    match last t with
    | Some [r0; r1; _; _; [Num 0; _]] => [r0; r1; [Num (-5); Num 7]]
    | _ => [[Num 1; Num 2]; [Num 3; Num 4]]
    end;
|}.

End Cases.

(** * Properties *)

(** ** Reasoning on computations *)

Lemma bind_inr {E A B} (m : Eff E A) (k : A → Eff E B) tr b :
  bind m k = (tr, inr b) →
  ∃ tr1 a tr2, m = (tr1, inr a) ∧ k a = (tr2, inr b) ∧ tr = tr1 ++ tr2.
Proof.
  unfold bind. destruct m as [tr1 [e|a]]; simpl; intros Heq; [done|].
  exists tr1, a, (k a).1. destruct (k a) as [tr2 r]; simpl in *.
  by simplify_eq.
Qed.

Lemma bind_inl {E A B} (m : Eff E A) (k : A → Eff E B) tr e :
  bind m k = (tr, inl e) →
  m = (tr, inl e) ∨
  ∃ tr1 a tr2, m = (tr1, inr a) ∧ k a = (tr2, inl e) ∧ tr = tr1 ++ tr2.
Proof.
  unfold bind. destruct m as [tr1 [e'|a]]; simpl; intros Heq;
    [left; by simplify_eq|].
  right. exists tr1, a, (k a).1. destruct (k a) as [tr2 r]; simpl in *.
  by simplify_eq.
Qed.

Lemma bind_ok {E A B} (m : Eff E A) (k : A → Eff E B) tr1 a :
  m = (tr1, inr a) → bind m k = (tr1 ++ (k a).1, (k a).2).
Proof. by intros ->. Qed.

Lemma lift_inr {E A} (r : PyResult A) (tr : list E) a :
  lift r = (tr, inr a) → r = inr a ∧ tr = [].
Proof. unfold lift. by intros [= <- ->]. Qed.

Lemma lift_inr_2 {E A} (r : PyResult A) (a : A) :
  (lift (E:=E) r).2 = inr a → r = inr a.
Proof. done. Qed.

Lemma py_assert_inr {E} (b : bool) (tr : list E) u :
  py_assert b = (tr, inr u) → b = true ∧ tr = [].
Proof. destruct b; simpl; [by intros [= <- _]|done]. Qed.

Lemma foldM_app {E A S} (f : S → A → Eff E S) s l1 l2 :
  foldM f s (l1 ++ l2) = bind (foldM f s l1) (λ s', foldM f s' l2).
Proof.
  revert s. induction l1 as [|a l1 IH]; intros s; simpl.
  - by destruct (foldM f s l2).
  - destruct (f s a) as [tr [e|s']]; simpl; [done|].
    rewrite IH. destruct (foldM f s' l1) as [tr' [e|s'']]; simpl; [done|].
    by rewrite (assoc_L (++)).
Qed.

(** A projection of the events of a successful loop is the concatenation of
    the projections of its turns. *)
Lemma foldM_omap {E A S B} (f : S → A → Eff E S) (p : E → option B)
    (h : A → list B) l :
  (∀ s a tr s', a ∈ l → f s a = (tr, inr s') → omap p tr = h a) →
  ∀ s tr s', foldM f s l = (tr, inr s') → omap p tr = l ≫= h.
Proof.
  induction l as [|a l IH]; intros Hf s tr s'; simpl.
  - by intros [= <- _].
  - intros (tr1 & s1 & tr2 & H1 & H2 & ->)%bind_inr.
    rewrite omap_app. f_equal.
    + eapply Hf; [left|done].
    + eapply IH; [|done]. intros ???? Hin. apply Hf. by right.
Qed.

(** An invariant of the state of a loop holds at its successful end. *)
Lemma foldM_invariant {E A S} (f : S → A → Eff E S) (P : S → Prop) l :
  (∀ s a tr s', a ∈ l → P s → f s a = (tr, inr s') → P s') →
  ∀ s tr s', P s → foldM f s l = (tr, inr s') → P s'.
Proof.
  induction l as [|a l IH]; intros Hf s tr s' Hs; simpl.
  - by intros [= _ <-].
  - intros (tr1 & s1 & tr2 & H1 & H2 & ->)%bind_inr.
    eapply IH; [|eapply Hf; [left|done..]|done].
    intros ???? Hin. apply Hf. by right.
Qed.


(** A property of the events of a computation, whatever its outcome. *)
Lemma bind_Forall {E A B} (P : E → Prop) (m : Eff E A) (k : A → Eff E B) :
  Forall P m.1 → (∀ a, Forall P (k a).1) → Forall P (bind m k).1.
Proof.
  unfold bind. destruct m as [tr [e|a]]; simpl; intros Hm Hk; [done|].
  apply Forall_app. split; [done|apply Hk].
Qed.

Lemma foldM_Forall {E A S} (P : E → Prop) (f : S → A → Eff E S) l :
  (∀ s a, Forall P (f s a).1) → ∀ s, Forall P (foldM f s l).1.
Proof.
  intros Hf. induction l as [|a l IH]; intros s; simpl; [constructor|].
  apply bind_Forall; [apply Hf|apply IH].
Qed.

Lemma lift_Forall {E A} (P : E → Prop) (r : PyResult A) :
  Forall P (lift (E:=E) r).1.
Proof. constructor. Qed.

Lemma py_assert_Forall {E} (P : E → Prop) b : Forall P (py_assert (E:=E) b).1.
Proof. destruct b; constructor. Qed.

(** The two ways a sequence of two computations goes. *)
Lemma bind_cases {E A B} (m : Eff E A) (k : A → Eff E B) :
  (∃ e, m = (m.1, inl e) ∧ bind m k = (m.1, inl e))
  ∨ (∃ a, m = (m.1, inr a) ∧ bind m k = (m.1 ++ (k a).1, (k a).2)).
Proof.
  unfold bind. destruct m as [tr [e|a]]; simpl; [left|right]; by eexists.
Qed.

(** Counting the events of one sort in a successful loop. *)
Lemma foldM_length_omap {E A S B} (f : S → A → Eff E S) (p : E → option B)
    (n : nat) l :
  (∀ s a tr s', a ∈ l → f s a = (tr, inr s') → length (omap p tr) = n) →
  ∀ s tr s', foldM f s l = (tr, inr s') →
  length (omap p tr) = (length l * n)%nat.
Proof.
  induction l as [|a l IH]; intros Hf s tr s'; simpl.
  - by intros [= <- _].
  - intros (tr1 & s1 & tr2 & H1 & H2 & ->)%bind_inr.
    rewrite omap_app, length_app. f_equal.
    + eapply Hf; [left|done].
    + eapply IH; [|done]. intros ???? Hin. apply Hf. by right.
Qed.

Lemma bind_nil_inr {E A B} (a : A) (k : A → Eff E B) :
  bind ([], inr a) k = k a.
Proof. unfold bind. simpl. by destruct (k a). Qed.

Lemma bind_nil_inl {E A B} (e : PyError) (k : A → Eff E B) :
  bind ([], inl e) k = ([], inl e).
Proof. done. Qed.

Lemma bind_ret_r {E A} (m : Eff E A) : bind m ret = m.
Proof.
  unfold bind, ret. destruct m as [tr [e|a]]; simpl; [done|].
  by rewrite app_nil_r.
Qed.

Lemma foldM_snoc {E A S} (f : S → A → Eff E S) s l a :
  foldM f s (l ++ [a]) = bind (foldM f s l) (λ s', f s' a).
Proof.
  rewrite foldM_app.
  destruct (foldM f s l) as [tr [e|s']]; [done|].
  rewrite !(bind_ok _ _ tr s') by done. cbn [foldM].
  change (bind (f s' a) (λ s'', ret s'')) with (bind (f s' a) ret).
  by rewrite bind_ret_r.
Qed.

Lemma omap_fmap_Some {A B C} (p : B → option C) (f : A → B) (g : A → C)
    (l : list A) :
  (∀ x, x ∈ l → p (f x) = Some (g x)) → omap p (f <$> l) = g <$> l.
Proof.
  induction l as [|x l IH]; intros Hp; csimpl; [done|].
  rewrite Hp by left. simpl. f_equal. apply IH. intros y Hy. apply Hp.
  by right.
Qed.

(** A loop that raises: the turns before the raising one returned. *)
Lemma foldM_inl {E A S} (f : S → A → Eff E S) l s tr e :
  foldM f s l = (tr, inl e) →
  ∃ l1 a l2 tr1 s1 tr2,
    l = l1 ++ a :: l2
    ∧ foldM f s l1 = (tr1, inr s1)
    ∧ f s1 a = (tr2, inl e)
    ∧ tr = tr1 ++ tr2.
Proof.
  revert s tr. induction l as [|a l IH]; intros s tr; simpl; [done|].
  intros [Hf|(tr1 & s' & tr2 & Hf & Hl & ->)]%bind_inl.
  - exists [], a, l, [], s, tr. by split_and!.
  - apply IH in Hl as (l1 & b & l2 & tr1' & s1 & tr2' & -> & H1 & H2 & ->).
    exists (a :: l1), b, l2, (tr1 ++ tr1'), s1, tr2'. split_and!; try done.
    + simpl. rewrite Hf. unfold bind. by rewrite H1.
    + by rewrite (assoc_L (++)).
Qed.

(** A projection of the events of a sequence of two computations, whatever
    its outcome, is the beginning of what the two emit when they return. *)
Lemma bind_omap_prefix {E A B C} (p : E → option C) (m : Eff E A)
    (k : A → Eff E B) (X Y : list C) :
  omap p m.1 `prefix_of` X →
  (∀ a, m.2 = inr a → omap p m.1 = X ∧ omap p (k a).1 `prefix_of` Y) →
  omap p (bind m k).1 `prefix_of` X ++ Y.
Proof.
  unfold bind. destruct m as [tr [e|a]]; simpl; intros Hm Hk.
  - by apply prefix_app_r.
  - destruct (Hk a eq_refl) as [HX HY]. rewrite omap_app, HX.
    by apply prefix_app.
Qed.

Lemma foldM_omap_prefix {E A S B} (f : S → A → Eff E S) (p : E → option B)
    (h : A → list B) l :
  (∀ s a, omap p (f s a).1 `prefix_of` h a) →
  (∀ s a tr s', f s a = (tr, inr s') → omap p tr = h a) →
  ∀ s, omap p (foldM f s l).1 `prefix_of` l ≫= h.
Proof.
  intros Hany Hok. induction l as [|a l IH]; intros s; simpl; [done|].
  apply bind_omap_prefix; [apply Hany|].
  intros s' Hs'. split; [|apply IH].
  apply (Hok s a _ s'). destruct (f s a) as [tr r]. simpl in Hs'.
  by subst r.
Qed.

(** The indices of a loop over [range(m)] up to a given turn. *)
Lemma range_split (m : nat) (l1 l2 : list Z) (a : Z) :
  Z.of_nat <$> seq 0 m = l1 ++ a :: l2 →
  l1 = Z.of_nat <$> seq 0 (length l1) ∧ a = Z.of_nat (length l1)
  ∧ (length l1 < m)%nat.
Proof.
  intros Heq.
  assert (Hm : (length l1 < m)%nat).
  { apply (f_equal length) in Heq.
    rewrite length_fmap, length_seq, length_app in Heq. simpl in Heq.
    lia. }
  split_and!; [| |done].
  - apply (f_equal (take (length l1))) in Heq.
    rewrite take_app_length, <-fmap_take, take_seq in Heq.
    by rewrite Nat.min_l in Heq by lia.
  - apply (f_equal (.!! length l1)) in Heq.
    rewrite list_lookup_fmap, lookup_seq_lt, list_lookup_middle in Heq
      by done. simpl in Heq. by injection Heq.
Qed.

(** Counting the events of one sort in a loop, whatever its outcome. *)
Lemma foldM_length_omap_le {E A S B} (f : S → A → Eff E S) (p : E → option B)
    (n : nat) l :
  (∀ s a, (length (omap p (f s a).1) ≤ n)%nat) →
  ∀ s, (length (omap p (foldM f s l).1) ≤ length l * n)%nat.
Proof.
  intros Hf. induction l as [|a l IH]; intros s; simpl; [lia|].
  specialize (Hf s a). unfold bind.
  destruct (f s a) as [tr [e|s']]; simpl in *; [lia|].
  rewrite omap_app, length_app. specialize (IH s'). lia.
Qed.

(** ** The lag offsets *)

Lemma reverse_seq_0 (n : nat) :
  reverse (seq 0 n) = (λ j, (n - 1 - j)%nat) <$> seq 0 n.
Proof.
  induction n as [|n IH]; [done|].
  rewrite seq_S at 1. rewrite reverse_app, IH.
  change (seq 0 (S n)) with (0%nat :: seq 1 n).
  rewrite <-fmap_S_seq. rewrite fmap_cons, <-list_fmap_compose. simpl.
  f_equal; [lia|].
  apply list_fmap_ext. intros i x _. simpl. lia.
Qed.

Lemma py_range_length (n : Z) : length (py_range n) = Z.to_nat n.
Proof. unfold py_range. by rewrite length_fmap, length_seq. Qed.

Lemma lag_offsets_sorted ckpt :
  0 ≤ hour_steps ckpt → StronglySorted Z.le (lag_offsets ckpt).
Proof.
  intros Hh. unfold lag_offsets.
  generalize (multi_step ckpt - 1) as c. generalize 0%nat as a.
  induction (Z.to_nat (multi_step ckpt)) as [|n IH]; intros a c; simpl;
    constructor; [apply IH|].
  apply Forall_fmap, Forall_seq. intros j Hj. simpl. nia.
Qed.

Lemma lagged_closed_form ckpt :
  0 ≤ hour_steps ckpt → lagged ckpt = lag_offsets ckpt.
Proof.
  intros Hh. unfold lagged, py_sorted.
  apply (StronglySorted_unique Z.le).
  - apply StronglySorted_merge_sort; apply _.
  - by apply lag_offsets_sorted.
  - rewrite merge_sort_Permutation, <-reverse_Permutation.
    unfold lag_offsets, py_range.
    rewrite <-!fmap_reverse, reverse_seq_0, <-!list_fmap_compose.
    set (n := Z.to_nat (multi_step ckpt)).
    assert (Hn : n = Z.to_nat (multi_step ckpt)) by done.
    clearbody n.
    erewrite list_fmap_ext; [reflexivity|].
    intros i x Hx%lookup_seq. simpl. destruct Hx as [-> Hlt]. f_equal. lia.
Qed.

(** A loop whose successful turns emit exactly one event each. *)
Lemma foldM_one_event {E A S} (f : S → A → Eff E S) (P : A → E → Prop) l :
  (∀ s a tr s', f s a = (tr, inr s') → ∃ e, tr = [e] ∧ P a e) →
  ∀ s tr s', foldM f s l = (tr, inr s') → Forall2 P l tr.
Proof.
  intros Hf. induction l as [|a l IH]; intros s tr s'; simpl.
  - intros [= <- _]. constructor.
  - intros (tr1 & s1 & tr2 & H1 & H2 & ->)%bind_inr.
    apply Hf in H1 as (e & -> & He). constructor; [done|]. by eapply IH.
Qed.

(** ** The events of one step of the rollout *)

Section Steps.

Context {V : Type} `{Float32 V}.
Variable env : Collaborators V.

Local Abbreviation Event := (Event V).
Local Abbreviation Scope := (Scope V).

Lemma forcing_and_constants_inr source date param tr rows :
  forcing_and_constants env source date param = (tr, inr rows) →
  tr = [LoadSource date param]
  ∧ rows = cml_load_source env source date param
  ∧ length rows = length param.
Proof.
  unfold forcing_and_constants.
  intros (tr1 & [] & tr2 & [= <-] & H2 & ->)%bind_inr.
  apply bind_inr in H2 as (tr3 & [] & tr4 & [Hlen ->]%py_assert_inr & [= <- <-] & ->).
  apply bool_decide_eq_true in Hlen. done.
Qed.

Lemma enumerate_length {A} (l : list A) : length (enumerate l) = length l.
Proof. unfold enumerate. rewrite length_zip, length_seq. lia. Qed.

Lemma enumerate_lookup {A} (l : list A) i n a :
  enumerate l !! i = Some (n, a) ↔ n = i ∧ l !! i = Some a.
Proof.
  unfold enumerate. rewrite lookup_zip_with_Some. split.
  - intros (x & y & [= <- <-] & [-> ?]%lookup_seq & ?). done.
  - intros [-> Hl]. exists i, a. split_and!; [done| |done].
    apply lookup_seq. split; [done|]. by eapply lookup_lt_Some.
Qed.

(** The stages of a step that succeeds. *)
Lemma rollout_step_inr (sc : Scope) (t : Tensor V) (acc : list (Row V))
    (i : Z) (tr : list Event) (t' : Tensor V) (acc' : list (Row V)) :
  rollout_step env sc (t, acc) i = (tr, inr (t', acc')) →
  let ckpt := sc_ckpt sc in
  let y_pred := predict_step env t in
  let step := step_of ckpt i in
  let date := sc_start_datetime sc + timedelta_hours step in
  let forcing := cml_load_source env (take 1 (sc_input_fields sc)) date
                   (computed_forcings ckpt) in
  ∃ fields accums prognostic_fields,
    tr = Predict t :: fields ++ accums
         ++ [LoadSource date (computed_forcings ckpt)]
    ∧ Forall (field_event_at step) fields
    ∧ length fields = prognostic_emissions sc
    ∧ (if bool_decide (diagnostic_output_mask ckpt = [])
       then acc' = acc ∧ accums = []
       else ∃ df,
         squeezed_columns (sc_gridpoints sc) y_pred
           (diagnostic_output_mask ckpt) = inr df
         ∧ foldM (accumulate (sc_precip_template sc)
                    (sc_most_recent_datetime sc) df step)
             acc (enumerate (diagnostic_params ckpt))
           = (accums, inr acc'))
    ∧ np_take y_pred (prognostic_output_mask ckpt) = inr prognostic_fields
    ∧ length forcing = length (computed_forcings ckpt)
    ∧ advance ckpt (sc_gridpoints sc) t prognostic_fields forcing = inr t'.
Proof.
  intros Hstep ckpt y_pred step date forcing.
  unfold rollout_step in Hstep. cbn [fst snd] in Hstep.
  apply bind_inr in Hstep as (? & [] & tr1 & [= <-] & H1 & ->).
  apply bind_inr in H1 as (? & pf & tr2 & [_ ->]%lift_inr & H2 & ->).
  apply bind_inr in H2 as (trd & df & tr3 & Hdf & H3 & ->).
  apply bind_inr in H3 as (fields & [] & tr4 & Hfields & H4 & ->).
  apply bind_inr in H4 as (accums & acc1 & tr5 & Haccums & H5 & ->).
  apply bind_inr in H5 as (? & pfs & tr6 & [Hpfs ->]%lift_inr & H6 & ->).
  apply bind_inr in H6 as (trf & forcing' & tr7 & Hforcing & H7 & ->).
  apply bind_inr in H7
    as (? & t1 & tr8 & [Hadv ->]%lift_inr & [= <- <- <-] & ->).
  apply forcing_and_constants_inr in Hforcing as (-> & -> & Hflen).
  assert (trd = []) as ->.
  { destruct (negb _); [by apply lift_inr in Hdf as [_ ->]|].
    by injection Hdf as <- _. }
  assert (Hf2 : Forall2 (λ _, field_event_at step)
            (enumerate (zip (sc_prog_cols sc) (prognostic_params ckpt)))
            fields).
  { eapply foldM_one_event; [|exact Hfields]. simpl.
    intros [] nm tr0 [] Hemit. unfold emit_prognostic in Hemit.
    apply bind_inr in Hemit as (? & template & ? & [_ ->]%lift_inr & Hemit & ->).
    apply bind_inr in Hemit as (? & [] & ? & [_ ->]%py_assert_inr & Hemit & ->).
    apply bind_inr in Hemit as (? & data & ? & [_ ->]%lift_inr & [= <-] & ->).
    eexists. split; [done|]. by eexists _, _. }
  exists fields, accums, pfs. split_and!; try done.
  - eapply Forall2_Forall_r; [exact Hf2|]. by apply Forall_true.
  - apply Forall2_length in Hf2. rewrite enumerate_length in Hf2.
    by rewrite <-Hf2.
  - fold ckpt in Haccums, Hdf.
    destruct (bool_decide (diagnostic_output_mask ckpt = [])); simpl in *.
    + by injection Haccums as <- <-.
    + apply lift_inr in Hdf as [Hdf _]. by exists df.
Qed.

Lemma rollout_step_events sc st i tr st' :
  rollout_step env sc st i = (tr, inr st') →
  ∃ fields accums,
    tr = Predict st.1 :: fields ++ accums ++
         [LoadSource (sc_start_datetime sc
                      + timedelta_hours (step_of (sc_ckpt sc) i))
            (computed_forcings (sc_ckpt sc))]
    ∧ Forall (field_event_at (step_of (sc_ckpt sc) i)) fields
    ∧ length fields = prognostic_emissions sc
    ∧ Forall (accum_event_at (step_of (sc_ckpt sc) i)) accums
    ∧ length accums = accumulation_emissions sc.
Proof.
  destruct st as [t acc], st' as [t' acc'].
  intros (fields & accums & pfs & -> & Hf & Hlf & Hacc & _)%rollout_step_inr.
  exists fields, accums. split_and!; try done;
    unfold accumulation_emissions;
    destruct (bool_decide (diagnostic_output_mask (sc_ckpt sc) = []));
    try (by destruct Hacc as [_ ->]);
    destruct Hacc as (df & _ & Hacc).
  all: assert (Ha2 : Forall2 (λ _, accum_event_at (step_of (sc_ckpt sc) i))
            (enumerate (diagnostic_params (sc_ckpt sc))) accums).
  all: try (eapply foldM_one_event; [|exact Hacc]; simpl;
    intros acc0 np tr0 acc1 Ha; unfold accumulate in Ha;
    apply bind_inr in Ha as (? & row & ? & [_ ->]%lift_inr & Ha & ->);
    apply bind_inr in Ha as (? & v & ? & [_ ->]%lift_inr & Ha & ->);
    apply bind_inr in Ha as (? & row' & ? & [_ ->]%lift_inr & Ha & ->);
    apply bind_inr in Ha as (? & [] & ? & [_ ->]%py_assert_inr & Ha & ->);
    apply bind_inr in Ha as (? & [] & ? & [= <-] & [= <- _] & ->);
    eexists; split; [done|]; by eexists _, _, _).
  - eapply Forall2_Forall_r; [exact Ha2|]. by apply Forall_true.
  - apply Forall2_length in Ha2. by rewrite enumerate_length in Ha2.
Qed.

(** *** The events of a step, whatever its outcome *)

Lemma bind_const_replicate {A B} (l : list A) (x : B) :
  l ≫= (λ _, [x]) = replicate (length l) x.
Proof. induction l as [|a l IH]; csimpl; [done|]. by rewrite IH. Qed.

Lemma omap_none {A B} (p : A → option B) (l : list A) :
  Forall (λ a, p a = None) l → omap p l = [].
Proof. induction 1 as [|a l Ha _ IH]; csimpl; [done|]. by rewrite Ha. Qed.

Lemma pair_eta_inr {E A} (m : Eff E A) (a : A) :
  m.2 = inr a → m = (m.1, inr a).
Proof. destruct m as [tr r]. simpl. by intros ->. Qed.

Lemma bind_tell {A} (e : Event) (k : unit → Eff Event A) :
  bind (tell e) k = (e :: (k tt).1, (k tt).2).
Proof. done. Qed.

(** One prognostic emission: nothing before an exception, one call of the
    callback with the step number otherwise. *)
Lemma emit_prognostic_any refs mr pfn step nm :
  let x := emit_prognostic (V:=V) refs mr pfn step nm in
  (x.1 = [] ∧ ∃ e, x.2 = inl e)
  ∨ (∃ data template, x = ([CallbackField data template step true], inr tt)).
Proof.
  unfold emit_prognostic, py_index, lift, py_assert.
  destruct (refs !! nm.2) as [template|]; [|left; split; [done|by eexists]].
  rewrite bind_nil_inr.
  destruct (bool_decide _); [|left; split; [done|by eexists]].
  unfold ret. rewrite bind_nil_inr.
  destruct (pfn !! nm.1) as [data|]; [|left; split; [done|by eexists]].
  rewrite bind_nil_inr. right. by exists data, template.
Qed.

(** One accumulation: nothing before an exception, one call of the
    callback with the step number otherwise. *)
Lemma accumulate_any tpl mr df step acc (np : nat * string) :
  let x := accumulate (V:=V) tpl mr df step acc np in
  (x.1 = [] ∧ ∃ e, x.2 = inl e)
  ∨ (∃ row' acc',
       x = ([CallbackAccum row' tpl 0 step np.2 true], inr acc')).
Proof.
  unfold accumulate, py_index, lift, py_assert.
  destruct (acc !! np.1) as [row|]; [|left; split; [done|by eexists]].
  rewrite bind_nil_inr.
  destruct (df !! np.1) as [v|]; [|left; split; [done|by eexists]].
  rewrite bind_nil_inr.
  destruct (iadd_maximum0 row v) as [e'|row'];
    [left; split; [done|by eexists]|].
  rewrite bind_nil_inr.
  destruct (bool_decide _); [|left; split; [done|by eexists]].
  unfold ret. rewrite bind_nil_inr. right. by eexists _, _.
Qed.

Lemma forcing_and_constants_trace source date param :
  (forcing_and_constants env source date param).1 = [LoadSource date param].
Proof.
  unfold forcing_and_constants. rewrite bind_tell. simpl.
  unfold py_assert. by destruct (bool_decide _).
Qed.

(** A step starts with the call of the model, and that is its only call of
    the model. *)
Lemma rollout_step_predicts sc st i :
  omap predicted (rollout_step env sc st i).1 = [st.1].
Proof.
  assert (Hk : ∀ k : unit → Eff Event (Tensor V * list (Row V)),
            Forall (λ e, predicted e = None) (k tt).1 →
            omap predicted (bind (tell (Predict st.1)) k).1 = [st.1]).
  { intros k Hk. rewrite bind_tell. cbn [fst].
    change (omap predicted (Predict st.1 :: (k tt).1))
      with (st.1 :: omap predicted (k tt).1).
    by rewrite omap_none. }
  unfold rollout_step. apply Hk. cbv beta.
  apply bind_Forall; [apply lift_Forall|]; intros pf.
  apply bind_Forall; [destruct (negb _); constructor|]; intros df.
  apply bind_Forall.
  { apply foldM_Forall. intros _ nm.
    destruct (emit_prognostic_any (sc_reference_fields sc)
                (sc_most_recent_datetime sc) pf (step_of (sc_ckpt sc) i)
                (nm.1, nm.2.1)) as [[-> _]|(d & t & ->)];
      by repeat constructor. }
  intros _. apply bind_Forall.
  { destruct (negb _); [|constructor].
    apply foldM_Forall. intros acc np.
    destruct (accumulate_any (sc_precip_template sc)
                (sc_most_recent_datetime sc) df (step_of (sc_ckpt sc) i)
                acc np) as [[-> _]|(r & a & ->)];
      by repeat constructor. }
  intros acc.
  apply bind_Forall; [apply lift_Forall|]; intros ?.
  apply bind_Forall.
  { rewrite forcing_and_constants_trace. by repeat constructor. }
  intros ?. apply bind_Forall; [apply lift_Forall|]; intros ?. constructor.
Qed.

(** The step numbers of the emissions of a step that raises are the
    beginning of those of a step that returns. *)
Lemma rollout_step_numbers_any sc st i :
  omap emitted_step (rollout_step env sc st i).1
  `prefix_of` replicate (prognostic_emissions sc + accumulation_emissions sc)
                (step_of (sc_ckpt sc) i).
Proof.
  rewrite replicate_add.
  change (replicate (prognostic_emissions sc) (step_of (sc_ckpt sc) i)
          ++ replicate (accumulation_emissions sc) (step_of (sc_ckpt sc) i))
    with ([] ++ [] ++ []
          ++ replicate (prognostic_emissions sc) (step_of (sc_ckpt sc) i)
          ++ replicate (accumulation_emissions sc) (step_of (sc_ckpt sc) i)).
  unfold rollout_step. cbv zeta.
  apply bind_omap_prefix; [done|]. intros _ _. split; [done|].
  apply bind_omap_prefix; [done|]. intros pf _. split; [done|].
  apply bind_omap_prefix; [by destruct (negb _)|]. intros df _.
  split; [by destruct (negb _)|].
  assert (Hturn : ∀ (nm : nat * (nat * string)) tr r,
    emit_prognostic (V:=V) (sc_reference_fields sc)
      (sc_most_recent_datetime sc) pf (step_of (sc_ckpt sc) i)
      (nm.1, nm.2.1) = (tr, r) →
    omap emitted_step tr `prefix_of` [step_of (sc_ckpt sc) i]
    ∧ ∀ u, r = inr u → omap emitted_step tr = [step_of (sc_ckpt sc) i]).
  { intros nm tr r Heq.
    destruct (emit_prognostic_any (sc_reference_fields sc)
                (sc_most_recent_datetime sc) pf (step_of (sc_ckpt sc) i)
                (nm.1, nm.2.1))
      as [[Hx [e He]]|(d & t & Hx)]; rewrite Heq in *; simpl in *.
    - subst. split; [apply prefix_nil|done].
    - by injection Hx as -> ->. }
  apply bind_omap_prefix.
  { unfold prognostic_emissions.
    rewrite <-(enumerate_length (zip _ _)), <-bind_const_replicate.
    apply foldM_omap_prefix.
    - intros _ nm. destruct (emit_prognostic _ _ _ _ _) as [tr r] eqn:Heq.
      apply (Hturn nm tr r Heq).
    - intros _ nm tr [] Heq. by apply (proj2 (Hturn nm tr _ Heq) tt). }
  intros u Hok. split.
  { unfold prognostic_emissions.
    rewrite <-(enumerate_length (zip _ _)), <-bind_const_replicate.
    destruct (foldM _ _ _) as [trf rf] eqn:Hf. simpl in Hok. subst rf.
    eapply (foldM_omap _ emitted_step); [|exact Hf].
    intros _ nm tr [] _ Heq. by apply (proj2 (Hturn nm tr _ Heq) tt). }
  rewrite <-(app_nil_r
    (replicate (accumulation_emissions sc) (step_of (sc_ckpt sc) i))).
  assert (Haccum : ∀ acc (np : nat * string) tr r,
    accumulate (V:=V) (sc_precip_template sc)
      (sc_most_recent_datetime sc) df (step_of (sc_ckpt sc) i) acc np
    = (tr, r) →
    omap emitted_step tr `prefix_of` [step_of (sc_ckpt sc) i]
    ∧ ∀ acc', r = inr acc' →
        omap emitted_step tr = [step_of (sc_ckpt sc) i]).
  { intros acc np tr r Heq.
    destruct (accumulate_any (sc_precip_template sc)
                (sc_most_recent_datetime sc) df (step_of (sc_ckpt sc) i)
                acc np)
      as [[Hx [e He]]|(row' & acc' & Hx)]; rewrite Heq in *; simpl in *.
    - subst. split; [apply prefix_nil|done].
    - by injection Hx as -> ->. }
  unfold accumulation_emissions.
  apply bind_omap_prefix.
  { destruct (bool_decide _); [apply prefix_nil|]. cbn [negb].
    rewrite <-(enumerate_length (diagnostic_params _)),
      <-bind_const_replicate.
    apply foldM_omap_prefix.
    - intros acc np. destruct (accumulate _ _ _ _ _ _) as [tr r] eqn:Heq.
      apply (Haccum acc np tr r Heq).
    - intros acc np tr acc' Heq. by apply (proj2 (Haccum acc np tr _ Heq) acc'). }
  intros acc Hok'. split.
  { destruct (bool_decide _); [done|]. cbn [negb] in *.
    rewrite <-(enumerate_length (diagnostic_params _)),
      <-bind_const_replicate.
    eapply (foldM_omap _ emitted_step); [|apply pair_eta_inr, Hok'].
    intros acc0 np tr acc' _ Heq. by apply (proj2 (Haccum acc0 np tr _ Heq) acc'). }
  change (@nil Z) with (@nil Z ++ [] ++ []).
  apply bind_omap_prefix; [done|]. intros ? _. split; [done|].
  apply bind_omap_prefix;
    [by rewrite forcing_and_constants_trace|].
  intros ? _. split; [by rewrite forcing_and_constants_trace|].
  by destruct (advance _ _ _ _ _).
Qed.

End Steps.

(** ** The number of steps and their numbers *)

Section StepCount.

Context {V : Type} `{Float32 V}.
Variable env : Collaborators V.

Local Abbreviation Event := (Event V).
Local Abbreviation Scope := (Scope V).

Lemma omap_emitted_step_fields step (l : list Event) :
  Forall (field_event_at step) l →
  omap emitted_step l = replicate (length l) step
  ∧ omap predicted l = [].
Proof.
  induction 1 as [|e l (d & t & ->) _ [IH1 IH2]]; [done|].
  csimpl. by rewrite IH1, IH2.
Qed.

Lemma omap_emitted_step_accums step (l : list Event) :
  Forall (accum_event_at step) l →
  omap emitted_step l = replicate (length l) step
  ∧ omap predicted l = [].
Proof.
  induction 1 as [|e l (d & t & p & ->) _ [IH1 IH2]]; [done|].
  csimpl. by rewrite IH1, IH2.
Qed.

Lemma rollout_step_numbers_step sc st i tr st' :
  rollout_step env sc st i = (tr, inr st') →
  omap emitted_step tr
    = replicate (prognostic_emissions sc + accumulation_emissions sc)
        (step_of (sc_ckpt sc) i)
  ∧ omap predicted tr = [st.1].
Proof.
  intros (fields & accums & -> & Hf & Hlf & Ha & Hla)%rollout_step_events.
  apply omap_emitted_step_fields in Hf as [Hf1 Hf2].
  apply omap_emitted_step_accums in Ha as [Ha1 Ha2].
  rewrite <-Hlf, <-Hla. csimpl. rewrite !omap_app, Hf1, Hf2, Ha1, Ha2. csimpl.
  by rewrite app_nil_r, replicate_add.
Qed.

Lemma step_numbers_closed_form (ckpt : Checkpoint) (q : Z) :
  step_of ckpt <$> py_range q
  = (λ k : nat, Z.of_nat k * hour_steps ckpt) <$> seq 1 (Z.to_nat q).
Proof.
  unfold py_range. rewrite <-fmap_S_seq, <-!list_fmap_compose.
  apply list_fmap_ext. intros _ k _. unfold step_of. simpl. f_equal. lia.
Qed.

(** C5.  For every [lead_time] and [hour_steps].  With [hour_steps = 0]
    the loop header raises [ZeroDivisionError] and no step is made.
    Otherwise the loop runs over [range(q)], [q = lead_time // hour_steps]
    (the floor of the quotient), that is over [max(0, q)] indices; the step
    numbers of these turns are [k * hour_steps] for [k = 1 .. max(0, q)];
    whatever the outcome of the rollout, the model is called at most
    [max(0, q)] times and the step numbers attached to the emissions are
    the beginning of the list of these numbers, each repeated for the
    emissions of its step; a rollout that completes calls the model
    exactly [max(0, q)] times and emits the whole list.  The numbers are
    ascending when [hour_steps > 0] and descending when [hour_steps < 0];
    [max(0, q)] is [q] when [hour_steps > 0] and [lead_time >= 0]. *)
Theorem rollout_step_numbers (sc : Scope) (lead_time : Z)
    (st : Tensor V * list (Row V)) :
  let hs := hour_steps (sc_ckpt sc) in
  let q := lead_time `div` hs in
  let m := Z.to_nat q in
  let out := rollout env sc lead_time st in
  let steps := (λ k : nat, Z.of_nat k * hs) <$> seq 1 m in
  let emissions := (prognostic_emissions sc + accumulation_emissions sc)%nat in
  (hs = 0 → out = ([], inl ZeroDivisionError))
  ∧ (hs ≠ 0 →
       rollout_range (sc_ckpt sc) lead_time = inr (py_range q)
       ∧ length (py_range q) = m
       ∧ step_of (sc_ckpt sc) <$> py_range q = steps
       ∧ (length (omap predicted out.1) ≤ m)%nat
       ∧ omap emitted_step out.1 `prefix_of` steps ≫= replicate emissions
       ∧ (∀ st', out.2 = inr st' →
            length (omap predicted out.1) = m
            ∧ omap emitted_step out.1 = steps ≫= replicate emissions))
  ∧ Z.of_nat m = Z.max 0 q
  ∧ (0 < hs → 0 ≤ lead_time → Z.of_nat m = q)
  ∧ (0 < hs → StronglySorted Z.lt steps)
  ∧ (hs < 0 → StronglySorted Z.gt steps).
Proof.
  intros hs q m out steps emissions.
  assert (Hsteps : ∀ l : list Z,
            l ≫= (λ i, replicate emissions (step_of (sc_ckpt sc) i))
            = (step_of (sc_ckpt sc) <$> l) ≫= replicate emissions).
  { intros l. by rewrite list_fmap_bind. }
  assert (Hst : steps = step_of (sc_ckpt sc) <$> py_range q)
    by (symmetry; apply step_numbers_closed_form).
  split_and!.
  - intros Hhs. unfold out, rollout, rollout_range, py_floordiv.
    fold hs. by rewrite decide_True.
  - intros Hhs.
    assert (Hrange : rollout_range (sc_ckpt sc) lead_time = inr (py_range q)).
    { unfold rollout_range, py_floordiv. by rewrite decide_False. }
    assert (Hout : out = foldM (rollout_step env sc) st (py_range q)).
    { unfold out, rollout. rewrite Hrange. unfold lift.
      by rewrite bind_nil_inr. }
    rewrite Hout. split_and!.
    + done.
    + apply py_range_length.
    + apply step_numbers_closed_form.
    + pose proof (foldM_length_omap_le (rollout_step env sc) predicted 1
                    (py_range q)) as Hle.
      rewrite py_range_length in Hle. fold m in Hle.
      rewrite Nat.mul_1_r in Hle. apply Hle.
      intros s a. by rewrite rollout_step_predicts.
    + rewrite Hst, <-Hsteps.
      apply foldM_omap_prefix.
      * intros s a. apply rollout_step_numbers_any.
      * intros s a tr s' [H1 _]%rollout_step_numbers_step. exact H1.
    + intros st' Hok. apply pair_eta_inr in Hok. split.
      * erewrite (foldM_length_omap _ predicted 1); [| |exact Hok].
        -- rewrite py_range_length. fold m. lia.
        -- intros s a tr1 s1 _ [_ H1]%rollout_step_numbers_step.
           by rewrite H1.
      * rewrite Hst, <-Hsteps.
        eapply (foldM_omap _ emitted_step); [|exact Hok].
        intros s a tr1 s1 _ [H1 _]%rollout_step_numbers_step. exact H1.
  - lia.
  - intros Hhs Hlead. assert (0 ≤ q) by (apply Z.div_pos; lia). lia.
  - intros Hhs. clear Hst Hsteps. subst steps. clearbody m.
    generalize 1%nat as a.
    induction m as [|n IH]; intros a; simpl; constructor; [apply IH|].
    apply Forall_fmap, Forall_seq. intros j Hj. simpl. nia.
  - intros Hhs. clear Hst Hsteps. subst steps. clearbody m.
    generalize 1%nat as a.
    induction m as [|n IH]; intros a; simpl; constructor; [apply IH|].
    apply Forall_fmap, Forall_seq. intros j Hj. simpl. nia.
Qed.

End StepCount.

(** ** The first call of the output callback *)

Section InitialCall.

Context {V : Type} `{Float32 V}.
Variable env : Collaborators V.

Local Abbreviation Event := (Event V).
Local Abbreviation Scope := (Scope V).
Local Abbreviation Field := (Field V).

Local Abbreviation quiet := (Forall (λ e : Event, is_callback e = false)).

Lemma forcing_and_constants_quiet source date param :
  quiet (forcing_and_constants env source date param).1.
Proof.
  unfold forcing_and_constants. apply bind_Forall; [by repeat constructor|].
  intros _. apply bind_Forall; [apply py_assert_Forall|]. intros _. constructor.
Qed.

Lemma mark_quiet mask k b c : quiet (mark (V:=V) mask k b c).1.
Proof.
  unfold mark. apply bind_Forall; [apply lift_Forall|]. intros seen.
  apply bind_Forall; [apply py_assert_Forall|]. intros _. constructor.
Qed.

Lemma report_missing_quiet ckpt chk : quiet (report_missing (V:=V) ckpt chk).
Proof.
  unfold report_missing. apply Forall_bind, Forall_forall.
  intros [i []] _; by repeat constructor.
Qed.

Lemma classify_quiet ckpt : quiet (classify (V:=V) ckpt).1.
Proof.
  unfold classify.
  repeat (apply bind_Forall; [apply mark_quiet|]; intros ?).
  destruct (forallb _ _); [constructor|apply report_missing_quiet].
Qed.

Lemma retrieved_fields_masks_quiet c : quiet (retrieved_fields_masks (V:=V) c).1.
Proof.
  unfold retrieved_fields_masks. apply bind_Forall; [|intros; constructor].
  apply foldM_Forall. intros [[prog const] idx] i. unfold retrieved_step.
  apply bind_Forall; [apply lift_Forall|]. intros [|]; [|constructor].
  apply bind_Forall; [apply lift_Forall|]. intros k.
  apply bind_Forall; [apply py_assert_Forall|]. intros _.
  destruct (decide _); constructor.
Qed.

Lemma assemble_quiet ckpt c pc cc fields g src start :
  quiet (assemble env ckpt c pc cc fields g src start).1.
Proof.
  unfold assemble.
  apply bind_Forall; [apply lift_Forall|]; intros ?.
  apply bind_Forall; [apply lift_Forall|]; intros ?.
  apply bind_Forall; [apply forcing_and_constants_quiet|]; intros ?.
  apply bind_Forall; [apply lift_Forall|]; intros ?.
  apply foldM_Forall. intros t i. unfold scatter_forcing_at.
  apply bind_Forall; [apply lift_Forall|]; intros ?.
  apply bind_Forall; [apply forcing_and_constants_quiet|]; intros ?.
  apply bind_Forall; [apply lift_Forall|]; intros ?.
  apply bind_Forall; [apply lift_Forall|]; intros ?. constructor.
Qed.

Lemma validate_quiet ckpt t : quiet (validate (V:=V) ckpt t).1.
Proof.
  unfold validate. apply foldM_Forall. intros s i. unfold validate_step.
  destruct (has_missing t i); [|constructor].
  destruct (bool_decide _); [constructor|].
  apply bind_Forall; [by repeat constructor|]. intros _. constructor.
Qed.

Lemma get_most_recent_datetime_quiet (fields : list Field) :
  quiet (get_most_recent_datetime fields).1.
Proof.
  unfold get_most_recent_datetime.
  apply bind_Forall; [apply lift_Forall|]; intros ?.
  apply bind_Forall; [|intros; constructor].
  apply foldM_Forall. intros _ d. apply py_assert_Forall.
Qed.

Lemma until_init_bind {A B} (Q : Event → B → Prop) (m : Eff Event A)
    (k : A → Eff Event B) :
  quiet m.1 → (∀ a, m.2 = inr a → until_init Q (k a)) →
  until_init Q (bind m k).
Proof.
  intros Hm Hk. destruct (bind_cases m k) as [(e & Hm' & ->)|(a & Hm' & ->)].
  - left. by exists e.
  - rewrite Hm' in Hk. destruct (Hk a eq_refl) as
      [(e & He & Hq)|(pre & init & b & Hb & Hq & HQ)].
    + left. exists e. split; [done|]. simpl. by apply Forall_app.
    + right. exists (m.1 ++ pre), init, b. rewrite Hb. simpl.
      rewrite (assoc_L (++)). split_and!; [done| |done]. by apply Forall_app.
Qed.

Lemma rollout_step_no_init sc st i :
  Forall (λ e, is_init e = false) (rollout_step env sc st i).1.
Proof.
  unfold rollout_step.
  apply bind_Forall; [by repeat constructor|]; intros _.
  apply bind_Forall; [apply lift_Forall|]; intros pf.
  apply bind_Forall; [destruct (negb _); constructor|]; intros df.
  apply bind_Forall.
  { apply foldM_Forall. intros _ nm. unfold emit_prognostic.
    apply bind_Forall; [apply lift_Forall|]; intros ?.
    apply bind_Forall; [apply py_assert_Forall|]; intros ?.
    apply bind_Forall; [apply lift_Forall|]; intros ?. by repeat constructor. }
  intros _. apply bind_Forall.
  { destruct (negb _); [|constructor].
    apply foldM_Forall. intros acc np. unfold accumulate.
    apply bind_Forall; [apply lift_Forall|]; intros ?.
    apply bind_Forall; [apply lift_Forall|]; intros ?.
    apply bind_Forall; [apply lift_Forall|]; intros ?.
    apply bind_Forall; [apply py_assert_Forall|]; intros ?.
    apply bind_Forall; [by repeat constructor|]; intros ?. constructor. }
  intros acc.
  apply bind_Forall; [apply lift_Forall|]; intros ?.
  apply bind_Forall.
  { unfold forcing_and_constants.
    apply bind_Forall; [by repeat constructor|]; intros ?.
    apply bind_Forall; [apply py_assert_Forall|]; intros ?. constructor. }
  intros ?. apply bind_Forall; [apply lift_Forall|]; intros ?. constructor.
Qed.

Lemma rollout_no_init sc lead_time st :
  Forall (λ e, is_init e = false) (rollout env sc lead_time st).1.
Proof.
  unfold rollout. apply bind_Forall; [apply lift_Forall|]. intros steps.
  apply foldM_Forall. intros ??. apply rollout_step_no_init.
Qed.

Lemma prepare_until_init ckpt input_fields start_datetime :
  until_init (λ init start,
      init = CallbackInit input_fields
               (init_payload ckpt (sc_precip_template start.1)
                  (sc_gridpoints start.1))
      ∧ prepared_scope ckpt input_fields start_datetime start.1)
    (prepare env ckpt input_fields start_datetime).
Proof.
  unfold prepare.
  apply until_init_bind; [apply lift_Forall|]; intros g Hg.
  apply until_init_bind; [apply lift_Forall|]; intros rows _.
  apply until_init_bind; [apply lift_Forall|]; intros src _.
  apply until_init_bind; [apply classify_quiet|]; intros c _.
  apply until_init_bind; [apply retrieved_fields_masks_quiet|]; intros cols _.
  apply until_init_bind; [apply assemble_quiet|]; intros t _.
  apply until_init_bind; [apply validate_quiet|]; intros cbm _.
  apply until_init_bind; [apply get_most_recent_datetime_quiet|]; intros mr Hmr.
  apply until_init_bind; [apply lift_Forall|]; intros template Htemplate.
  simpl in Hg, Htemplate.
  unfold callback_init, init_payload.
  destruct (diagnostic_params ckpt) as [|p ps] eqn:Hdp.
  - right. eexists [], _, _. simpl. split; [reflexivity|].
    split; [constructor|]. simpl. done.
  - destruct (length (diagnostic_output_mask ckpt)) as [|n] eqn:Hn.
    + left. eexists. simpl. split; [done|constructor].
    + right. eexists [], _, _. simpl. split; [reflexivity|].
      split; [constructor|]. simpl. rewrite length_replicate. done.
Qed.

Lemma bind_ok_eq {A B} (m : Eff Event A) (k : A → Eff Event B) tr1 a tr2 r :
  m = (tr1, inr a) → k a = (tr2, r) → bind m k = (tr1 ++ tr2, r).
Proof. intros -> Hk. unfold bind. by rewrite Hk. Qed.

(** The preparation when every stage before the first call of the
    callback returns: the traces of the stages, then what the call does. *)
Lemma prepare_of_stages ckpt (input_fields : list Field) start_datetime
    g rows src c cols t names most_recent precip_template
    (tr_c tr_m tr_a tr_v tr_d : list Event) :
  gridpoints_of input_fields = inr g →
  fields_to_numpy g input_fields = inr rows →
  reshape_lags (length (lagged ckpt)) g rows = inr src →
  classify ckpt = (tr_c, inr c) →
  retrieved_fields_masks c = (tr_m, inr cols) →
  assemble env ckpt c cols.1 cols.2 input_fields g src start_datetime
  = (tr_a, inr t) →
  validate ckpt t = (tr_v, inr names) →
  get_most_recent_datetime input_fields = (tr_d, inr most_recent) →
  precip_template_of ckpt (reference_fields_of most_recent input_fields)
  = inr precip_template →
  let acc0 := replicate (length (diagnostic_output_mask ckpt))
                (replicate g f32_zero) in
  let init := callback_init ckpt input_fields precip_template acc0 in
  prepare env ckpt input_fields start_datetime
  = (tr_c ++ tr_m ++ tr_a ++ tr_v ++ tr_d ++ init.1,
     match init.2 with
     | inl e => inl e
     | inr _ =>
         inr ({| sc_ckpt := ckpt;
                 sc_input_fields := input_fields;
                 sc_start_datetime := start_datetime;
                 sc_gridpoints := g;
                 sc_prog_cols := cols.1;
                 sc_reference_fields :=
                   reference_fields_of most_recent input_fields;
                 sc_most_recent_datetime := most_recent;
                 sc_precip_template := precip_template |}, (t, acc0))
     end).
Proof.
  intros Hg Hrows Hsrc Hc Hm Ha Hv Hd Htpl acc0 init. unfold prepare.
  rewrite Hg. unfold lift at 1. rewrite bind_nil_inr.
  rewrite Hrows. unfold lift at 1. rewrite bind_nil_inr.
  rewrite Hsrc. unfold lift at 1. rewrite bind_nil_inr.
  eapply bind_ok_eq; [exact Hc|]. eapply bind_ok_eq; [exact Hm|].
  eapply bind_ok_eq; [exact Ha|]. eapply bind_ok_eq; [exact Hv|].
  eapply bind_ok_eq; [exact Hd|].
  rewrite Htpl. unfold lift at 1. rewrite bind_nil_inr.
  subst init acc0. unfold bind.
  destruct (callback_init _ _ _ _) as [tri [e|[]]]; simpl; [done|].
  by rewrite app_nil_r.
Qed.

(** C8.  Either the run raises before the output callback is called at
    all, or its calls of the callback start with exactly one
    initialization call, made before every emission of a step: with
    diagnostic parameters it carries the input fields, the list of the
    diagnostic parameters, the template field [precip_template] and the
    shape [(gridpoints,)] of a diagnostic output; without them it carries
    the input fields alone.  The call is made as soon as the stages before
    it return (the arrays of the fields, the classification, the assembly,
    the check for missing values, the templates), unless there are
    diagnostic parameters and no diagnostic output: then
    [accumulated_output[0]] raises [IndexError] and the callback is never
    called. *)
Theorem initial_callback_once (self : Runner) (input_fields : list Field)
    (lead_time : Z) (start_datetime : datetime) :
  let out := run env self input_fields lead_time start_datetime in
  (((∃ e, out.2 = inl e) ∧ quiet out.1)
   ∨ (∃ ckpt gridpoints most_recent precip_template pre post,
        checkpoint self = Some ckpt
        ∧ gridpoints_of input_fields = inr gridpoints
        ∧ (get_most_recent_datetime input_fields).2 = inr most_recent
        ∧ precip_template_of ckpt
            (reference_fields_of most_recent input_fields)
          = inr precip_template
        ∧ out.1 = pre ++ CallbackInit input_fields
                    (match diagnostic_params ckpt with
                     | [] => None
                     | _ :: _ =>
                         Some (diagnostic_params ckpt, precip_template,
                               gridpoints)
                     end) :: post
        ∧ quiet pre
        ∧ Forall (λ e, is_init e = false) post))
  ∧ (∀ ckpt g rows src c cols t names most_recent precip_template
       (tr_c tr_m tr_a tr_v tr_d : list Event),
       checkpoint self = Some ckpt →
       gridpoints_of input_fields = inr g →
       fields_to_numpy g input_fields = inr rows →
       reshape_lags (length (lagged ckpt)) g rows = inr src →
       classify ckpt = (tr_c, inr c) →
       retrieved_fields_masks c = (tr_m, inr cols) →
       assemble env ckpt c cols.1 cols.2 input_fields g src start_datetime
       = (tr_a, inr t) →
       validate ckpt t = (tr_v, inr names) →
       get_most_recent_datetime input_fields = (tr_d, inr most_recent) →
       precip_template_of ckpt (reference_fields_of most_recent input_fields)
       = inr precip_template →
       let pre := tr_c ++ tr_m ++ tr_a ++ tr_v ++ tr_d in
       quiet pre
       ∧ (diagnostic_params ckpt = [] ∨ diagnostic_output_mask ckpt ≠ [] →
          ∃ post,
            out.1 = pre ++ CallbackInit input_fields
                      (init_payload ckpt precip_template g) :: post
            ∧ Forall (λ e, is_init e = false) post)
       ∧ (diagnostic_params ckpt ≠ [] → diagnostic_output_mask ckpt = [] →
          out = (pre, inl IndexError))).
Proof.
  intros out. split.
  { unfold out, run, get_checkpoint.
    destruct (checkpoint self) as [ckpt|] eqn:Hck.
    2:{ left. simpl. split; [by eexists|constructor]. }
    simpl.
    destruct (prepare_until_init ckpt input_fields start_datetime)
      as [(e & He & Hq)|(pre & init & [sc st] & Hp & Hq & -> & Hsc)].
    - left. destruct (prepare _ _ _ _) as [tr r]. simpl in *. subst r.
      simpl. split; [by eexists|done].
    - right. rewrite Hp. simpl.
      unfold prepared_scope in Hsc. simpl in Hsc.
      destruct Hsc as (<- & _ & _ & Hg & Hmr & Hrf & Htpl).
      exists (sc_ckpt sc), (sc_gridpoints sc), (sc_most_recent_datetime sc),
        (sc_precip_template sc), pre, (rollout env sc lead_time st).1.
      split_and!; [done..|by rewrite <-Hrf| |done|apply rollout_no_init].
      unfold bind. simpl. destruct (rollout _ _ _ _) as [trr [e|a]]; simpl.
      + rewrite <-(assoc_L (++)). reflexivity.
      + rewrite app_nil_r, <-(assoc_L (++)). reflexivity. }
  intros ckpt g rows src c cols t names most_recent precip_template
    tr_c tr_m tr_a tr_v tr_d Hck Hg Hrows Hsrc Hc Hm Ha Hv Hd Htpl pre.
  pose proof (prepare_of_stages _ _ _ _ _ _ _ _ _ _ _ _ _ _ _ _ _
                Hg Hrows Hsrc Hc Hm Ha Hv Hd Htpl) as Hp.
  cbv zeta in Hp.
  assert (Hq : quiet pre).
  { unfold pre. repeat apply Forall_app_2.
    - pose proof (classify_quiet ckpt) as Hx. by rewrite Hc in Hx.
    - pose proof (retrieved_fields_masks_quiet c) as Hx. by rewrite Hm in Hx.
    - pose proof (assemble_quiet ckpt c cols.1 cols.2 input_fields g src
                    start_datetime) as Hx. by rewrite Ha in Hx.
    - pose proof (validate_quiet ckpt t) as Hx. by rewrite Hv in Hx.
    - pose proof (get_most_recent_datetime_quiet input_fields) as Hx.
      by rewrite Hd in Hx. }
  assert (Hrun : out = bind (prepare env ckpt input_fields start_datetime)
                         (λ start,
                            let* _ := rollout env start.1 lead_time start.2 in
                            ret tt)).
  { unfold out, run, get_checkpoint. rewrite Hck. unfold lift.
    by rewrite bind_nil_inr. }
  split_and!.
  - done.
  - intros Hdiag.
    assert (Hinit : callback_init ckpt input_fields precip_template
                      (replicate (length (diagnostic_output_mask ckpt))
                         (replicate g f32_zero))
                    = ([CallbackInit input_fields
                          (init_payload ckpt precip_template g)], inr tt)).
    { unfold callback_init, init_payload.
      destruct (diagnostic_params ckpt) as [|p ps] eqn:Hdp; [done|].
      destruct Hdiag as [|Hdiag]; [done|].
      destruct (diagnostic_output_mask ckpt) as [|d ds]; [done|]. simpl.
      by rewrite length_replicate. }
    rewrite Hinit in Hp. cbn [fst snd] in Hp.
    rewrite Hrun, (bind_ok _ _ _ _ Hp). cbn [fst].
    eexists. split.
    + rewrite <-!(assoc_L (++)). unfold pre. rewrite <-!(assoc_L (++)).
      simpl. reflexivity.
    + apply bind_Forall; [apply rollout_no_init|]. intros ?. constructor.
  - intros Hdp Hmask.
    assert (Hinit : callback_init ckpt input_fields precip_template
                      (replicate (length (diagnostic_output_mask ckpt))
                         (replicate g f32_zero))
                    = ([], inl IndexError)).
    { unfold callback_init. rewrite Hmask.
      by destruct (diagnostic_params ckpt). }
    rewrite Hinit in Hp. cbn [fst snd] in Hp.
    rewrite Hrun, Hp. unfold bind, pre. by rewrite !app_nil_r.
Qed.

End InitialCall.

(** ** Failing computations *)

Lemma fails_bind_l {E A B} (m : Eff E A) (k : A → Eff E B) :
  fails m → fails (bind m k).
Proof.
  intros [e He]. exists e. unfold bind. destruct m as [tr [e'|a]]; simpl in *;
    by simplify_eq.
Qed.

Lemma fails_bind_r {E A B} (m : Eff E A) (k : A → Eff E B) :
  (∀ a, m.2 = inr a → fails (k a)) → fails (bind m k).
Proof.
  intros Hk. unfold bind. destruct m as [tr [e'|a]]; simpl in *.
  - by exists e'.
  - destruct (Hk a eq_refl) as [e He]. by exists e.
Qed.

Lemma foldM_fails {E A S} (f : S → A → Eff E S) l a :
  a ∈ l → (∀ s, fails (f s a)) → ∀ s, fails (foldM f s l).
Proof.
  intros Hin Hf. induction l as [|b l IH]; intros s; simpl.
  - by apply not_elem_of_nil in Hin.
  - apply elem_of_cons in Hin as [<-|Hin].
    + apply fails_bind_l, Hf.
    + apply fails_bind_r. intros s' _. by apply IH.
Qed.

(** ** The runner built from a path *)

Section Constructor.

Context {V : Type} `{Float32 V}.
Variable env : Collaborators V.

(** C9.  A runner built from a path has no attribute [checkpoint]: the
    constructor builds the checkpoint and drops it, only the branch for a
    [Checkpoint] instance stores it.  Every call of [run] on such a runner
    raises [AttributeError] at once, before any event. *)
Theorem run_of_path_runner_fails
    (Checkpoint_new : Runner → string → PyResult Checkpoint)
    (path : string) (self : Runner) (input_fields : list (Field V))
    (lead_time : Z) (start_datetime : datetime) :
  Runner_init Checkpoint_new (PathArg path) = inr self →
  (∃ ckpt, Checkpoint_new {| checkpoint := None |} path = inr ckpt)
  ∧ checkpoint self = None
  ∧ run env self input_fields lead_time start_datetime
    = ([], inl AttributeError)
  ∧ (∀ ckpt, Runner_init Checkpoint_new (CheckpointArg ckpt)
             = inr {| checkpoint := Some ckpt |}).
Proof.
  unfold Runner_init.
  destruct (Checkpoint_new _ path) as [e|ckpt] eqn:Hnew; [done|].
  intros [= <-]. split_and!; [by eexists|done..].
Qed.

End Constructor.

Lemma run_of_path_runner_fails_witness :
  run Example.env {| checkpoint := None |} Example.input_fields 12 0
  = ([], inl AttributeError).
Proof.
  refine (proj1 (proj2 (proj2 (run_of_path_runner_fails Example.env
    (λ _ _, inr Example.ckpt) "model.ckpt" _ Example.input_fields 12 0 _)))).
  reflexivity.
Defined.

(** ** The checks on dates *)

Lemma foldM_assert {E A} (p : A → bool) (l : list A) :
  foldM (E:=E) (λ _ a, py_assert (p a)) () l
  = if forallb p l then ([], inr ()) else ([], inl AssertionError).
Proof.
  induction l as [|a l IH]; simpl; [done|].
  destruct (p a); simpl; [|done]. rewrite IH. by destruct (forallb p l).
Qed.

Lemma forallb_fmap {A B} (p : B → bool) (f : A → B) (l : list A) :
  forallb p (f <$> l) = forallb (λ a, p (f a)) l.
Proof. induction l as [|a l IH]; csimpl; [done|]. by rewrite IH. Qed.

Section Dates.

Context {V : Type} `{Float32 V}.
Variable env : Collaborators V.

Local Abbreviation Event := (Event V).
Local Abbreviation Scope := (Scope V).
Local Abbreviation Field := (Field V).

Lemma get_most_recent_datetime_eq (input_fields : list Field) :
  get_most_recent_datetime (V:=V) input_fields
  = match last input_fields with
    | None => ([], inl IndexError)
    | Some latest =>
        if forallb (λ f, bool_decide
                     (valid_datetime f ≤ valid_datetime latest)) input_fields
        then ([], inr (valid_datetime latest))
        else ([], inl AssertionError)
    end.
Proof.
  unfold get_most_recent_datetime, py_last. rewrite fmap_last.
  destruct (last input_fields) as [latest|]; simpl; [|done].
  rewrite foldM_assert. unfold bind. simpl.
  rewrite forallb_fmap. by destruct (forallb _ _).
Qed.

Lemma emit_prognostic_mismatch (refs : list Field) (mr : datetime)
    (pf : list (Row V)) (step : Z) (n m : nat) (template : Field) :
  refs !! m = Some template → valid_datetime template ≠ mr →
  emit_prognostic refs mr pf step (n, m) = ([], inl AssertionError).
Proof.
  intros Hm Hne. unfold emit_prognostic, py_index. simpl. rewrite Hm.
  unfold bind. simpl. by rewrite bool_decide_eq_false_2.
Qed.

Lemma accumulate_mismatch (template : Field) (mr : datetime)
    (df : list (Row V)) (step : Z) (acc : list (Row V)) (np : nat * string) :
  valid_datetime template ≠ mr →
  fails (accumulate template mr df step acc np)
  ∧ (accumulate template mr df step acc np).1 = [].
Proof.
  intros Hne. unfold accumulate, fails, py_index, bind, lift. simpl.
  destruct (acc !! np.1) as [row|]; simpl; [|by eauto].
  destruct (df !! np.1) as [v|]; simpl; [|by eauto].
  destruct (iadd_maximum0 row v) as [e|row']; simpl; [by eauto|].
  rewrite bool_decide_eq_false_2 by done. simpl. by eauto.
Qed.

(** C7.  (1) When some retrieved field has a [valid_datetime] later than
    that of the last field, [get_most_recent_datetime] raises
    [AssertionError] and the run fails.  (2) In a step of the rollout, a
    template [reference_fields[m]] of a prognostic emission whose
    [valid_datetime] is not [most_recent_datetime] makes the emission raise
    [AssertionError], and the step fails.  (3) Likewise when the template
    [precip_template] of the accumulations has another date and there are
    diagnostics to accumulate: the accumulation raises before its emission
    and the step fails. *)
Theorem temporal_ordering_checked :
  (∀ (self : Runner) (input_fields : list Field) (lead_time : Z)
     (start_datetime : datetime) (latest f : Field),
     last input_fields = Some latest → f ∈ input_fields →
     valid_datetime latest < valid_datetime f →
     get_most_recent_datetime (V:=V) input_fields = ([], inl AssertionError)
     ∧ fails (run env self input_fields lead_time start_datetime))
  ∧ (∀ (sc : Scope) (st : Tensor V * list (Row V)) (i : Z) (m : nat)
       (param : string) (template : Field),
       (m, param) ∈ zip (sc_prog_cols sc) (prognostic_params (sc_ckpt sc)) →
       sc_reference_fields sc !! m = Some template →
       valid_datetime template ≠ sc_most_recent_datetime sc →
       (∀ pf step n,
          emit_prognostic (sc_reference_fields sc)
            (sc_most_recent_datetime sc) pf step (n, m)
          = ([], inl AssertionError))
       ∧ fails (rollout_step env sc st i))
  ∧ (∀ (sc : Scope) (st : Tensor V * list (Row V)) (i : Z),
       diagnostic_output_mask (sc_ckpt sc) ≠ [] →
       diagnostic_params (sc_ckpt sc) ≠ [] →
       valid_datetime (sc_precip_template sc) ≠ sc_most_recent_datetime sc →
       (∀ df step acc np,
          fails (accumulate (sc_precip_template sc)
                   (sc_most_recent_datetime sc) df step acc np)
          ∧ (accumulate (sc_precip_template sc)
               (sc_most_recent_datetime sc) df step acc np).1 = [])
       ∧ fails (rollout_step env sc st i)).
Proof.
  split_and!.
  - intros self input_fields lead_time start_datetime latest f Hlast Hin Hlt.
    assert (Hg : get_most_recent_datetime (V:=V) input_fields
                 = ([], inl AssertionError)).
    { rewrite get_most_recent_datetime_eq, Hlast.
      destruct (forallb _ _) eqn:Hall; [|done].
      rewrite forallb_forall in Hall. apply list_elem_of_In, Hall in Hin.
      apply bool_decide_eq_true in Hin. lia. }
    split; [done|]. unfold run. apply fails_bind_r. intros ckpt _.
    apply fails_bind_l. unfold prepare.
    do 7 (apply fails_bind_r; intros ? _).
    apply fails_bind_l. rewrite Hg. by eexists.
  - intros sc st i m param template Hin Hm Hne.
    split; [intros; by eapply emit_prognostic_mismatch|].
    unfold rollout_step.
    do 3 (apply fails_bind_r; intros ? _).
    apply fails_bind_l.
    apply list_elem_of_lookup in Hin as [n Hn].
    eapply (foldM_fails _ _ (n, (m, param))).
    + apply list_elem_of_lookup. exists n. by apply enumerate_lookup.
    + intros []. simpl. erewrite emit_prognostic_mismatch by done. by eexists.
  - intros sc st i Hmask Hparams Hne.
    split; [intros; by apply accumulate_mismatch|].
    unfold rollout_step.
    do 4 (apply fails_bind_r; intros ? _).
    apply fails_bind_l. rewrite bool_decide_eq_false_2 by done. simpl.
    destruct (diagnostic_params (sc_ckpt sc)) as [|p ps] eqn:Hp; [done|].
    eapply (foldM_fails _ _ (0%nat, p)); [by left|].
    intros acc. by apply accumulate_mismatch.
Qed.

End Dates.

(** ** Index arrays *)

Lemma np_take_inr {A} (arr : list A) (mask : list nat) l :
  np_take arr mask = inr l ↔ Forall2 (λ i a, arr !! i = Some a) mask l.
Proof.
  revert l. induction mask as [|i mask IH]; intros l; simpl.
  - split; [intros [= <-]; constructor|by intros ->%Forall2_nil_inv_l].
  - destruct (arr !! i) as [a|] eqn:Hi.
    + destruct (np_take arr mask) as [e|l'] eqn:Hl.
      * split; [done|]. intros (a' & l' & _ & Hl' & ->)%Forall2_cons_inv_l.
        by apply IH in Hl'.
      * split.
        -- intros [= <-]. constructor; [done|]. by apply IH.
        -- intros (a' & l'' & Ha' & Hl' & ->)%Forall2_cons_inv_l.
           apply IH in Hl'. by simplify_eq.
    + split; [done|]. intros (a' & l' & ? & _ & ->)%Forall2_cons_inv_l.
      by simplify_eq.
Qed.

Lemma np_take_inl {A} (arr : list A) (mask : list nat) e :
  np_take arr mask = inl e → e = IndexError ∧ ¬ Forall (λ i, i < length arr)%nat mask.
Proof.
  revert e. induction mask as [|i mask IH]; intros e; simpl; [done|].
  destruct (arr !! i) as [a|] eqn:Hi.
  - destruct (np_take arr mask) as [e'|l'] eqn:Hl; [|done].
    intros [= <-]. split; [done|]. intros [_ Hall]%Forall_cons.
    by destruct (IH _ eq_refl).
  - intros [= <-]. split; [done|]. intros [Hlt _]%Forall_cons.
    apply lookup_ge_None in Hi. lia.
Qed.

Lemma np_take_in_range {A} (arr : list A) (mask : list nat) :
  Forall (λ i, i < length arr)%nat mask →
  np_take arr mask = inr (omap (λ i, arr !! i) mask).
Proof.
  induction 1 as [|i mask Hi _ IH]; simpl; [done|].
  apply lookup_lt_is_Some in Hi as [a Ha]. by rewrite Ha, IH.
Qed.

Lemma np_put_length {A} (arr : list A) mask v :
  length (np_put arr mask v) = length arr.
Proof.
  unfold np_put. revert arr. induction mask as [|i mask IH]; intros arr;
    simpl; [done|]. by rewrite IH, length_insert.
Qed.

Lemma np_put_cons {A} (arr : list A) j mask v :
  np_put arr (j :: mask) v = np_put (<[j:=v]> arr) mask v.
Proof. done. Qed.

Lemma np_put_lookup {A} (arr : list A) mask v i :
  np_put arr mask v !! i
  = if decide (i ∈ mask) then (λ _, v) <$> arr !! i else arr !! i.
Proof.
  revert arr. induction mask as [|j mask IH]; intros arr.
  - destruct (decide _) as [Hin|]; [by apply not_elem_of_nil in Hin|done].
  - rewrite np_put_cons, IH. destruct (decide (i = j)) as [->|Hne].
    + rewrite (decide_True (P := j ∈ j :: mask)) by left.
      destruct (decide (j < length arr)%nat) as [Hlt|Hge].
      * rewrite list_lookup_insert_eq by done.
        apply lookup_lt_is_Some in Hlt as [a ->]. by destruct (decide _).
      * rewrite list_insert_ge by lia.
        rewrite (lookup_ge_None_2 arr j) by lia. by destruct (decide _).
    + rewrite list_lookup_insert_ne by done.
      destruct (decide (i ∈ mask)) as [Hin|Hnin].
      * by rewrite decide_True by (by right).
      * rewrite decide_False; [done|]. by intros [?|?]%elem_of_cons.
Qed.

(** ** The classification *)

Section Classify.

Context {V : Type} `{Float32 V}.

Local Abbreviation Event := (Event V).

Lemma existsb_id_omap (chk : list bool) (mask : list nat) :
  existsb id (omap (λ i, chk !! i) mask) = false
  ↔ Forall (λ i, chk !! i ≠ Some true) mask.
Proof.
  induction mask as [|i mask IH]; csimpl.
  - split; [constructor|done].
  - rewrite Forall_cons, <-IH.
    destruct (chk !! i) as [[]|]; simpl; intuition congruence.
Qed.

Lemma mark_eq (mask : list nat) (k : Kind) (b : bool) (c : Classification) :
  mark (V:=V) mask k b c
  = if decide (Forall (λ i, i < length (check c))%nat mask) then
      if decide (Forall (λ i, check c !! i ≠ Some true) mask) then
        ([], inr {| check := np_put (check c) mask true;
                    kinds := np_put (kinds c) mask k;
                    inputs := if b then np_put (inputs c) mask true
                              else inputs c |})
      else ([], inl AssertionError)
    else ([], inl IndexError).
Proof.
  unfold mark. destruct (decide _) as [Hr|Hr].
  - rewrite (np_take_in_range _ _ Hr). unfold bind, lift. simpl.
    destruct (decide _) as [Hf|Hf].
    + apply existsb_id_omap in Hf. by rewrite Hf.
    + destruct (existsb id _) eqn:He; [done|].
      by apply existsb_id_omap in He.
  - destruct (np_take (check c) mask) as [e|l] eqn:Ht.
    + by apply np_take_inl in Ht as [-> _].
    + apply np_take_inr, Forall2_Forall_l with (Q := λ i, (i < length (check c))%nat) in Ht;
        [done|].
      apply Forall_true. intros i a. apply lookup_lt_Some.
Qed.

Lemma marked_lookup (chk : list bool) (mask : list nat) (i : nat) :
  np_put chk mask true !! i = Some true
  ↔ chk !! i = Some true ∨ (i < length chk)%nat ∧ i ∈ mask.
Proof.
  rewrite np_put_lookup. destruct (decide (i ∈ mask)) as [Hin|Hnin].
  - destruct (chk !! i) as [b|] eqn:Hi; simpl.
    + apply lookup_lt_Some in Hi. split; [|done]. intros _. right. done.
    + apply lookup_ge_None in Hi. split; [done|]. intros [?|[? _]]; [done|lia].
  - split; [by left|]. by intros [?|[_ ?]].
Qed.

Lemma forallb_id_false (l : list bool) :
  forallb id l = false → ∃ i, l !! i = Some false.
Proof.
  induction l as [|[] l IH]; simpl; [done| |by exists 0%nat].
  intros [i Hi]%IH. by exists (S i).
Qed.

Lemma replicate_false_lookup (n i : nat) :
  replicate n false !! i ≠ Some true.
Proof. by intros [? _]%lookup_replicate. Qed.

Lemma classify_outcome (ckpt : Checkpoint) :
  let n := num_input_features ckpt in
  let mC := computed_constants_mask ckpt in
  let mK := constants_from_input_mask ckpt in
  let mF := computed_forcings_mask ckpt in
  let mP := prognostic_input_mask ckpt in
  let in_range := Forall (λ i, i < n)%nat in
  (classify (V:=V) ckpt = ([], inl IndexError)
   ∧ ¬ (in_range mC ∧ in_range mK ∧ in_range mF ∧ in_range mP))
  ∨ (classify (V:=V) ckpt = ([], inl AssertionError)
     ∧ ∃ i, (i ∈ mC ∧ i ∈ mK) ∨ ((i ∈ mC ∨ i ∈ mK) ∧ i ∈ mF)
            ∨ ((i ∈ mC ∨ i ∈ mK ∨ i ∈ mF) ∧ i ∈ mP))
  ∨ ((in_range mC ∧ in_range mK ∧ in_range mF ∧ in_range mP)
     ∧ (∀ i, ¬ (i ∈ mC ∧ i ∈ mK) ∧ ¬ ((i ∈ mC ∨ i ∈ mK) ∧ i ∈ mF)
             ∧ ¬ ((i ∈ mC ∨ i ∈ mK ∨ i ∈ mF) ∧ i ∈ mP))
     ∧ ((classify (V:=V) ckpt = ([], inr (classified ckpt))
         ∧ ∀ i, (i < n)%nat → i ∈ mC ∨ i ∈ mK ∨ i ∈ mF ∨ i ∈ mP)
        ∨ (classify (V:=V) ckpt
             = (report_missing ckpt (check (classified ckpt)),
                inl (RuntimeError "Missing fields"))
           ∧ ∃ i, (i < n)%nat ∧ ¬ (i ∈ mC ∨ i ∈ mK ∨ i ∈ mF ∨ i ∈ mP)))).
Proof.
  intros n mC mK mF mP in_range. unfold classify.
  fold n mC mK mF mP.
  (* computed constants *)
  rewrite mark_eq. simpl. rewrite length_replicate.
  destruct (decide (Forall _ mC)) as [HrC|HrC];
    [|left; rewrite bind_nil_inl; split; [done|tauto]].
  rewrite decide_True
    by (apply Forall_true; intros i; apply replicate_false_lookup).
  rewrite bind_nil_inr.
  (* constants from input *)
  rewrite mark_eq. simpl. rewrite np_put_length, length_replicate.
  destruct (decide (Forall _ mK)) as [HrK|HrK];
    [|left; rewrite bind_nil_inl; split; [done|tauto]].
  destruct (decide (Forall _ mK)) as [HdK|HdK].
  2:{ right; left. rewrite bind_nil_inl. split; [done|].
      apply not_Forall_Exists, Exists_exists in HdK as (i & Hi & Hm); [|apply _].
      apply dec_stable in Hm. apply marked_lookup in Hm as [Hm|[_ Hm]];
        [by apply replicate_false_lookup in Hm|]. exists i. tauto. }
  rewrite bind_nil_inr.
  (* computed forcings *)
  rewrite mark_eq. simpl. rewrite !np_put_length, length_replicate.
  destruct (decide (Forall _ mF)) as [HrF|HrF];
    [|left; rewrite bind_nil_inl; split; [done|tauto]].
  destruct (decide (Forall _ mF)) as [HdF|HdF].
  2:{ right; left. rewrite bind_nil_inl. split; [done|].
      apply not_Forall_Exists, Exists_exists in HdF as (i & Hi & Hm); [|apply _].
      apply dec_stable in Hm. exists i.
      apply marked_lookup in Hm as [Hm|[_ Hm]]; [|tauto].
      apply marked_lookup in Hm as [Hm|[_ Hm]]; [|tauto].
      by apply replicate_false_lookup in Hm. }
  rewrite bind_nil_inr.
  (* prognostic inputs *)
  rewrite mark_eq. simpl. rewrite !np_put_length, length_replicate.
  destruct (decide (Forall _ mP)) as [HrP|HrP];
    [|left; rewrite bind_nil_inl; split; [done|tauto]].
  destruct (decide (Forall _ mP)) as [HdP|HdP].
  2:{ right; left. rewrite bind_nil_inl. split; [done|].
      apply not_Forall_Exists, Exists_exists in HdP as (i & Hi & Hm); [|apply _].
      apply dec_stable in Hm. exists i.
      apply marked_lookup in Hm as [Hm|[_ Hm]]; [|tauto].
      apply marked_lookup in Hm as [Hm|[_ Hm]]; [|tauto].
      apply marked_lookup in Hm as [Hm|[_ Hm]]; [|tauto].
      by apply replicate_false_lookup in Hm. }
  rewrite bind_nil_inr.
  right; right. split; [done|]. split.
  { intros i. split_and!.
    - intros [Hi1 Hi2]. rewrite Forall_forall in HdK. apply (HdK i Hi2).
      apply marked_lookup. right. rewrite length_replicate. split; [|done].
      rewrite Forall_forall in HrC. by apply HrC.
    - intros [Hi1 Hi2]. rewrite Forall_forall in HdF. apply (HdF i Hi2).
      rewrite Forall_forall in HrC, HrK.
      rewrite !marked_lookup, !np_put_length, length_replicate.
      destruct Hi1; [left; right|right]; auto.
    - intros [Hi1 Hi2]. rewrite Forall_forall in HdP. apply (HdP i Hi2).
      rewrite Forall_forall in HrC, HrK, HrF.
      rewrite !marked_lookup, !np_put_length, length_replicate.
      destruct Hi1 as [?|[?|?]]; [left; left; right|left; right|right]; auto. }
  match goal with
  | |- context [forallb id ?c] => change c with (check (classified ckpt))
  end.
  assert (Hlook : ∀ i, check (classified ckpt) !! i = Some true
            ↔ (i < n)%nat ∧ (i ∈ mC ∨ i ∈ mK ∨ i ∈ mF ∨ i ∈ mP)).
  { intros i. unfold classified. simpl. fold n mC mK mF mP.
    rewrite !marked_lookup, !np_put_length, length_replicate.
    rewrite Forall_forall in HrC. specialize (HrC i).
    pose proof (replicate_false_lookup n i). tauto. }
  destruct (forallb id (check (classified ckpt))) eqn:Hall.
  - left. split; [done|]. intros i Hi.
    rewrite forallb_forall in Hall.
    assert (Hl : check (classified ckpt) !! i = Some true).
    { destruct (lookup_lt_is_Some_2 (check (classified ckpt)) i) as [b Hb].
      { unfold classified. simpl. by rewrite !np_put_length, length_replicate. }
      rewrite Hb. f_equal. apply (Hall b). apply list_elem_of_In.
      by eapply list_elem_of_lookup_2. }
    by apply Hlook in Hl as [_ Hl].
  - right. split; [done|].
    apply forallb_id_false in Hall as [i Hi]. exists i. split.
    + apply lookup_lt_Some in Hi. unfold classified in Hi. simpl in Hi.
      by rewrite !np_put_length, length_replicate in Hi.
    + intros Hcov. assert (check (classified ckpt) !! i = Some true) as Ht.
      { apply Hlook. split; [|done].
        rewrite Forall_forall in HrC, HrK, HrF, HrP.
        destruct Hcov as [?|[?|[?|?]]]; auto. }
      congruence.
Qed.

Lemma kinds_of_eq (ckpt : Checkpoint) (i : nat) :
  kinds_of ckpt i
  = (if decide (i ∈ computed_constants_mask ckpt) then [ComputedConstant]
     else [])
    ++ (if decide (i ∈ constants_from_input_mask ckpt)
        then [ConstantFromInput] else [])
    ++ (if decide (i ∈ computed_forcings_mask ckpt) then [ComputedForcing]
        else [])
    ++ (if decide (i ∈ prognostic_input_mask ckpt) then [PrognosticInput]
        else []).
Proof.
  unfold kinds_of, kind_masks. rewrite !filter_cons, filter_nil. simpl.
  by repeat destruct (decide _).
Qed.

Lemma classified_check_lookup (ckpt : Checkpoint) (i : nat) :
  check (classified ckpt) !! i
  = if decide (i < num_input_features ckpt)%nat
    then Some (bool_decide (kinds_of ckpt i ≠ []))
    else None.
Proof.
  destruct (decide _) as [Hi|Hi].
  2:{ apply lookup_ge_None. unfold classified. simpl.
      rewrite !np_put_length, length_replicate. lia. }
  unfold classified. simpl. rewrite !np_put_lookup, lookup_replicate_2 by done.
  rewrite kinds_of_eq. by repeat destruct (decide _).
Qed.

Lemma report_missing_classified (ckpt : Checkpoint) :
  report_missing ckpt (check (classified ckpt)) = missing_report (V:=V) ckpt.
Proof.
  assert (Hchk : check (classified ckpt)
            = (λ i, bool_decide (kinds_of ckpt i ≠ []))
              <$> seq 0 (num_input_features ckpt)).
  { apply list_eq. intros i. rewrite classified_check_lookup, list_lookup_fmap.
    destruct (decide _) as [Hi|Hi].
    - by rewrite lookup_seq_lt.
    - by rewrite lookup_seq_ge by lia. }
  unfold report_missing, missing_report, enumerate. rewrite Hchk.
  rewrite length_fmap, length_seq.
  generalize (num_input_features ckpt) as n. generalize 0%nat as a.
  intros a n. revert a. induction n as [|n IH]; intros a; [done|].
  csimpl. rewrite IH, filter_cons. simpl.
  destruct (decide (kinds_of ckpt a = [])) as [He|Hne].
  - by rewrite bool_decide_eq_false_2 by (by intros ?).
  - by rewrite bool_decide_eq_true_2.
Qed.

Lemma kinds_of_nil (ckpt : Checkpoint) (i : nat) :
  kinds_of ckpt i = []
  ↔ ¬ (i ∈ computed_constants_mask ckpt ∨ i ∈ constants_from_input_mask ckpt
       ∨ i ∈ computed_forcings_mask ckpt ∨ i ∈ prognostic_input_mask ckpt).
Proof. rewrite kinds_of_eq. repeat destruct (decide _); simpl; split; (done || tauto). Qed.

Lemma kinds_of_overlap (ckpt : Checkpoint) (i : nat) :
  (2 ≤ length (kinds_of ckpt i))%nat
  ↔ (i ∈ computed_constants_mask ckpt ∧ i ∈ constants_from_input_mask ckpt)
    ∨ ((i ∈ computed_constants_mask ckpt
        ∨ i ∈ constants_from_input_mask ckpt)
       ∧ i ∈ computed_forcings_mask ckpt)
    ∨ ((i ∈ computed_constants_mask ckpt
        ∨ i ∈ constants_from_input_mask ckpt
        ∨ i ∈ computed_forcings_mask ckpt)
       ∧ i ∈ prognostic_input_mask ckpt).
Proof.
  rewrite kinds_of_eq.
  repeat destruct (decide _); simpl; split; (lia || tauto).
Qed.

Lemma kinds_of_length_cases (ckpt : Checkpoint) (i : nat) :
  kinds_of ckpt i = [] ∨ length (kinds_of ckpt i) = 1%nat
  ∨ (2 ≤ length (kinds_of ckpt i))%nat.
Proof.
  destruct (kinds_of ckpt i) as [|k [|k' l]]; simpl; [by left|right; by left|].
  right; right. lia.
Qed.

(** A classification that succeeds writes nothing, returns the arrays that
    the masks determine, and the masks are a partition. *)
Lemma classify_inr (ckpt : Checkpoint) (tr : list Event) (c : Classification) :
  classify (V:=V) ckpt = (tr, inr c) →
  tr = [] ∧ c = classified ckpt ∧ partition ckpt.
Proof.
  intros Hc. set (n := num_input_features ckpt).
  pose proof (classify_outcome ckpt) as Hout. simpl in Hout. fold n in Hout.
  rewrite report_missing_classified in Hout.
  destruct Hout as [[Heq Hr]|[[Heq [j Hov%kinds_of_overlap]]|
    [Hr [Hdis [[Heq Hcov]|[Heq [j [Hj Hunc%kinds_of_nil]]]]]]]];
    rewrite Heq in Hc; try done.
  injection Hc as <- <-. split_and!; try done.
  intros i. fold n. destruct (decide (i < n)%nat) as [Hi|Hi].
  - destruct (kinds_of_length_cases ckpt i) as [He|[He|He]]; [|done|].
    + apply kinds_of_nil in He. destruct He. by apply Hcov.
    + apply kinds_of_overlap in He. specialize (Hdis i). tauto.
  - destruct (kinds_of ckpt i) eqn:He; [done|].
    assert (Hne : kinds_of ckpt i ≠ []) by (by rewrite He).
    rewrite kinds_of_nil in Hne. destruct Hr as (HrC & HrK & HrF & HrP).
    rewrite Forall_forall in HrC, HrK, HrF, HrP.
    apply dec_stable in Hne.
    destruct Hne as [?|[?|[?|?]]]; exfalso; apply Hi; auto.
Qed.

(** C3.  The classification succeeds exactly when every index below [N]
    is in exactly one of the four masks and no mask holds an index from
    [N] on.  An index in two masks makes it fail, before any report.  An
    index below [N] in no mask makes it fail.  And whenever it fails with
    the error ["Missing fields"], the report written before that error
    lists every index that no mask holds, in ascending order, each with
    its data index and its name. *)
Theorem classification_checks_partition (ckpt : Checkpoint) :
  let n := num_input_features ckpt in
  (∀ tr c, classify (V:=V) ckpt = (tr, inr c) →
     tr = [] ∧ c = classified ckpt ∧ partition ckpt)
  ∧ (partition ckpt → classify (V:=V) ckpt = ([], inr (classified ckpt)))
  ∧ (∀ i, (2 ≤ length (kinds_of ckpt i))%nat →
       fails (classify (V:=V) ckpt) ∧ (classify (V:=V) ckpt).1 = [])
  ∧ (∀ i, (i < n)%nat → kinds_of ckpt i = [] → fails (classify (V:=V) ckpt))
  ∧ (∀ tr msg, classify (V:=V) ckpt = (tr, inl (RuntimeError msg)) →
       msg = "Missing fields" ∧ tr = missing_report ckpt
       ∧ ∀ i, (i < n)%nat → kinds_of ckpt i = [] →
           LogMissing i (model_to_data ckpt i)
             (index_to_variable ckpt (model_to_data ckpt i)) ∈ tr)
  ∧ ((∀ i, (length (kinds_of ckpt i) ≤ 1)%nat
           ∧ (kinds_of ckpt i ≠ [] → (i < n)%nat)) →
     (∃ i, (i < n)%nat ∧ kinds_of ckpt i = []) →
     classify (V:=V) ckpt
     = (missing_report ckpt, inl (RuntimeError "Missing fields"))).
Proof.
  intros n.
  assert (Hmem : ∀ i : nat, (i < n)%nat →
            kinds_of ckpt i = [] →
            LogMissing (V:=V) i (model_to_data ckpt i)
              (index_to_variable ckpt (model_to_data ckpt i))
            ∈ missing_report (V:=V) ckpt).
  { intros i Hi He. unfold missing_report. apply list_elem_of_fmap.
    exists i. split; [done|].
    apply list_elem_of_filter. split; [done|]. apply elem_of_seq. lia. }
  assert (Hpart : partition ckpt →
            (∀ i, kinds_of ckpt i ≠ [] → (i < n)%nat)
            ∧ (∀ i, ¬ (2 ≤ length (kinds_of ckpt i))%nat)
            ∧ (∀ i, (i < n)%nat → kinds_of ckpt i ≠ [])).
  { intros Hp. split_and!; intros i; specialize (Hp i); fold n in Hp;
      destruct (decide (i < n)%nat); destruct (kinds_of ckpt i);
      simpl in *; (done || lia). }
  assert (Hrange : (∀ i, kinds_of ckpt i ≠ [] → (i < n)%nat) →
            Forall (λ i : nat, (i < n)%nat) (computed_constants_mask ckpt)
            ∧ Forall (λ i : nat, (i < n)%nat) (constants_from_input_mask ckpt)
            ∧ Forall (λ i : nat, (i < n)%nat) (computed_forcings_mask ckpt)
            ∧ Forall (λ i : nat, (i < n)%nat) (prognostic_input_mask ckpt)).
  { intros Hr. split_and!; apply Forall_forall; intros i Hi; apply Hr;
      rewrite kinds_of_nil; tauto. }
  pose proof (classify_outcome ckpt) as Hout. simpl in Hout. fold n in Hout.
  rewrite report_missing_classified in Hout.
  destruct Hout as [[Heq Hr]|[[Heq [j Hov%kinds_of_overlap]]|
    [Hr [Hdis [[Heq Hcov]|[Heq [j [Hj Hunc%kinds_of_nil]]]]]]]];
    rewrite Heq.
  - (* an index out of range *)
    split_and!; try done.
    + intros Hp%Hpart. destruct Hr. apply Hrange, Hp.
    + intros _ _. split; [by eexists|done].
    + intros _ _ _. by eexists.
    + intros Hs _. destruct Hr. apply Hrange, Hs.
  - (* an index in two masks *)
    split_and!; try done.
    + intros Hp%Hpart. by destruct (proj1 (proj2 Hp) j).
    + intros _ _. split; [by eexists|done].
    + intros _ _ _. by eexists.
    + intros Hs _. destruct (Hs j) as [Hs1 _]. lia.
  - (* a partition *)
    pose proof (classify_inr _ _ _ Heq) as (_ & _ & Hp).
    split_and!; try done.
    + intros tr c [= <- <-]. done.
    + intros i Hi%kinds_of_overlap. specialize (Hdis i). tauto.
    + intros i Hi He%kinds_of_nil. destruct He. by apply Hcov.
    + intros _ [i [Hi He%kinds_of_nil]]. destruct He. by apply Hcov.
  - (* an index in no mask *)
    split_and!; try done.
    + intros Hp%Hpart. by destruct (proj2 (proj2 Hp) j).
    + intros i Hi%kinds_of_overlap. specialize (Hdis i). tauto.
    + intros _ _ _. by eexists.
    + intros tr msg [= <- <-]. done.
Qed.

End Classify.

(** ** The check for missing values *)

Section Validate.

Context {V : Type} `{Float32 V}.

Local Abbreviation Event := (Event V).
Local Abbreviation Tensor := (Tensor V).

Lemma has_missing_true (t : Tensor) (i : nat) :
  has_missing t i = true
  ↔ ∃ slot row v, slot ∈ t ∧ slot !! i = Some row ∧ v ∈ row
                  ∧ f32_isnan v = true.
Proof.
  unfold has_missing. rewrite existsb_exists. split.
  - intros (slot & Hslot%list_elem_of_In & Hex). cbv beta in Hex.
    apply existsb_exists in Hex as (v & Hv%list_elem_of_In & Hnan).
    revert Hv.
    destruct (slot !! i) as [row|] eqn:Hrow; simpl; intros Hv;
      [|by apply not_elem_of_nil in Hv].
    by exists slot, row, v.
  - intros (slot & row & v & Hslot & Hrow & Hv & Hnan).
    exists slot. split; [by apply list_elem_of_In|].
    apply existsb_exists. exists v. rewrite Hrow. simpl.
    split; [by apply list_elem_of_In|done].
Qed.

Lemma validate_loop (ckpt : Checkpoint) (t : Tensor) (S : gset string)
    (l : list nat) :
  foldM (validate_step (V:=V) ckpt t) S l
  = match list_find (offending ckpt t) l with
    | None => ([], inr (S ∪ missing_names ckpt t l))
    | Some (_, i) =>
        ([LogNoImputation (feature_name ckpt i) i (model_to_data ckpt i)],
         inl (not_imputable_error ckpt i))
    end.
Proof.
  revert S. induction l as [|i l IH]; intros S.
  - simpl. unfold missing_names, ret. simpl. by rewrite (right_id_L ∅ (∪)).
  - cbn [foldM list_find]. unfold validate_step at 1. fold (feature_name ckpt i).
    destruct (decide (offending ckpt t i)) as [[Hm Hn]|Hno].
    + rewrite Hm. rewrite bool_decide_eq_false_2 by done. reflexivity.
    + assert (Hstep : ∀ r : Eff Event (gset string),
        (if has_missing t i
         then if bool_decide (feature_name ckpt i ∈ imputable_variables ckpt)
              then ret ({[feature_name ckpt i]} ∪ S) else r
         else ret S)
        = ret (S ∪ missing_names ckpt t [i])).
      { intros r. unfold missing_names. rewrite filter_cons, filter_nil.
        destruct (has_missing t i) eqn:Hm.
        - rewrite decide_True by done.
          rewrite bool_decide_eq_true_2.
          + rewrite fmap_cons, list_to_set_cons, fmap_nil, list_to_set_nil.
            unfold ret. do 2 f_equal.
            by rewrite (right_id_L ∅ (∪)), (comm_L (∪)).
          + apply dec_stable. intros Hn. by apply Hno.
        - rewrite decide_False by done. simpl. by rewrite (right_id_L ∅ (∪)). }
      rewrite Hstep. unfold ret. rewrite bind_nil_inr, IH.
      destruct (list_find (offending ckpt t) l) as [[j x]|]; simpl; [done|].
      f_equal. f_equal. unfold missing_names.
      rewrite (filter_cons _ i l). destruct (decide (has_missing t i = true)).
      * rewrite filter_cons, filter_nil, decide_True by done.
        rewrite !fmap_cons, !list_to_set_cons, fmap_nil, list_to_set_nil.
        by rewrite (right_id_L ∅ (∪)), (assoc_L (∪)).
      * rewrite filter_cons, filter_nil, decide_False by done.
        rewrite fmap_nil, list_to_set_nil. by rewrite (right_id_L ∅ (∪)).
Qed.

End Validate.

(** ** A prepared run *)

Section Prepare.

Context {V : Type} `{Float32 V}.
Variable env : Collaborators V.

Local Abbreviation Event := (Event V).
Local Abbreviation Scope := (Scope V).
Local Abbreviation Field := (Field V).
Local Abbreviation Tensor := (Tensor V).

Lemma retrieved_fields_masks_silent (c : Classification) :
  (retrieved_fields_masks (V:=V) c).1 = [].
Proof.
  assert (Hs : Forall (λ _, False) (retrieved_fields_masks (V:=V) c).1).
  { unfold retrieved_fields_masks. apply bind_Forall; [|intros; constructor].
    apply foldM_Forall. intros [[prog const] idx] i. unfold retrieved_step.
    apply bind_Forall; [apply lift_Forall|]. intros [|]; [|constructor].
    apply bind_Forall; [apply lift_Forall|]. intros k.
    apply bind_Forall; [apply py_assert_Forall|]. intros _.
    destruct (decide _); constructor. }
  by destruct Hs.
Qed.

Lemma prepare_inr ckpt input_fields start_datetime tr sc t acc :
  prepare env ckpt input_fields start_datetime = (tr, inr (sc, (t, acc))) →
  Prepared env ckpt input_fields start_datetime tr sc t acc.
Proof.
  unfold prepare.
  intros (? & g & tr1 & [Hg ->]%lift_inr & H1 & ->)%bind_inr.
  apply bind_inr in H1 as (? & rows & tr2 & [Hrows ->]%lift_inr & H2 & ->).
  apply bind_inr in H2 as (? & src & tr3 & [Hsrc ->]%lift_inr & H3 & ->).
  apply bind_inr in H3 as (trc & c & tr4 & Hc & H4 & ->).
  apply bind_inr in H4 as (trr & cols & tr5 & Hcols & H5 & ->).
  apply bind_inr in H5 as (tra & t' & tr6 & Ha & H6 & ->).
  apply bind_inr in H6 as (trv & names & tr7 & Hv & H7 & ->).
  apply bind_inr in H7 as (trm & mr & tr8 & Hmr & H8 & ->).
  apply bind_inr in H8 as (? & tpl & tr9 & [Htpl ->]%lift_inr & H9 & ->).
  apply bind_inr in H9 as (tri & [] & tr10 & Hi & [= <- <- <- <-] & ->).
  pose proof (classify_inr _ _ _ Hc) as (-> & -> & _).
  assert (trv = []) as ->.
  { unfold validate in Hv. rewrite validate_loop in Hv.
    destruct (list_find _ _) as [[? ?]|]; by simplify_eq. }
  assert (trr = []) as ->.
  { pose proof (retrieved_fields_masks_silent (classified ckpt)) as Hs.
    by rewrite Hcols in Hs. }
  assert (trm = []) as ->.
  { rewrite get_most_recent_datetime_eq in Hmr.
    destruct (last input_fields); [|by simplify_eq].
    destruct (forallb _ _); by simplify_eq. }
  assert (tri = [CallbackInit input_fields (init_payload ckpt tpl g)]) as ->.
  { unfold callback_init, init_payload, tell in *.
    destruct (diagnostic_params ckpt); [by simplify_eq|].
    apply bind_inr in Hi as (? & row0 & ? & [Hr ->]%lift_inr & [= <-] & ->).
    unfold py_index in Hr.
    destruct (replicate _ _ !! 0%nat) as [row|] eqn:Hrow; [|done].
    injection Hr as <-. apply lookup_replicate in Hrow as [-> _].
    by rewrite length_replicate. }
  constructor; simpl.
  - unfold prepared_scope. simpl. rewrite Hmr. done.
  - exists rows. split; [done|]. exists src, cols, tra. by split_and!.
  - by exists names.
  - done.
Qed.

End Prepare.

Section MissingValues.

Context {V : Type} `{Float32 V}.
Variable env : Collaborators V.

Local Abbreviation Event := (Event V).
Local Abbreviation Scope := (Scope V).
Local Abbreviation Field := (Field V).
Local Abbreviation Tensor := (Tensor V).

(** C4.  [has_missing t i] says that the feature [i] has a NaN at some lag
    and grid point.  The check raises exactly when some feature below [N]
    has a NaN and a name outside [imputable_variables]; the error is the
    [ValueError] naming the first such feature, after the one log line for
    it.  When every feature with a NaN is imputable the check passes and
    returns the set of the names of the features with a NaN.  The check
    only reads the tensor: the tensor with which the rollout of a prepared
    run starts is the one that was assembled and checked. *)
Theorem missing_values_rule (ckpt : Checkpoint) (t : Tensor) :
  let n := num_input_features ckpt in
  (∀ i, has_missing t i = true
        ↔ ∃ slot row v, slot ∈ t ∧ slot !! i = Some row ∧ v ∈ row
                        ∧ f32_isnan v = true)
  ∧ (fails (validate (V:=V) ckpt t)
     ↔ ∃ i, (i < n)%nat ∧ offending ckpt t i)
  ∧ (∀ tr e, validate (V:=V) ckpt t = (tr, inl e) →
       ∃ i, (i < n)%nat ∧ offending ckpt t i
            ∧ (∀ j, (j < i)%nat → ¬ offending ckpt t j)
            ∧ e = ValueError ("Field '" +:+ feature_name ckpt i +:+
                              "' has NaNs and is not marked as imputable")
            ∧ tr = [LogNoImputation (feature_name ckpt i) i
                      (model_to_data ckpt i)])
  ∧ ((∀ i, (i < n)%nat → has_missing t i = true →
           feature_name ckpt i ∈ imputable_variables ckpt) →
     validate (V:=V) ckpt t = ([], inr (missing_names ckpt t (seq 0 n)))
     ∧ ∀ i, (i < n)%nat → has_missing t i = true →
            feature_name ckpt i ∈ missing_names ckpt t (seq 0 n))
  ∧ (∀ input_fields start_datetime tr sc t' acc,
       prepare env ckpt input_fields start_datetime
       = (tr, inr (sc, (t', acc))) →
       (∃ src cols tr_a,
          assemble env ckpt (classified ckpt) cols.1 cols.2 input_fields
            (sc_gridpoints sc) src start_datetime = (tr_a, inr t'))
       ∧ ∃ names, validate (V:=V) ckpt t' = ([], inr names)).
Proof.
  intros n.
  assert (Heq : validate (V:=V) ckpt t
    = match list_find (offending ckpt t) (seq 0 n) with
      | None => ([], inr (missing_names ckpt t (seq 0 n)))
      | Some (_, i) =>
          ([LogNoImputation (feature_name ckpt i) i (model_to_data ckpt i)],
           inl (not_imputable_error ckpt i))
      end).
  { unfold validate. rewrite validate_loop. by rewrite (left_id_L ∅ (∪)). }
  split_and!.
  - apply has_missing_true.
  - rewrite Heq. split.
    + intros [e He].
      destruct (list_find _ _) as [[j i]|] eqn:Hfind; [|done].
      apply list_find_Some in Hfind as ([-> Hi]%lookup_seq & Hoff & _).
      by exists j.
    + intros (i & Hi & Hoff).
      destruct (list_find _ _) as [[j x]|] eqn:Hfind; [by eexists|].
      exfalso. eapply list_find_None, Forall_forall in Hfind; [by apply Hfind|].
      apply elem_of_seq. lia.
  - intros tr e. rewrite Heq.
    destruct (list_find _ _) as [[j i]|] eqn:Hfind; [|done].
    intros [= <- <-].
    apply list_find_Some in Hfind as ([-> Hi]%lookup_seq & Hoff & Hfirst).
    exists j. split_and!; [done..| |done|done].
    intros k Hk. apply (Hfirst k k); [|done]. apply lookup_seq. lia.
  - intros Himp. split.
    + rewrite Heq. destruct (list_find _ _) as [[j i]|] eqn:Hfind; [|done].
      apply list_find_Some in Hfind as ([-> Hi]%lookup_seq & [Hm Hn] & _).
      destruct Hn. by apply Himp.
    + intros i Hi Hm. unfold missing_names. apply elem_of_list_to_set.
      apply list_elem_of_fmap. exists i. split; [done|].
      apply list_elem_of_filter. split; [done|]. apply elem_of_seq. lia.
  - intros input_fields start_datetime tr sc t' acc Hp.
    apply prepare_inr in Hp as [_ (rows & _ & src & cols & tra & Hp) Hv _].
    destruct Hp as (_ & _ & _ & _ & Ha & _). split; [by exists src, cols, tra|done].
Qed.

End MissingValues.

(** ** Writing rows at indexed positions *)

Lemma ascending_NoDup (l : list nat) : StronglySorted lt l → NoDup l.
Proof.
  induction 1 as [|x l _ IH Hx]; constructor; [|done].
  intros Hin. rewrite Forall_forall in Hx. specialize (Hx x Hin). lia.
Qed.

Lemma StronglySorted_filter_lt (P : nat → Prop) `{∀ x, Decision (P x)}
    (l : list nat) :
  StronglySorted lt l → StronglySorted lt (filter P l).
Proof.
  induction 1 as [|x l _ IH Hx]; [constructor|].
  rewrite filter_cons. destruct (decide (P x)); [|done].
  constructor; [done|]. apply Forall_forall. intros y [_ Hy]%list_elem_of_filter.
  rewrite Forall_forall in Hx. by apply Hx.
Qed.

Lemma StronglySorted_seq (a n : nat) : StronglySorted lt (seq a n).
Proof.
  revert a. induction n as [|n IH]; intros a; simpl; constructor; [apply IH|].
  apply Forall_seq. intros; lia.
Qed.

(** An ascending index array below [n] is the list of the indices below
    [n] that it holds. *)
Lemma ascending_mask_filter (mask : list nat) (n : nat) :
  StronglySorted lt mask → Forall (λ i, i < n)%nat mask →
  filter (λ i, i ∈ mask) (seq 0 n) = mask.
Proof.
  intros Hs Hr. apply (StronglySorted_unique_strong lt).
  - intros; lia.
  - apply StronglySorted_filter_lt, StronglySorted_seq.
  - done.
  - apply NoDup_Permutation.
    + apply NoDup_filter, NoDup_seq.
    + by apply ascending_NoDup.
    + intros i. rewrite list_elem_of_filter, elem_of_seq.
      rewrite Forall_forall in Hr. specialize (Hr i). split; [tauto|].
      intros Hi. split; [done|]. specialize (Hr Hi). lia.
Qed.

Section Assign.

Context {V : Type} `{Float32 V}.

Local Abbreviation Row := (Row V).

Lemma broadcast_rows_inr (mm : PyError) (n g : nat) (src rows : list Row) :
  broadcast_rows mm n g src = inr rows →
  length rows = n
  ∧ Forall (λ r : Row, length r = g) rows
  ∧ ∀ j, (j < n)%nat → rows !! j = src !! broadcast_index (length src) n j.
Proof.
  unfold broadcast_rows, broadcast_index.
  destruct (forallb _ src) eqn:Hg; [|done].
  assert (Hg' : Forall (λ r : Row, length r = g) src).
  { apply Forall_forall. intros r Hr%list_elem_of_In.
    rewrite forallb_forall in Hg. specialize (Hg r Hr).
    by apply bool_decide_eq_true in Hg. }
  destruct (decide (length src = n)) as [Hn|Hn].
  - intros [= <-]. done.
  - destruct src as [|r [|r' src]]; [done| |done]. intros [= <-].
    split_and!.
    + by rewrite length_replicate.
    + apply Forall_replicate. by inversion Hg'.
    + intros j Hj. by rewrite lookup_replicate_2.
Qed.

Lemma broadcast_rows_same (mm : PyError) (g : nat) (src : list Row) :
  Forall (λ r : Row, length r = g) src →
  broadcast_rows mm (length src) g src = inr src.
Proof.
  intros Hg. unfold broadcast_rows.
  replace (forallb _ src) with true; [by rewrite decide_True|].
  symmetry. apply forallb_forall. intros r Hr%list_elem_of_In.
  apply bool_decide_eq_true. rewrite Forall_forall in Hg. by apply Hg.
Qed.

Lemma put_rows_length (slot : list Row) mask rows :
  length (put_rows slot mask rows) = length slot.
Proof.
  unfold put_rows. revert slot rows.
  induction mask as [|i mask IH]; intros slot [|r rows]; simpl; try done.
  by rewrite IH, length_insert.
Qed.

Lemma put_rows_other (slot : list Row) mask rows i :
  i ∉ mask → put_rows slot mask rows !! i = slot !! i.
Proof.
  unfold put_rows. revert slot rows.
  induction mask as [|k mask IH]; intros slot [|r rows] Hi; simpl; try done.
  apply not_elem_of_cons in Hi as [Hne Hi].
  rewrite IH by done. by rewrite list_lookup_insert_ne.
Qed.

Lemma put_rows_at (slot : list Row) mask rows j i :
  NoDup mask → length rows = length mask →
  mask !! j = Some i → (i < length slot)%nat →
  put_rows slot mask rows !! i = rows !! j.
Proof.
  unfold put_rows. revert slot rows j.
  induction mask as [|k mask IH]; intros slot [|r rows] j Hnd Hlen Hj Hi;
    simpl in *; try done.
  apply NoDup_cons in Hnd as [Hk Hnd].
  destruct j as [|j]; simpl in *.
  - injection Hj as ->.
    fold (put_rows (<[i:=r]> slot) mask rows).
    rewrite put_rows_other by done. by rewrite list_lookup_insert_eq.
  - apply (IH _ _ j); [done|lia|done|by rewrite length_insert].
Qed.

Lemma put_rows_grid (g : nat) slot mask rows :
  Forall (λ r : Row, length r = g) slot →
  Forall (λ r : Row, length r = g) rows →
  Forall (λ r : Row, length r = g) (put_rows slot mask rows).
Proof.
  unfold put_rows. revert slot rows.
  induction mask as [|k mask IH]; intros slot [|r rows] Hs Hr; simpl; try done.
  apply Forall_cons in Hr as [Hr Hrows].
  apply IH; [|done]. by apply Forall_insert.
Qed.

Lemma assign_rows_inr (mm : PyError) (g : nat) (slot : list Row)
    (mask : list nat) (src slot' : list Row) :
  assign_rows mm g slot mask src = inr slot' →
  ∃ rows, broadcast_rows mm (length mask) g src = inr rows
          ∧ Forall (λ i, i < length slot)%nat mask
          ∧ slot' = put_rows slot mask rows.
Proof.
  unfold assign_rows.
  destruct (broadcast_rows _ _ _ _) as [e|rows] eqn:Hb; [done|].
  destruct (forallb _ mask) eqn:Hr; [|done]. intros [= <-].
  exists rows. split_and!; [done| |done].
  apply Forall_forall. intros i Hi%list_elem_of_In.
  rewrite forallb_forall in Hr. specialize (Hr i Hi).
  by apply bool_decide_eq_true in Hr.
Qed.

(** What a successful [slot[mask] = src] leaves in the slot. *)
Lemma assign_rows_spec (mm : PyError) (g : nat) (slot : list Row)
    (mask : list nat) (src slot' : list Row) :
  assign_rows mm g slot mask src = inr slot' →
  length slot' = length slot
  ∧ (∀ i, i ∉ mask → slot' !! i = slot !! i)
  ∧ (NoDup mask → ∀ j i, mask !! j = Some i →
       slot' !! i = src !! broadcast_index (length src) (length mask) j)
  ∧ (Forall (λ r : Row, length r = g) slot →
     Forall (λ r : Row, length r = g) slot').
Proof.
  intros (rows & (Hlen & Hg & Hrows)%broadcast_rows_inr & Hr & ->)%assign_rows_inr.
  split_and!.
  - apply put_rows_length.
  - intros i Hi. by apply put_rows_other.
  - intros Hnd j i Hj. rewrite <-Hrows by (by eapply lookup_lt_Some).
    apply put_rows_at; [done..|].
    rewrite Forall_forall in Hr. apply Hr. by eapply list_elem_of_lookup_2.
  - intros Hs. by apply put_rows_grid.
Qed.

End Assign.

(** ** Which retrieved field feeds which feature *)

Section Retrieved.

Context {V : Type} `{Float32 V}.

Local Abbreviation Event := (Event V).

Lemma partition_facts (ckpt : Checkpoint) :
  partition ckpt →
  (Forall (λ i, i < num_input_features ckpt)%nat (computed_constants_mask ckpt)
   ∧ Forall (λ i, i < num_input_features ckpt)%nat
       (constants_from_input_mask ckpt)
   ∧ Forall (λ i, i < num_input_features ckpt)%nat
       (computed_forcings_mask ckpt)
   ∧ Forall (λ i, i < num_input_features ckpt)%nat
       (prognostic_input_mask ckpt))
  ∧ (∀ i, ¬ (i ∈ computed_constants_mask ckpt
             ∧ i ∈ constants_from_input_mask ckpt)
          ∧ ¬ (i ∈ computed_constants_mask ckpt
               ∧ i ∈ computed_forcings_mask ckpt)
          ∧ ¬ (i ∈ computed_constants_mask ckpt
               ∧ i ∈ prognostic_input_mask ckpt)
          ∧ ¬ (i ∈ constants_from_input_mask ckpt
               ∧ i ∈ computed_forcings_mask ckpt)
          ∧ ¬ (i ∈ constants_from_input_mask ckpt
               ∧ i ∈ prognostic_input_mask ckpt)
          ∧ ¬ (i ∈ computed_forcings_mask ckpt
               ∧ i ∈ prognostic_input_mask ckpt)).
Proof.
  intros Hp. split.
  - split_and!; apply Forall_forall; intros i Hi; specialize (Hp i);
      rewrite kinds_of_eq in Hp;
      destruct (decide (i < num_input_features ckpt)%nat); try done;
      repeat destruct (decide (i ∈ _)); simpl in Hp; done.
  - intros i. specialize (Hp i). rewrite kinds_of_eq in Hp.
    destruct (decide (i < num_input_features ckpt)%nat);
      repeat destruct (decide (i ∈ _)); simpl in Hp; (lia || tauto).
Qed.

Lemma classified_inputs_lookup (ckpt : Checkpoint) (i : nat) :
  (i < num_input_features ckpt)%nat →
  inputs (classified ckpt) !! i = Some (bool_decide (is_input ckpt i)).
Proof.
  intros Hi. unfold classified, is_input. simpl.
  rewrite !np_put_lookup, lookup_replicate_2 by done.
  repeat destruct (decide (i ∈ _)); simpl; f_equal; symmetry;
    (by apply bool_decide_eq_true_2; tauto)
    || (by apply bool_decide_eq_false_2; tauto).
Qed.

Lemma classified_kinds_lookup (ckpt : Checkpoint) (i : nat) :
  partition ckpt → is_input ckpt i →
  kinds (classified ckpt) !! i
  = Some (if decide (i ∈ prognostic_input_mask ckpt) then PrognosticInput
          else ConstantFromInput).
Proof.
  intros [(_ & HrK & _ & HrP) Hdis]%partition_facts Hin.
  specialize (Hdis i).
  assert (Hi : (i < num_input_features ckpt)%nat).
  { rewrite Forall_forall in HrK, HrP. destruct Hin; auto. }
  unfold classified. simpl.
  rewrite !np_put_lookup, lookup_replicate_2 by done.
  unfold is_input in Hin.
  repeat destruct (decide (i ∈ _)); simpl; (done || tauto).
Qed.

Lemma retrieved_index_S (ckpt : Checkpoint) (i : nat) :
  retrieved_index ckpt (S i)
  = if decide (is_input ckpt i) then S (retrieved_index ckpt i)
    else retrieved_index ckpt i.
Proof.
  unfold retrieved_index. rewrite seq_S, filter_app, length_app. simpl.
  rewrite filter_cons, filter_nil. destruct (decide _); simpl; lia.
Qed.

Lemma retrieved_step_classified (ckpt : Checkpoint)
    (prog const : list nat) (idx i : nat) :
  partition ckpt → (i < num_input_features ckpt)%nat →
  retrieved_step (V:=V) (classified ckpt) (prog, const, idx) i
  = ([], inr (if decide (i ∈ prognostic_input_mask ckpt)
              then (prog ++ [idx], const, S idx)
              else if decide (i ∈ constants_from_input_mask ckpt)
                   then (prog, const ++ [idx], S idx)
                   else (prog, const, idx))).
Proof.
  intros Hp Hi. unfold retrieved_step, py_index.
  rewrite classified_inputs_lookup by done. unfold lift at 1.
  rewrite bind_nil_inr.
  destruct (decide (is_input ckpt i)) as [Hin|Hin].
  - rewrite bool_decide_eq_true_2 by done.
    rewrite classified_kinds_lookup by done.
    unfold lift at 1. rewrite bind_nil_inr.
    destruct (decide (i ∈ prognostic_input_mask ckpt)) as [HP|HP]; simpl.
    + done.
    + destruct Hin as [HK|?]; [|done]. by rewrite decide_True.
  - rewrite bool_decide_eq_false_2 by done. unfold is_input in Hin.
    rewrite !decide_False by tauto. done.
Qed.

Lemma retrieved_loop (ckpt : Checkpoint) (n : nat) :
  partition ckpt → (n ≤ num_input_features ckpt)%nat →
  foldM (retrieved_step (V:=V) (classified ckpt)) ([], [], 0%nat) (seq 0 n)
  = ([], inr (retrieved_index ckpt
                <$> filter (λ i, i ∈ prognostic_input_mask ckpt) (seq 0 n),
              retrieved_index ckpt
                <$> filter (λ i, i ∈ constants_from_input_mask ckpt) (seq 0 n),
              retrieved_index ckpt n)).
Proof.
  intros Hp. induction n as [|n IH]; intros Hn; [done|].
  rewrite seq_S, foldM_app, IH by lia. rewrite bind_nil_inr.
  cbn [foldM]. rewrite retrieved_step_classified by (done || lia).
  rewrite bind_nil_inr. cbn [foldM]. unfold ret. do 2 f_equal.
  rewrite !filter_app, !fmap_app, !filter_cons, !filter_nil.
  rewrite retrieved_index_S. unfold is_input.
  pose proof (partition_facts ckpt Hp) as [_ Hdis]. specialize (Hdis n).
  repeat destruct (decide _); simpl; rewrite ?app_nil_r; (done || tauto).
Qed.

Lemma retrieved_fields_masks_classified (ckpt : Checkpoint) :
  partition ckpt → ascending_masks ckpt →
  retrieved_fields_masks (V:=V) (classified ckpt)
  = ([], inr (retrieved_index ckpt <$> prognostic_input_mask ckpt,
              retrieved_index ckpt <$> constants_from_input_mask ckpt)).
Proof.
  intros Hp (_ & HsK & _ & HsP). unfold retrieved_fields_masks.
  assert (Hlen : length (check (classified ckpt)) = num_input_features ckpt).
  { unfold classified. simpl. by rewrite !np_put_length, length_replicate. }
  rewrite Hlen, retrieved_loop, bind_nil_inr by done. simpl.
  pose proof (partition_facts ckpt Hp) as [(_ & HrK & _ & HrP) _].
  by rewrite !ascending_mask_filter.
Qed.

End Retrieved.

(** ** The assembled tensor *)

Section Assemble.

Context {V : Type} `{Float32 V}.
Variable env : Collaborators V.

Local Abbreviation Event := (Event V).
Local Abbreviation Scope := (Scope V).
Local Abbreviation Field := (Field V).
Local Abbreviation Tensor := (Tensor V).
Local Abbreviation Row := (Row V).

Lemma full_nan_shape (nlags n g : nat) :
  tensor_shape nlags n g (full_nan (V:=V) nlags n g).
Proof.
  unfold full_nan. split; [by rewrite length_replicate|].
  apply Forall_replicate. split; [by rewrite length_replicate|].
  apply Forall_replicate. by rewrite length_replicate.
Qed.

Lemma full_nan_lookup (nlags n g l i k : nat) :
  (l < nlags)%nat → (i < n)%nat → (k < g)%nat →
  entry (full_nan (V:=V) nlags n g) l i ≫= (.!! k) = Some f32_nan.
Proof.
  intros Hl Hi Hk. unfold entry, full_nan.
  rewrite lookup_replicate_2 by done. simpl.
  rewrite lookup_replicate_2 by done. simpl.
  by rewrite lookup_replicate_2.
Qed.

Lemma scatter_constants_inr (g : nat) (t : Tensor) (mask : list nat)
    (constants : list Row) (t' : Tensor) :
  scatter_constants g t mask constants = inr t' →
  slotwise (λ _ slot slot',
    assign_rows numpy_mismatch g slot mask constants = inr slot') t t'.
Proof.
  revert t'. induction t as [|slot t IH]; intros t'; simpl.
  - intros [= <-]. split; [done|]. by intros l slot.
  - destruct (assign_rows _ _ slot _ _) as [e|slot'] eqn:Hs; [done|].
    destruct (scatter_constants _ t _ _) as [e|t''] eqn:Ht; [done|].
    intros [= <-]. destruct (IH t'' eq_refl) as [Hlen Hall].
    split; [simpl; by rewrite Hlen|].
    intros [|l] slot0; simpl; [|by apply Hall].
    intros [= <-]. by exists slot'.
Qed.

Lemma scatter_retrieved_inr (g : nat) (t : Tensor) (mask : list nat)
    (src : list (list Row)) (cols : list nat) (t' : Tensor) :
  length src = length t →
  scatter_retrieved g t mask src cols = inr t' →
  slotwise (λ l slot slot', ∃ fields rows,
    src !! l = Some fields
    ∧ np_take_array fields cols = inr rows
    ∧ assign_rows numpy_mismatch g slot mask rows = inr slot') t t'.
Proof.
  revert src t'. induction t as [|slot t IH]; intros [|fields src] t' Hlen;
    simpl in *; try done.
  - intros [= <-]. split; [done|]. by intros l slot.
  - destruct (np_take_array fields cols) as [e|rows] eqn:Hr; [done|].
    destruct (assign_rows _ _ slot _ _) as [e|slot'] eqn:Hs;
      [by destruct (scatter_retrieved g t mask src cols)|].
    destruct (scatter_retrieved g t mask src cols) as [e|t''] eqn:Ht; [done|].
    intros [= <-]. destruct (IH src t'') as [Hlen' Hall]; [lia|done|].
    split; [simpl; by rewrite Hlen'|].
    intros [|l] slot0; simpl; [|by apply Hall].
    intros [= <-]. exists slot'. split; [done|]. by exists fields, rows.
Qed.

Lemma scatter_forcing_at_inr ckpt input_fields g start t l tr t' :
  scatter_forcing_at env ckpt input_fields g start t l = (tr, inr t') →
  ∃ h slot slot',
    lagged ckpt !! l = Some h ∧ t !! l = Some slot
    ∧ tr = [LoadSource (start + timedelta_hours h) (computed_forcings ckpt)]
    ∧ assign_rows numpy_mismatch g slot (computed_forcings_mask ckpt)
        (cml_load_source env (take 1 input_fields)
           (start + timedelta_hours h) (computed_forcings ckpt))
      = inr slot'
    ∧ length (cml_load_source env (take 1 input_fields)
                (start + timedelta_hours h) (computed_forcings ckpt))
      = length (computed_forcings ckpt)
    ∧ t' = <[l := slot']> t.
Proof.
  unfold scatter_forcing_at.
  intros (? & date & tr1 & [Hd ->]%lift_inr & H1 & ->)%bind_inr.
  apply bind_inr in H1 as (trf & rows & tr2 & Hf & H2 & ->).
  apply bind_inr in H2 as (? & slot & tr3 & [Hs ->]%lift_inr & H3 & ->).
  apply bind_inr in H3 as (? & slot' & tr4 & [Ha ->]%lift_inr & [= <- <-] & ->).
  apply forcing_and_constants_inr in Hf as (-> & -> & Hlen).
  unfold lag_date, py_index in Hd.
  destruct (lagged ckpt !! l) as [h|] eqn:Hh; [|done]. injection Hd as <-.
  unfold py_index in Hs. destruct (t !! l) as [slot0|] eqn:Hl; [|done].
  injection Hs as ->. exists h, slot, slot'. by split_and!.
Qed.

Lemma forcing_loop ckpt input_fields g start (t : Tensor) (n : nat) tr t' :
  foldM (scatter_forcing_at env ckpt input_fields g start) t (seq 0 n)
  = (tr, inr t') →
  tr = (λ h, LoadSource (start + timedelta_hours h) (computed_forcings ckpt))
       <$> take n (lagged ckpt)
  ∧ (n ≤ length (lagged ckpt))%nat
  ∧ length t' = length t
  ∧ (∀ l, (n ≤ l)%nat → t' !! l = t !! l)
  ∧ (∀ l slot, (l < n)%nat → t !! l = Some slot →
       ∃ h slot', lagged ckpt !! l = Some h ∧ t' !! l = Some slot'
         ∧ assign_rows numpy_mismatch g slot (computed_forcings_mask ckpt)
             (cml_load_source env (take 1 input_fields)
                (start + timedelta_hours h) (computed_forcings ckpt))
           = inr slot'
         ∧ length (cml_load_source env (take 1 input_fields)
                     (start + timedelta_hours h) (computed_forcings ckpt))
           = length (computed_forcings ckpt)).
Proof.
  revert tr t'. induction n as [|n IH]; intros tr t'.
  - simpl. intros [= <- <-]. split_and!; try done; [lia|].
    intros; lia.
  - rewrite seq_S, foldM_app. simpl.
    intros (tr1 & t1 & tr2 & H1 & H2 & ->)%bind_inr.
    apply bind_inr in H2 as (tr3 & t2 & ? & H2 & [= <- <-] & ->).
    rewrite app_nil_r.
    apply IH in H1 as (-> & Hn & Hlen & Hge & Hlt).
    apply scatter_forcing_at_inr in H2
      as (h & slot & slot' & Hh & Hs & -> & Ha & Hal & ->).
    split_and!.
    + rewrite (take_S_r _ _ h) by done. by rewrite fmap_app.
    + apply lookup_lt_Some in Hh. lia.
    + by rewrite length_insert.
    + intros l Hl. rewrite list_lookup_insert_ne by lia. apply Hge. lia.
    + intros l slot0 Hl Hs0. destruct (decide (l = n)) as [->|Hne].
      * rewrite Hge in Hs by lia. assert (slot0 = slot) as -> by congruence.
        exists h, slot'. split_and!; try done.
        apply list_lookup_insert_eq. rewrite Hlen. by eapply lookup_lt_Some.
      * destruct (Hlt l slot0) as (h' & slot0' & ? & ? & ? & ?); [lia|done|].
        exists h', slot0'. split_and!; try done.
        by rewrite list_lookup_insert_ne by done.
Qed.

Lemma reshape_lags_lookup (nlags g : nat) (rows : list Row)
    (src : list (list Row)) (l r : nat) :
  reshape_lags nlags g rows = inr src →
  length src = nlags
  ∧ ∀ fields, src !! l = Some fields →
      (r < length fields)%nat →
      fields !! r = rows !! (l * (length rows / nlags) + r)%nat.
Proof.
  unfold reshape_lags. destruct (decide (nlags = 0%nat)); [done|].
  destruct (decide _); [|done]. intros [= <-].
  split; [by rewrite length_fmap, length_seq|].
  intros fields. rewrite list_lookup_fmap.
  intros (l' & [-> Hl]%lookup_seq & ->)%fmap_Some. simpl.
  rewrite length_take. intros Hr.
  rewrite lookup_take_lt by lia. by rewrite lookup_drop.
Qed.

Lemma np_take_array_inr {A} (arr : list A) (cols : list nat) rs :
  np_take_array arr cols = inr rs →
  cols ≠ [] ∧ Forall2 (λ c r, arr !! c = Some r) cols rs.
Proof.
  unfold np_take_array. destruct cols as [|c cols]; [done|].
  intros Ht%np_take_inr. done.
Qed.

(** What a stage that assigns [rows] to [mask] in every slot leaves. *)
Lemma slotwise_assign (mm : PyError) (g : nat) (mask : list nat)
    (Q : nat → list Row → Prop) (t t' : Tensor) :
  slotwise (λ l slot slot', ∃ rows,
    Q l rows ∧ assign_rows mm g slot mask rows = inr slot') t t' →
  (∀ nlags n, tensor_shape nlags n g t → tensor_shape nlags n g t')
  ∧ (∀ l i, i ∉ mask → entry t' l i = entry t l i)
  ∧ (NoDup mask → ∀ l j i, (l < length t)%nat → mask !! j = Some i →
       ∃ rows, Q l rows
         ∧ entry t' l i
           = rows !! broadcast_index (length rows) (length mask) j).
Proof.
  intros [Hlen Hall]. split_and!.
  - intros nlags n [Hl Hsh]. split; [lia|].
    apply Forall_lookup. intros l slot' Hs'.
    destruct (lookup_lt_is_Some_2 t l) as [slot Hs].
    { rewrite <-Hlen. by eapply lookup_lt_Some. }
    destruct (Hall l slot Hs) as (slot'' & Hs'' & rows & _ & Ha).
    assert (slot'' = slot') as -> by congruence.
    apply assign_rows_spec in Ha as (Hlen' & _ & _ & Hg).
    rewrite Forall_lookup in Hsh. destruct (Hsh l slot Hs) as [Hn Hrows].
    split; [lia|by apply Hg].
  - intros l i Hi. unfold entry.
    destruct (t !! l) as [slot|] eqn:Hs.
    + destruct (Hall l slot Hs) as (slot' & -> & rows & _ & Ha). simpl.
      apply assign_rows_spec in Ha as (_ & Ho & _). by apply Ho.
    + apply lookup_ge_None in Hs. by rewrite lookup_ge_None_2 by lia.
  - intros Hnd l j i Hl Hj.
    destruct (lookup_lt_is_Some_2 t l Hl) as [slot Hs].
    destruct (Hall l slot Hs) as (slot' & Hs' & rows & HQ & Ha).
    exists rows. split; [done|]. unfold entry. rewrite Hs'. simpl.
    apply assign_rows_spec in Ha as (_ & _ & Hat & _). by apply Hat.
Qed.

Lemma retrieved_index_mono (ckpt : Checkpoint) (i i' : nat) :
  is_input ckpt i → (i < i')%nat →
  (retrieved_index ckpt i < retrieved_index ckpt i')%nat.
Proof.
  intros Hin Hlt. unfold retrieved_index.
  replace i' with (i + S (i' - S i))%nat by lia.
  rewrite seq_app, filter_app, length_app. simpl.
  rewrite filter_cons, decide_True by done. simpl. lia.
Qed.

End Assemble.

Section Assembly.

Context {V : Type} `{Float32 V}.
Variable env : Collaborators V.

Local Abbreviation Event := (Event V).
Local Abbreviation Scope := (Scope V).
Local Abbreviation Field := (Field V).
Local Abbreviation Tensor := (Tensor V).
Local Abbreviation Row := (Row V).

Lemma slotwise_mono (P P' : nat → list Row → list Row → Prop) (t t' : Tensor) :
  (∀ l s s', P l s s' → P' l s s') → slotwise P t t' → slotwise P' t t'.
Proof.
  intros HP [Hlen Hall]. split; [done|]. intros l slot Hs.
  destruct (Hall l slot Hs) as (slot' & ? & ?). exists slot'. auto.
Qed.

(** The stages of [assemble]. *)
Lemma assemble_inr ckpt c pc cc input_fields g src start tr t :
  assemble env ckpt c pc cc input_fields g src start = (tr, inr t) →
  length src = length (lagged ckpt) →
  let constants := cml_load_source env (take 1 input_fields) start
                     (computed_constants ckpt) in
  let forcings h := cml_load_source env (take 1 input_fields)
                      (start + timedelta_hours h) (computed_forcings ckpt) in
  ∃ t1 t2 t3,
    slotwise (λ l slot slot', ∃ rows,
        (∃ fields, src !! l = Some fields
                   ∧ np_take_array fields pc = inr rows)
        ∧ assign_rows numpy_mismatch g slot (prognostic_input_mask ckpt) rows
          = inr slot')
      (full_nan (length (lagged ckpt)) (num_input_features ckpt) g) t1
    ∧ slotwise (λ l slot slot', ∃ rows,
        (∃ fields, src !! l = Some fields
                   ∧ np_take_array fields cc = inr rows)
        ∧ assign_rows numpy_mismatch g slot (constants_from_input_mask ckpt)
            rows = inr slot') t1 t2
    ∧ slotwise (λ l slot slot', ∃ rows,
        (rows = constants
         ∧ length constants = length (computed_constants ckpt))
        ∧ assign_rows numpy_mismatch g slot (computed_constants_mask ckpt)
            rows = inr slot') t2 t3
    ∧ slotwise (λ l slot slot', ∃ rows,
        (∃ h, lagged ckpt !! l = Some h ∧ rows = forcings h
              ∧ length rows = length (computed_forcings ckpt))
        ∧ assign_rows numpy_mismatch g slot (computed_forcings_mask ckpt)
            rows = inr slot') t3 t
    ∧ tr = LoadSource start (computed_constants ckpt)
           :: ((λ h, LoadSource (start + timedelta_hours h)
                       (computed_forcings ckpt)) <$> lagged ckpt).
Proof.
  intros Ha Hsrc constants forcings. unfold assemble in Ha.
  apply bind_inr in Ha as (? & t1 & tr1 & [H1 ->]%lift_inr & Ha & ->).
  apply bind_inr in Ha as (? & t2 & tr2 & [H2 ->]%lift_inr & Ha & ->).
  apply bind_inr in Ha as (trc & cs & tr3 & Hc & Ha & ->).
  apply bind_inr in Ha as (? & t3 & tr4 & [H3 ->]%lift_inr & Ha & ->).
  apply forcing_and_constants_inr in Hc as (-> & -> & Hclen).
  fold constants in H3, Hclen.
  apply scatter_retrieved_inr in H1;
    [|unfold full_nan; by rewrite length_replicate].
  assert (Hl1 : length t1 = length (lagged ckpt)).
  { destruct H1 as [-> _]. unfold full_nan. by rewrite length_replicate. }
  apply scatter_retrieved_inr in H2; [|lia].
  assert (Hl2 : length t2 = length (lagged ckpt)) by (destruct H2; lia).
  apply scatter_constants_inr in H3.
  assert (Hl3 : length t3 = length (lagged ckpt)) by (destruct H3; lia).
  apply forcing_loop in Ha as (-> & _ & Hl4 & _ & Hlt).
  exists t1, t2, t3. split_and!.
  - eapply slotwise_mono; [|exact H1]. simpl.
    intros l s s' (fields & rows & ? & ? & ?). exists rows. eauto.
  - eapply slotwise_mono; [|exact H2]. simpl.
    intros l s s' (fields & rows & ? & ? & ?). exists rows. eauto.
  - eapply slotwise_mono; [|exact H3]. simpl.
    intros l s s' ?. exists constants. eauto.
  - split; [done|]. intros l slot Hs.
    destruct (Hlt l slot) as (h & slot' & Hh & Hs' & Has & Hlen);
      [rewrite <-Hl3; by eapply lookup_lt_Some|done|].
    exists slot'. split; [done|]. exists (forcings h). split; [|done].
    by exists h.
  - simpl. by rewrite firstn_all.
Qed.

Lemma fields_to_numpy_inr (g : nat) (input_fields : list Field) rows :
  fields_to_numpy g input_fields = inr rows →
  rows = values <$> input_fields ∧ Forall (λ r : Row, length r = g) rows.
Proof.
  unfold fields_to_numpy. destruct (forallb _ _) eqn:Hall; [|done].
  intros [= <-]. split; [done|]. apply Forall_fmap, Forall_forall.
  intros f Hf%list_elem_of_In. rewrite forallb_forall in Hall.
  specialize (Hall f Hf). by apply bool_decide_eq_true in Hall.
Qed.

(** A mask without repeated indices holds as many indices as there are
    features of its kind. *)
Lemma mask_filter_Permutation (mask : list nat) (n : nat) :
  NoDup mask → Forall (λ i, i < n)%nat mask →
  filter (λ i, i ∈ mask) (seq 0 n) ≡ₚ mask.
Proof.
  intros Hnd Hr. apply NoDup_Permutation.
  - apply NoDup_filter, NoDup_seq.
  - done.
  - intros i. rewrite list_elem_of_filter, elem_of_seq.
    rewrite Forall_forall in Hr. specialize (Hr i). split; [tauto|].
    intros Hi. split; [done|]. specialize (Hr Hi). lia.
Qed.

Lemma full_nan_entry (nlags n g l i : nat) :
  (l < nlags)%nat → (i < n)%nat →
  entry (full_nan (V:=V) nlags n g) l i = Some (replicate g f32_nan).
Proof.
  intros Hl Hi. unfold entry, full_nan.
  rewrite lookup_replicate_2 by done. simpl.
  by rewrite lookup_replicate_2.
Qed.

(** What an assembly that completes leaves at a position that no mask
    holds: the value of [np.full]. *)
Lemma assemble_untouched ckpt c pc cc (input_fields : list Field) g src start
    tr (t : Tensor) (l i : nat) :
  assemble env ckpt c pc cc input_fields g src start = (tr, inr t) →
  (l < length (lagged ckpt))%nat → (i < num_input_features ckpt)%nat →
  i ∉ prognostic_input_mask ckpt → i ∉ constants_from_input_mask ckpt →
  i ∉ computed_constants_mask ckpt → i ∉ computed_forcings_mask ckpt →
  entry t l i = Some (replicate g f32_nan).
Proof.
  intros Ha Hl Hi HP HK HC HF. unfold assemble in Ha.
  apply bind_inr in Ha as (? & t1 & tr1 & [H1 ->]%lift_inr & Ha & ->).
  apply bind_inr in Ha as (? & t2 & tr2 & [H2 ->]%lift_inr & Ha & ->).
  apply bind_inr in Ha as (trc & cs & tr3 & _ & Ha & ->).
  apply bind_inr in Ha as (? & t3 & tr4 & [H3 ->]%lift_inr & Ha & ->).
  assert (Hput : ∀ mm (slot slot' : list Row) mask rows,
            assign_rows mm g slot mask rows = inr slot' →
            i ∉ mask → slot' !! i = slot !! i).
  { intros mm slot slot' mask rows (_ & Ho & _)%assign_rows_spec Hn.
    by apply Ho. }
  assert (Hret : ∀ mask cols (t t' : Tensor),
            scatter_retrieved g t mask src cols = inr t' →
            i ∉ mask → entry t' l i = entry t l i).
  { intros mask cols ta. revert l Hl. generalize src.
    induction ta as [|slot ta IH]; intros [|fields src'] l Hl t' Hs Hn;
      simpl in Hs; try (by injection Hs as <-).
    destruct (np_take_array fields cols) as [e|rows]; [done|].
    destruct (assign_rows _ _ slot _ _) as [e|slot'] eqn:Hs';
      [by destruct (scatter_retrieved g ta mask src' cols)|].
    destruct (scatter_retrieved g ta mask src' cols) as [e|t''] eqn:Ht;
      [done|].
    injection Hs as <-. destruct l as [|l]; unfold entry; simpl.
    - by eapply Hput.
    - destruct (decide (l < length (lagged ckpt))%nat) as [Hl'|Hl'].
      + by apply (IH src' l Hl' t'' Ht Hn).
      + apply (IH src' 0%nat) in Ht; [|lia|done]. clear IH.
        revert l Hl Hl'. intros; lia. }
  assert (Hcon : ∀ mask rows (t t' : Tensor),
            scatter_constants g t mask rows = inr t' →
            i ∉ mask → entry t' l i = entry t l i).
  { intros mask rows ta t' Hs%scatter_constants_inr Hn.
    apply (slotwise_assign numpy_mismatch g mask (λ _ rs, rs = rows)).
    - eapply slotwise_mono; [|exact Hs]. simpl. intros ??? ?. by exists rows.
    - done. }
  assert (Hfor : entry t l i = entry t3 l i).
  { clear -Ha HF Hput.
    assert (Hgen : ∀ n (ta tb : Tensor) trx,
              foldM (scatter_forcing_at env ckpt input_fields g start) ta
                (seq 0 n) = (trx, inr tb) →
              entry tb l i = entry ta l i).
    { induction n as [|n IH]; intros ta tb trx.
      - simpl. by intros [= _ <-].
      - rewrite seq_S, foldM_app. simpl.
        intros (tra & tm & trb & H1 & H2 & ->)%bind_inr.
        apply bind_inr in H2 as (? & tz & ? & H2 & [= <- <-] & ->).
        apply IH in H1. rewrite <-H1.
        apply scatter_forcing_at_inr in H2
          as (h & slot & slot' & _ & Hs & _ & Has & _ & ->).
        unfold entry. destruct (decide (l = n)) as [->|Hne].
        + rewrite Hs. rewrite list_lookup_insert_eq
            by (by eapply lookup_lt_Some). simpl. by eapply Hput.
        + by rewrite list_lookup_insert_ne. }
    by eapply Hgen. }
  rewrite Hfor, (Hcon _ _ _ _ H3 HC), (Hret _ _ _ _ H2 HK),
    (Hret _ _ _ _ H1 HP).
  by apply full_nan_entry.
Qed.

(** C6.  The tensor of an assembly that completes has the shape
    [(L, N, G)], and a position that no mask holds keeps the NaN of
    [np.full]; after a classification that succeeded there is no such
    position.  Retrieved fields are numbered, within a lag, in the order in
    which the input features (prognostic or constant from input) appear in
    the feature space.  For a mask without repeated indices, the feature
    at the position [j] of [prognostic_input_mask] (of
    [constants_from_input_mask]) holds at every lag the retrieved field of
    the [j]-th prognostic (constant) feature in ascending feature order:
    with ascending masks every input feature holds its own retrieved
    field, with a mask in another order it holds the field of another
    feature of its kind.  The computed-constant positions hold the rows of
    the one call of the data source for the start date, the same at every
    lag; the computed-forcing positions of the lag [l] hold the rows of the
    call for the start date plus [lagged[l]] hours; these calls, one for
    the constants and one per lag for the forcings, are all the calls
    made. *)
Theorem assembly_correct (ckpt : Checkpoint) (input_fields : list Field)
    (start_datetime : datetime) (g : nat) (rows : list Row)
    (src : list (list Row)) (c : Classification) (cols : list nat * list nat)
    (tr_c tr_m tr : list Event) (t : Tensor) :
  fields_to_numpy g input_fields = inr rows →
  reshape_lags (length (lagged ckpt)) g rows = inr src →
  classify ckpt = (tr_c, inr c) →
  retrieved_fields_masks c = (tr_m, inr cols) →
  assemble env ckpt c cols.1 cols.2 input_fields g src start_datetime
  = (tr, inr t) →
  let nlags := length (lagged ckpt) in
  let n := num_input_features ckpt in
  let r := (length input_fields / nlags)%nat in
  let prog := filter (λ i, i ∈ prognostic_input_mask ckpt) (seq 0 n) in
  let const := filter (λ i, i ∈ constants_from_input_mask ckpt) (seq 0 n) in
  let constants := cml_load_source env (take 1 input_fields) start_datetime
                     (computed_constants ckpt) in
  let forcings h := cml_load_source env (take 1 input_fields)
                      (start_datetime + timedelta_hours h)
                      (computed_forcings ckpt) in
  tensor_shape nlags n g t
  ∧ partition ckpt
  ∧ (∀ ckpt' c' pc cc (fields : list Field) g' src' start tr' (t' : Tensor)
       l i,
       assemble env ckpt' c' pc cc fields g' src' start = (tr', inr t') →
       (l < length (lagged ckpt'))%nat → (i < num_input_features ckpt')%nat →
       kinds_of ckpt' i = [] →
       entry t' l i = Some (replicate g' f32_nan))
  ∧ cols = (retrieved_index ckpt <$> prog, retrieved_index ckpt <$> const)
  ∧ (∀ i i', is_input ckpt i → (i < i')%nat →
       (retrieved_index ckpt i < retrieved_index ckpt i')%nat)
  ∧ (NoDup (prognostic_input_mask ckpt) →
     ∀ l j i, (l < nlags)%nat → prognostic_input_mask ckpt !! j = Some i →
       ∃ i', prog !! j = Some i'
         ∧ (retrieved_index ckpt i' < r)%nat
         ∧ entry t l i
           = values <$> input_fields !! (l * r + retrieved_index ckpt i')%nat)
  ∧ (NoDup (constants_from_input_mask ckpt) →
     ∀ l j i, (l < nlags)%nat →
       constants_from_input_mask ckpt !! j = Some i →
       ∃ i', const !! j = Some i'
         ∧ (retrieved_index ckpt i' < r)%nat
         ∧ entry t l i
           = values <$> input_fields !! (l * r + retrieved_index ckpt i')%nat)
  ∧ (StronglySorted lt (prognostic_input_mask ckpt) →
     prog = prognostic_input_mask ckpt)
  ∧ (StronglySorted lt (constants_from_input_mask ckpt) →
     const = constants_from_input_mask ckpt)
  ∧ (StronglySorted lt (prognostic_input_mask ckpt) →
     StronglySorted lt (constants_from_input_mask ckpt) →
     ∀ l i, (l < nlags)%nat → is_input ckpt i →
       (retrieved_index ckpt i < r)%nat
       ∧ entry t l i
         = values <$> input_fields !! (l * r + retrieved_index ckpt i)%nat)
  ∧ (NoDup (computed_constants_mask ckpt) →
     ∀ l j i, (l < nlags)%nat → computed_constants_mask ckpt !! j = Some i →
       entry t l i
       = constants !! broadcast_index (length (computed_constants ckpt))
                        (length (computed_constants_mask ckpt)) j)
  ∧ (NoDup (computed_forcings_mask ckpt) →
     ∀ l h j i, lagged ckpt !! l = Some h →
       computed_forcings_mask ckpt !! j = Some i →
       entry t l i
       = forcings h !! broadcast_index (length (computed_forcings ckpt))
                         (length (computed_forcings_mask ckpt)) j)
  ∧ omap load_source_call tr
    = (start_datetime, computed_constants ckpt)
      :: ((λ h, (start_datetime + timedelta_hours h, computed_forcings ckpt))
          <$> lagged ckpt).
Proof.
  intros Hrows Hsrc Hcl Hcols Ha nlags n r prog const constants forcings.
  apply classify_inr in Hcl as (_ & -> & Hp).
  assert (Hlen : length (check (classified ckpt)) = n).
  { unfold classified. cbn [check].
    by rewrite !np_put_length, length_replicate. }
  unfold retrieved_fields_masks in Hcols. rewrite Hlen in Hcols.
  rewrite (retrieved_loop ckpt n Hp) in Hcols by done.
  injection Hcols as <- <-. cbn [fst snd] in Ha. fold prog const in Ha.
  pose proof (partition_facts ckpt Hp) as [(HrC & HrK & HrF & HrP) Hdis].
  apply fields_to_numpy_inr in Hrows as [-> Hgrid].
  assert (Hlsrc : length src = nlags).
  { by apply (reshape_lags_lookup nlags g _ src 0 0) in Hsrc as [? _]. }
  pose proof Ha as Hraw.
  apply assemble_inr in Ha as (t1 & t2 & t3 & S1 & S2 & S3 & S4 & ->);
    [|done].
  apply slotwise_assign in S1 as (Sh1 & So1 & Sa1).
  apply slotwise_assign in S2 as (Sh2 & So2 & Sa2).
  apply slotwise_assign in S3 as (Sh3 & So3 & Sa3).
  apply slotwise_assign in S4 as (Sh4 & So4 & Sa4).
  pose proof (full_nan_shape (V:=V) nlags n g) as Sh0.
  assert (Hl1 : length t1 = nlags) by (by apply Sh1 in Sh0 as [? _]).
  assert (Hl2 : length t2 = nlags) by (by apply Sh1, Sh2 in Sh0 as [? _]).
  assert (Hl3 : length t3 = nlags) by (by apply Sh1, Sh2, Sh3 in Sh0 as [? _]).
  (* the row of a retrieved feature *)
  assert (Hret : ∀ l (mask feats : list nat) j rs,
            (l < nlags)%nat → length feats = length mask →
            (j < length mask)%nat →
            (∃ fields, src !! l = Some fields
               ∧ np_take_array fields (retrieved_index ckpt <$> feats)
                 = inr rs) →
            ∃ i', feats !! j = Some i'
              ∧ (retrieved_index ckpt i' < r)%nat
              ∧ rs !! broadcast_index (length rs) (length mask) j
                = values <$> input_fields
                               !! (l * r + retrieved_index ckpt i')%nat).
  { intros l mask feats j rs Hl Hfm Hj (fields & Hf & [_ Ht]%np_take_array_inr).
    assert (Hlrs : length rs = length mask).
    { apply Forall2_length in Ht. rewrite length_fmap in Ht. lia. }
    unfold broadcast_index. rewrite decide_True by done.
    destruct (lookup_lt_is_Some_2 feats j) as [i' Hi']; [lia|].
    exists i'. split; [done|].
    assert (Hc : (retrieved_index ckpt <$> feats) !! j
                 = Some (retrieved_index ckpt i'))
      by (by rewrite list_lookup_fmap, Hi').
    destruct (Forall2_lookup_l _ _ _ _ _ Ht Hc) as (row & Hrow & Hfr).
    rewrite Hrow, <-Hfr.
    assert (Hlf : length fields = r).
    { unfold reshape_lags in Hsrc.
      destruct (decide (length (lagged ckpt) = 0%nat)); [done|].
      destruct (decide _); [|done]. injection Hsrc as <-.
      rewrite list_lookup_fmap in Hf.
      apply fmap_Some in Hf as (l' & [-> Hl']%lookup_seq & ->).
      rewrite length_take, length_drop, length_fmap. fold nlags r.
      assert (nlags * r ≤ length input_fields)%nat
        by (apply Nat.Div0.mul_div_le).
      assert ((l + 1) * r ≤ nlags * r)%nat
        by (apply Nat.mul_le_mono_r; lia).
      simpl. lia. }
    assert (Hri : (retrieved_index ckpt i' < r)%nat).
    { rewrite <-Hlf. by eapply lookup_lt_Some. }
    split; [done|].
    apply (reshape_lags_lookup nlags g _ src l (retrieved_index ckpt i'))
      in Hsrc as [_ Hsrc].
    rewrite (Hsrc fields Hf) by lia.
    by rewrite length_fmap, list_lookup_fmap. }
  assert (HP : NoDup (prognostic_input_mask ckpt) →
     ∀ l j i, (l < nlags)%nat → prognostic_input_mask ckpt !! j = Some i →
       ∃ i', prog !! j = Some i'
         ∧ (retrieved_index ckpt i' < r)%nat
         ∧ entry t l i
           = values <$> input_fields !! (l * r + retrieved_index ckpt i')%nat).
  { intros Hnd l j i Hl Hj. specialize (Hdis i).
    assert (Hin : i ∈ prognostic_input_mask ckpt)
      by (by eapply list_elem_of_lookup_2).
    rewrite So4, So3, So2 by tauto.
    destruct (Sa1 Hnd l j i) as (rs & HQ & ->);
      [unfold full_nan; rewrite length_replicate; lia|done|].
    apply Hret; [done| |by eapply lookup_lt_Some|done].
    by apply Permutation_length, mask_filter_Permutation. }
  assert (HK : NoDup (constants_from_input_mask ckpt) →
     ∀ l j i, (l < nlags)%nat →
       constants_from_input_mask ckpt !! j = Some i →
       ∃ i', const !! j = Some i'
         ∧ (retrieved_index ckpt i' < r)%nat
         ∧ entry t l i
           = values <$> input_fields !! (l * r + retrieved_index ckpt i')%nat).
  { intros Hnd l j i Hl Hj. specialize (Hdis i).
    assert (Hin : i ∈ constants_from_input_mask ckpt)
      by (by eapply list_elem_of_lookup_2).
    rewrite So4, So3 by tauto.
    destruct (Sa2 Hnd l j i) as (rs & HQ & ->); [lia|done|].
    apply Hret; [done| |by eapply lookup_lt_Some|done].
    by apply Permutation_length, mask_filter_Permutation. }
  split_and!.
  - by apply Sh4, Sh3, Sh2, Sh1.
  - done.
  - intros ckpt' c' pc cc fields g' src' start tr' t' l i Ha' Hl Hi Hk.
    rewrite kinds_of_eq in Hk.
    apply (assemble_untouched _ _ _ _ _ _ _ _ _ _ _ _ Ha' Hl Hi);
      intros Hin; repeat destruct (decide (i ∈ _)); done.
  - done.
  - apply retrieved_index_mono.
  - done.
  - done.
  - intros Hs. by apply ascending_mask_filter.
  - intros Hs. by apply ascending_mask_filter.
  - intros HsP HsK l i Hl [Hin|Hin].
    + apply list_elem_of_lookup in Hin as [j Hj].
      destruct (HK (ascending_NoDup _ HsK) l j i Hl Hj) as (i' & Hi' & Hr & He).
      unfold const in Hi'. rewrite ascending_mask_filter in Hi' by done.
      assert (i' = i) as -> by congruence. done.
    + apply list_elem_of_lookup in Hin as [j Hj].
      destruct (HP (ascending_NoDup _ HsP) l j i Hl Hj) as (i' & Hi' & Hr & He).
      unfold prog in Hi'. rewrite ascending_mask_filter in Hi' by done.
      assert (i' = i) as -> by congruence. done.
  - intros Hnd l j i Hl Hj. specialize (Hdis i).
    assert (HC : i ∈ computed_constants_mask ckpt)
      by (by eapply list_elem_of_lookup_2).
    rewrite So4 by tauto.
    destruct (Sa3 Hnd l j i) as (rs & [-> Hlen'] & ->);
      [lia|done|]. by rewrite Hlen'.
  - intros Hnd l h j i Hh Hj.
    destruct (Sa4 Hnd l j i)
      as (rs & (h' & Hh' & -> & Hlen') & ->);
      [rewrite Hl3; by eapply lookup_lt_Some|done|].
    assert (h' = h) as -> by congruence. by rewrite Hlen'.
  - csimpl. f_equal.
    assert (Hcalls : ∀ l : list Z,
      omap load_source_call
        ((λ h, LoadSource (V:=V) (start_datetime + timedelta_hours h)
                 (computed_forcings ckpt)) <$> l)
      = (λ h, (start_datetime + timedelta_hours h, computed_forcings ckpt))
        <$> l).
    { intros l. induction l as [|h l IH]; csimpl; [done|]. by rewrite IH. }
    apply Hcalls.
Qed.

End Assembly.

(** ** The lag offsets of every checkpoint and the dates of the assembly *)

Lemma lagged_length (ckpt : Checkpoint) :
  length (lagged ckpt) = Z.to_nat (multi_step ckpt).
Proof.
  unfold lagged, py_sorted.
  rewrite (Permutation_length (merge_sort_Permutation _ _)).
  by rewrite length_fmap, py_range_length.
Qed.

Lemma lagged_sorted (ckpt : Checkpoint) : StronglySorted Z.le (lagged ckpt).
Proof. unfold lagged, py_sorted. apply StronglySorted_merge_sort; apply _. Qed.

Lemma lagged_multiples (ckpt : Checkpoint) :
  lagged ckpt ≡ₚ (λ s, - s * hour_steps ckpt) <$> py_range (multi_step ckpt).
Proof. unfold lagged, py_sorted. apply merge_sort_Permutation. Qed.

(** With negative steps the offsets are computed in ascending order, and
    sorting leaves them as they are. *)
Lemma lagged_backward (ckpt : Checkpoint) :
  hour_steps ckpt < 0 →
  lagged ckpt
  = (λ j : nat, Z.of_nat j * - hour_steps ckpt)
    <$> seq 0 (Z.to_nat (multi_step ckpt)).
Proof.
  intros Hh. unfold lagged, py_sorted.
  apply (StronglySorted_unique Z.le).
  - apply StronglySorted_merge_sort; apply _.
  - generalize 0%nat as a.
    induction (Z.to_nat (multi_step ckpt)) as [|n IH]; intros a; simpl;
      constructor; [apply IH|].
    apply Forall_fmap, Forall_seq. intros j Hj. simpl. nia.
  - rewrite merge_sort_Permutation. unfold py_range.
    rewrite <-list_fmap_compose.
    erewrite list_fmap_ext; [reflexivity|].
    intros i x _. simpl. lia.
Qed.

Lemma lagged_spacing (ckpt : Checkpoint) (i : nat) (h h' : Z) :
  lagged ckpt !! i = Some h → lagged ckpt !! S i = Some h' →
  h' - h = Z.abs (hour_steps ckpt).
Proof.
  destruct (decide (0 ≤ hour_steps ckpt)) as [Hh|Hh].
  - rewrite lagged_closed_form by done. unfold lag_offsets.
    rewrite !list_lookup_fmap.
    intros (j & [-> _]%lookup_seq & ->)%fmap_Some
           (j' & [-> _]%lookup_seq & ->)%fmap_Some. simpl. lia.
  - rewrite lagged_backward by lia.
    rewrite !list_lookup_fmap.
    intros (j & [-> _]%lookup_seq & ->)%fmap_Some
           (j' & [-> _]%lookup_seq & ->)%fmap_Some. simpl. lia.
Qed.

Section AssemblyDates.

Context {V : Type} `{Float32 V}.
Variable env : Collaborators V.

Local Abbreviation Event := (Event V).
Local Abbreviation Field := (Field V).
Local Abbreviation Tensor := (Tensor V).
Local Abbreviation Row := (Row V).

Lemma scatter_retrieved_length (g : nat) (t : Tensor) (mask : list nat)
    (src : list (list Row)) (cols : list nat) (t' : Tensor) :
  scatter_retrieved g t mask src cols = inr t' → length t' = length t.
Proof.
  revert src t'. induction t as [|slot t IH]; intros [|fields src] t';
    simpl; try (by intros [= <-]).
  destruct (np_take_array fields cols) as [e|rows]; [done|].
  destruct (assign_rows _ _ slot _ _) as [e|slot'];
    [by destruct (scatter_retrieved g t mask src cols)|].
  destruct (scatter_retrieved g t mask src cols) as [e|t''] eqn:Ht; [done|].
  intros [= <-]. simpl. f_equal. by eapply IH.
Qed.

(** The forcing loop of an assembly that completes: its calls and what it
    leaves in the slots. *)
Lemma assemble_forcings ckpt c pc cc (input_fields : list Field) g src start
    tr (t : Tensor) :
  assemble env ckpt c pc cc input_fields g src start = (tr, inr t) →
  let forcings h := cml_load_source env (take 1 input_fields)
                      (start + timedelta_hours h) (computed_forcings ckpt) in
  tr = LoadSource start (computed_constants ckpt)
       :: ((λ h, LoadSource (start + timedelta_hours h)
                   (computed_forcings ckpt)) <$> lagged ckpt)
  ∧ length t = length (lagged ckpt)
  ∧ ∀ l h, lagged ckpt !! l = Some h →
      ∃ slot slot', t !! l = Some slot'
        ∧ assign_rows numpy_mismatch g slot (computed_forcings_mask ckpt)
            (forcings h) = inr slot'
        ∧ length (forcings h) = length (computed_forcings ckpt).
Proof.
  intros Ha forcings. unfold assemble in Ha.
  apply bind_inr in Ha as (? & t1 & tr1 & [H1 ->]%lift_inr & Ha & ->).
  apply bind_inr in Ha as (? & t2 & tr2 & [H2 ->]%lift_inr & Ha & ->).
  apply bind_inr in Ha as (trc & cs & tr3 & Hc & Ha & ->).
  apply bind_inr in Ha as (? & t3 & tr4 & [H3 ->]%lift_inr & Ha & ->).
  apply forcing_and_constants_inr in Hc as (-> & -> & _).
  apply scatter_retrieved_length in H1, H2.
  apply scatter_constants_inr in H3 as [H3 _].
  assert (Hl3 : length t3 = length (lagged ckpt)).
  { rewrite H3, H2, H1. unfold full_nan. by rewrite length_replicate. }
  apply forcing_loop in Ha as (-> & _ & Hl4 & _ & Hlt).
  split_and!.
  - simpl. by rewrite firstn_all.
  - lia.
  - intros l h Hh.
    destruct (lookup_lt_is_Some_2 t3 l) as [slot Hs].
    { rewrite Hl3. by eapply lookup_lt_Some. }
    destruct (Hlt l slot) as (h' & slot' & Hh' & Hs' & Has & Hlen);
      [by eapply lookup_lt_Some|done|].
    assert (h' = h) as -> by congruence. by exists slot, slot'.
Qed.

Lemma omap_load_source_calls (start : datetime) (param : list string)
    (l : list Z) :
  omap load_source_call
    ((λ h, LoadSource (V:=V) (start + timedelta_hours h) param) <$> l)
  = (λ h, (start + timedelta_hours h, param)) <$> l.
Proof. induction l as [|h l IH]; csimpl; [done|]. by rewrite IH. Qed.

(** C10.  For every checkpoint the lag offsets are the multiples
    [-s * hour_steps], [s = 0 .. multi_step - 1], in non-descending order:
    the list has [max(0, multi_step)] elements and consecutive offsets are
    [|hour_steps|] apart.  With [hour_steps >= 0] it is
    [[-(multi_step-1)*hour_steps, ..., -hour_steps, 0]], all offsets are
    non-positive and, with [multi_step >= 1], the last and largest is [0];
    with [hour_steps < 0] it is [[0, -hour_steps, ...,
    -(multi_step-1)*hour_steps]], whose last offset is positive from
    [multi_step = 2] on.  An assembly that completes calls the data source
    once for the constants at the start date and then once per lag slot,
    in the order of the slots, at the start date plus the offset of the
    slot; the dates of consecutive slots are [|hour_steps|] hours apart,
    and the rows of the call of a slot are what the slot holds at the
    computed-forcing positions (for a mask without repeated indices); with
    [hour_steps >= 0] and [multi_step >= 1] the call of the newest slot is
    made at the start date itself, with [hour_steps < 0] and
    [multi_step >= 2] at a later date. *)
Theorem lagged_offsets_and_dates (ckpt : Checkpoint) :
  let hs := hour_steps ckpt in
  let ms := multi_step ckpt in
  let nlags := length (lagged ckpt) in
  nlags = Z.to_nat ms
  ∧ StronglySorted Z.le (lagged ckpt)
  ∧ lagged ckpt ≡ₚ (λ s, - s * hs) <$> py_range ms
  ∧ (∀ i h h', lagged ckpt !! i = Some h → lagged ckpt !! S i = Some h' →
       h' - h = Z.abs hs)
  ∧ (0 ≤ hs →
       lagged ckpt = lag_offsets ckpt
       ∧ Forall (λ h, h ≤ 0 ∧ ∃ s, 0 ≤ s ∧ h = - s * hs) (lagged ckpt)
       ∧ (0 < ms → last (lagged ckpt) = Some 0
                   ∧ ∀ start, lag_date ckpt start (nlags - 1) = inr start))
  ∧ (hs < 0 →
       lagged ckpt = (λ j : nat, Z.of_nat j * - hs) <$> seq 0 (Z.to_nat ms)
       ∧ Forall (λ h, 0 ≤ h) (lagged ckpt)
       ∧ (1 < ms → ∃ h, last (lagged ckpt) = Some h ∧ 0 < h))
  ∧ ∀ c pc cc (input_fields : list Field) g src start tr (t : Tensor),
      assemble env ckpt c pc cc input_fields g src start = (tr, inr t) →
      let calls := omap load_source_call tr in
      let forcings d := cml_load_source env (take 1 input_fields) d
                          (computed_forcings ckpt) in
      calls = (start, computed_constants ckpt)
              :: ((λ h, (start + timedelta_hours h, computed_forcings ckpt))
                  <$> lagged ckpt)
      ∧ (∀ l d, calls !! S l = Some d →
           lag_date ckpt start l = inr d.1 ∧ d.2 = computed_forcings ckpt)
      ∧ (∀ l d d', calls !! S l = Some d → calls !! S (S l) = Some d' →
           d'.1 - d.1 = timedelta_hours (Z.abs hs))
      ∧ (0 ≤ hs → 0 < ms →
           calls !! nlags = Some (start, computed_forcings ckpt))
      ∧ (hs < 0 → 1 < ms → ∃ d, calls !! nlags = Some d ∧ start < d.1)
      ∧ (NoDup (computed_forcings_mask ckpt) →
         ∀ l d j i, lag_date ckpt start l = inr d →
           computed_forcings_mask ckpt !! j = Some i →
           entry t l i
           = forcings d !! broadcast_index (length (computed_forcings ckpt))
                             (length (computed_forcings_mask ckpt)) j).
Proof.
  intros hs ms nlags.
  assert (Hlast : 0 ≤ hs → 0 < ms → lagged ckpt !! (nlags - 1)%nat = Some 0).
  { intros Hh Hm. unfold nlags. rewrite lagged_closed_form by done.
    unfold lag_offsets. rewrite length_fmap, length_seq.
    rewrite list_lookup_fmap, lookup_seq_lt by (fold ms; lia).
    simpl. f_equal. fold ms.
    assert (Z.of_nat (Z.to_nat ms - 1) = ms - 1) as -> by lia. lia. }
  assert (Hback : hs < 0 → 1 < ms →
            ∃ h, last (lagged ckpt) = Some h ∧ 0 < h).
  { intros Hh Hm. rewrite lagged_backward by done. fold hs ms.
    exists (Z.of_nat (Z.to_nat ms - 1) * - hs). split; [|nia].
    rewrite last_lookup, length_fmap, length_seq, list_lookup_fmap.
    rewrite lookup_seq_lt by lia. simpl. do 2 f_equal. lia. }
  split_and!.
  - apply lagged_length.
  - apply lagged_sorted.
  - apply lagged_multiples.
  - apply lagged_spacing.
  - intros Hh. split_and!.
    + by apply lagged_closed_form.
    + rewrite lagged_closed_form by done. unfold lag_offsets.
      apply Forall_fmap, Forall_seq. intros j Hj. simpl. fold hs ms.
      split; [nia|]. exists (ms - 1 - Z.of_nat j). split; [lia|done].
    + intros Hm. specialize (Hlast Hh Hm). split.
      * rewrite last_lookup. fold nlags.
        by replace (pred nlags) with (nlags - 1)%nat by lia.
      * intros start. unfold lag_date, py_index. rewrite Hlast.
        unfold timedelta_hours. f_equal. lia.
  - intros Hh. split; [by apply lagged_backward|]. split.
    { rewrite lagged_backward by done.
      apply Forall_fmap, Forall_seq. intros j Hj. simpl. fold hs. nia. }
    by apply Hback.
  - intros c pc cc input_fields g src start tr t Ha calls forcings.
    apply assemble_forcings in Ha as (Htr & Hlen & Hslots).
    assert (Hcalls : calls
              = (start, computed_constants ckpt)
                :: ((λ h, (start + timedelta_hours h, computed_forcings ckpt))
                    <$> lagged ckpt)).
    { unfold calls. rewrite Htr. csimpl. by rewrite omap_load_source_calls. }
    assert (Hcall : ∀ l d, calls !! S l = Some d →
              ∃ h, lagged ckpt !! l = Some h
                   ∧ d = (start + timedelta_hours h, computed_forcings ckpt)).
    { intros l d. rewrite Hcalls. simpl. rewrite list_lookup_fmap.
      intros (h & ? & ->)%fmap_Some. by exists h. }
    split_and!.
    + done.
    + intros l d (h & Hh & ->)%Hcall. unfold lag_date, py_index.
      by rewrite Hh.
    + intros l d d' (h & Hh & ->)%Hcall (h' & Hh' & ->)%Hcall. simpl.
      pose proof (lagged_spacing _ _ _ _ Hh Hh'). fold hs in H0.
      unfold timedelta_hours. lia.
    + intros Hh Hm. specialize (Hlast Hh Hm).
      assert (0 < nlags)%nat by (by apply lookup_lt_Some in Hlast; lia).
      rewrite Hcalls. replace nlags with (S (nlags - 1)) at 1 by lia.
      simpl. rewrite list_lookup_fmap, Hlast. simpl.
      unfold timedelta_hours. do 2 f_equal. lia.
    + intros Hh Hm. destruct (Hback Hh Hm) as (h & Hl & Hpos).
      rewrite last_lookup in Hl. fold nlags in Hl.
      assert (0 < nlags)%nat.
      { pose proof (lagged_length ckpt) as Hn. fold nlags ms in Hn. lia. }
      exists (start + timedelta_hours h, computed_forcings ckpt).
      split; [|unfold timedelta_hours; simpl; lia].
      rewrite Hcalls. replace nlags with (S (pred nlags)) at 1 by lia.
      simpl. by rewrite list_lookup_fmap, Hl.
    + intros Hnd l d j i Hd Hj. unfold lag_date, py_index in Hd.
      destruct (lagged ckpt !! l) as [h|] eqn:Hh; [|done].
      injection Hd as <-.
      destruct (Hslots l h Hh) as (slot & slot' & Hs' & Has & Hfl).
      unfold entry. rewrite Hs'. simpl.
      apply assign_rows_spec in Has as (_ & _ & Hat & _).
      rewrite (Hat Hnd j i Hj). unfold forcings. by rewrite Hfl.
Qed.

End AssemblyDates.

(** ** The accumulation of the diagnostics *)

Lemma enumerate_snoc {A} (l : list A) (x : A) :
  enumerate (l ++ [x]) = enumerate l ++ [(length l, x)].
Proof.
  unfold enumerate. rewrite length_app. simpl. rewrite seq_app. simpl.
  rewrite zip_with_app by (by rewrite length_seq). done.
Qed.

Section Accumulation.

Context {V : Type} `{Float32 V}.
Variable env : Collaborators V.

Local Abbreviation Event := (Event V).
Local Abbreviation Scope := (Scope V).
Local Abbreviation Field := (Field V).
Local Abbreviation Tensor := (Tensor V).
Local Abbreviation Row := (Row V).

Lemma iadd_maximum0_inr (row v row' : Row) :
  iadd_maximum0 row v = inr row' →
  length v = length row ∧ row' = np_add row (np_maximum0 v).
Proof.
  unfold iadd_maximum0. destruct (decide _); [|done]. by intros [= <-].
Qed.

Lemma accumulate_inr tpl mr df step acc (np : nat * string) tr acc' :
  accumulate (V:=V) tpl mr df step acc np = (tr, inr acc') →
  ∃ row v, acc !! np.1 = Some row ∧ df !! np.1 = Some v
    ∧ length v = length row
    ∧ acc' = <[np.1 := np_add row (np_maximum0 v)]> acc
    ∧ tr = [CallbackAccum (np_add row (np_maximum0 v)) tpl 0 step np.2 true].
Proof.
  unfold accumulate, py_index.
  intros (? & row & ? & [Hr ->]%lift_inr & Ha & ->)%bind_inr.
  apply bind_inr in Ha as (? & v & ? & [Hv ->]%lift_inr & Ha & ->).
  apply bind_inr in Ha as (? & row' & ? & [Hi ->]%lift_inr & Ha & ->).
  apply bind_inr in Ha as (? & [] & ? & [_ ->]%py_assert_inr & Ha & ->).
  apply bind_inr in Ha as (? & [] & ? & [= <-] & [= <- <-] & ->).
  apply iadd_maximum0_inr in Hi as [Hlen ->].
  destruct (acc !! np.1) as [row0|]; [|done]. injection Hr as ->.
  destruct (df !! np.1) as [v0|]; [|done]. injection Hv as ->.
  by exists row, v.
Qed.

Lemma accumulate_loop tpl mr df step acc (params : list string) tr acc' :
  foldM (accumulate (V:=V) tpl mr df step) acc (enumerate params)
  = (tr, inr acc') →
  length acc' = length acc
  ∧ (∀ n, (length params ≤ n)%nat → acc' !! n = acc !! n)
  ∧ (∀ n, (n < length params)%nat →
       ∃ row v, acc !! n = Some row ∧ df !! n = Some v
         ∧ length v = length row
         ∧ acc' !! n = Some (np_add row (np_maximum0 v)))
  ∧ tr = (λ np : nat * string,
            CallbackAccum (default [] (acc' !! np.1)) tpl 0 step np.2 true)
         <$> enumerate params.
Proof.
  revert tr acc'. induction params as [|p params IH] using rev_ind;
    intros tr acc'.
  - simpl. intros [= <- <-]. split_and!; try done. intros; simpl in *; lia.
  - rewrite enumerate_snoc, foldM_app.
    intros (tr1 & acc1 & tr2 & H1 & H2 & ->)%bind_inr.
    simpl in H2.
    apply bind_inr in H2 as (tr3 & acc2 & ? & H2 & [= <- <-] & ->).
    rewrite app_nil_r.
    apply IH in H1 as (Hlen & Hge & Hlt & ->).
    apply accumulate_inr in H2 as (row & v & Hr & Hv & Hl & -> & ->).
    simpl in *. rewrite length_app. simpl.
    assert (Hn : (length params < length acc1)%nat)
      by (by eapply lookup_lt_Some).
    split_and!.
    + by rewrite length_insert.
    + intros n Hn'. rewrite list_lookup_insert_ne by lia. apply Hge. lia.
    + intros n Hn'. destruct (decide (n = length params)) as [->|Hne].
      * exists row, v. rewrite <-Hge by lia.
        split_and!; try done. by apply list_lookup_insert_eq.
      * rewrite list_lookup_insert_ne by done. apply Hlt. lia.
    + rewrite fmap_app. simpl. f_equal.
      * apply list_fmap_ext. intros k [n q] Hk%enumerate_lookup. simpl.
        destruct Hk as [-> Hq%lookup_lt_Some].
        by rewrite list_lookup_insert_ne by lia.
      * by rewrite list_lookup_insert_eq.
Qed.

Lemma accumulated_snoc (g : nat) (vs : list Row) (v : Row) :
  accumulated g (vs ++ [v]) = np_add (accumulated g vs) (np_maximum0 v).
Proof. unfold accumulated. by rewrite fmap_app, foldl_app. Qed.

Lemma omap_accum_emission_fields step (l : list Event) :
  Forall (field_event_at step) l → omap accum_emission l = [].
Proof.
  induction 1 as [|e l (d & t & ->) _ IH]; [done|]. csimpl. by rewrite IH.
Qed.

Lemma squeezed_columns_inr (g : nat) (y : list Row) (mask : list nat) df :
  squeezed_columns g y mask = inr df →
  g ≠ 1%nat ∧ length y ≠ 1%nat ∧ np_take y mask = inr df.
Proof.
  unfold squeezed_columns. destruct (decide _) as [|Hn]; [done|].
  intros ->. split_and!; [| |done]; intros ?; apply Hn; auto.
Qed.

Lemma rollout_accumulation (sc : Scope) (t0 : Tensor) (m : nat)
    (tr : list Event) (t : Tensor) (acc : list Row) :
  let ckpt := sc_ckpt sc in
  let g := sc_gridpoints sc in
  foldM (rollout_step env sc)
    (t0, replicate (length (diagnostic_output_mask ckpt))
           (replicate g f32_zero))
    (Z.of_nat <$> seq 0 m) = (tr, inr (t, acc)) →
  length (outputs env tr) = m
  ∧ length acc = length (diagnostic_output_mask ckpt)
  ∧ (∀ n row, acc !! n = Some row →
       row = if decide (diagnostic_output_mask ckpt ≠ []
                        ∧ (n < length (diagnostic_params ckpt))%nat)
             then accumulated g (diagnostic_rows ckpt (outputs env tr) n)
             else replicate g f32_zero)
  ∧ omap accum_emission tr = accumulation_law ckpt g (outputs env tr) m.
Proof.
  intros ckpt g. revert tr t acc. induction m as [|m IH]; intros tr t acc.
  - simpl. intros [= <- <- <-]. unfold accumulation_law.
    split_and!; simpl.
    + done.
    + by rewrite length_replicate.
    + intros n row [-> _]%lookup_replicate. by destruct (decide _).
    + by destruct (bool_decide _).
  - rewrite seq_S, fmap_app, list_fmap_singleton, foldM_snoc. simpl (0 + m)%nat.
    intros (tr1 & [t1 acc1] & tr2 & H1 & H2 & ->)%bind_inr.
    apply IH in H1 as (Hlen & Hacc & Hrows & Hem). clear IH.
    pose proof (rollout_step_numbers_step env _ _ _ _ _ H2) as [_ Hpred].
    simpl in Hpred.
    apply rollout_step_inr in H2
      as (fields & accums & pfs & Htr2 & Hf & _ & Hd & _).
    fold ckpt g in Hd.
    assert (Hout : outputs env (tr1 ++ tr2)
                   = outputs env tr1 ++ [predict_step env t1]).
    { unfold outputs. by rewrite omap_app, Hpred, fmap_app. }
    rewrite Hout. clear Hpred.
    assert (Hem2 : omap accum_emission tr2 = omap accum_emission accums).
    { rewrite Htr2. csimpl. rewrite !omap_app. csimpl.
      by rewrite (omap_accum_emission_fields _ _ Hf), app_nil_r. }
    rewrite omap_app, Hem, Hem2. clear Hem Hem2 Htr2 Hout.
    set (ys := outputs env tr1) in *. set (y := predict_step env t1) in *.
    assert (Hlaw : accumulation_law ckpt g (ys ++ [y]) (S m)
              = accumulation_law ckpt g ys m
                ++ if bool_decide (diagnostic_output_mask ckpt = []) then []
                   else (λ np : nat * string,
                           (step_of ckpt (Z.of_nat m), np.2,
                            accumulated g
                              (diagnostic_rows ckpt (ys ++ [y]) np.1)))
                        <$> enumerate (diagnostic_params ckpt)).
    { unfold accumulation_law.
      destruct (bool_decide _); [done|].
      rewrite seq_S, bind_app. simpl (0 + m)%nat. f_equal.
      - apply Forall_bind_ext, Forall_seq. intros k Hk.
        by rewrite take_app_le by lia.
      - rewrite bind_singleton. rewrite firstn_all2; [done|].
        rewrite length_app. simpl. lia. }
    rewrite Hlaw. clear Hlaw.
    assert (Hsnoc : ∀ n, diagnostic_rows ckpt (ys ++ [y]) n
              = diagnostic_rows ckpt ys n ++ [diagnostic_row ckpt y n])
      by (intros n; unfold diagnostic_rows; by rewrite fmap_app).
    destruct (bool_decide (diagnostic_output_mask ckpt = [])) eqn:Hdiag.
    { destruct Hd as [-> ->]. apply bool_decide_eq_true in Hdiag.
      split_and!.
      - rewrite length_app. simpl. lia.
      - done.
      - intros n row Hn. rewrite (Hrows n row Hn).
        rewrite !decide_False; [done|tauto..].
      - reflexivity. }
    apply bool_decide_eq_false in Hdiag.
    destruct Hd as (df & (_ & _ & Hdf%np_take_inr)%squeezed_columns_inr & Hloop).
    apply accumulate_loop in Hloop as (Hlacc & Hge & Hlt & ->).
    assert (Hnew : ∀ n row, acc !! n = Some row →
              row = if decide (diagnostic_output_mask ckpt ≠ []
                               ∧ (n < length (diagnostic_params ckpt))%nat)
                    then accumulated g (diagnostic_rows ckpt (ys ++ [y]) n)
                    else replicate g f32_zero).
    { intros n row Hn.
      destruct (decide (n < length (diagnostic_params ckpt))%nat) as [Hp|Hp].
      - rewrite decide_True by done.
        destruct (Hlt n Hp) as (row0 & v & Hr0 & Hv & _ & Hn').
        rewrite Hn' in Hn. injection Hn as <-.
        rewrite Hsnoc, accumulated_snoc. f_equal.
        + rewrite (Hrows n row0 Hr0). by rewrite decide_True.
        + f_equal. unfold diagnostic_row.
          destruct (Forall2_lookup_r _ _ _ _ _ Hdf Hv) as (i & -> & Hy).
          simpl. by rewrite Hy.
      - rewrite decide_False by tauto. rewrite Hge in Hn by lia.
        rewrite (Hrows n row Hn). by rewrite decide_False by tauto. }
    split_and!.
    + rewrite length_app. simpl. lia.
    + lia.
    + done.
    + f_equal. apply omap_fmap_Some.
      intros [n p] [k Hk]%list_elem_of_lookup. simpl.
      apply enumerate_lookup in Hk as [-> Hp%lookup_lt_Some]. do 2 f_equal.
      destruct (lookup_lt_is_Some_2 acc k) as [row Hrow].
      { destruct (Hlt k Hp) as (? & ? & _ & _ & _ & Hn').
        by eapply lookup_lt_Some. }
      rewrite Hrow. simpl. rewrite (Hnew k row Hrow).
      by rewrite decide_True.
Qed.

(** *** The accumulation emissions of a run that raises *)

Lemma enumerate_take {A} (l : list A) (k : nat) :
  take k (enumerate l) = enumerate (take k l).
Proof.
  unfold enumerate. rewrite zip_with_take, take_seq, length_take. done.
Qed.

(** The rows that the loop over the diagnostic parameters hands to the
    callback, for the accumulator [acc] at its start and the columns [df]
    of the output. *)
Lemma accumulate_loop_any tpl mr (df : list Row) step (acc : list Row)
    (params : list string) :
  let x := foldM (accumulate (V:=V) tpl mr df step) acc (enumerate params) in
  let full := (λ np : nat * string,
                 (step, np.2,
                  np_add (default [] (acc !! np.1))
                    (np_maximum0 (default [] (df !! np.1)))))
              <$> enumerate params in
  omap accum_emission x.1 `prefix_of` full
  ∧ ∀ acc', x.2 = inr acc' → omap accum_emission x.1 = full.
Proof.
  intros x full.
  assert (Hok : ∀ (ps : list string) tr acc',
            foldM (accumulate (V:=V) tpl mr df step) acc (enumerate ps)
            = (tr, inr acc') →
            omap accum_emission tr
            = (λ np : nat * string,
                 (step, np.2,
                  np_add (default [] (acc !! np.1))
                    (np_maximum0 (default [] (df !! np.1)))))
              <$> enumerate ps).
  { intros ps tr acc' (_ & _ & Hlt & ->)%accumulate_loop.
    rewrite (omap_fmap_Some _ _
               (λ np : nat * string,
                  (step, np.2, default [] (acc' !! np.1)))) by done.
    apply list_fmap_ext. intros k [n p] [-> Hp]%enumerate_lookup. simpl.
    destruct (Hlt k) as (row & v & -> & -> & _ & ->);
      [by eapply lookup_lt_Some|]. done. }
  destruct x as [tr [e|acc']] eqn:Hx; unfold x in Hx; simpl.
  - split; [|done].
    apply foldM_inl in Hx
      as (l1 & a & l2 & tr1 & acc1 & tr2 & Hl & H1 & H2 & ->).
    assert (Hl1 : l1 = enumerate (take (length l1) params)).
    { rewrite <-enumerate_take, Hl. by rewrite take_app_length. }
    rewrite Hl1 in H1. apply Hok in H1.
    assert (tr2 = []) as ->.
    { destruct (accumulate_any (V:=V) tpl mr df step acc1 a)
        as [[Hn _]|(r & a' & Hy)]; rewrite H2 in *; [done|done]. }
    rewrite app_nil_r, H1, <-Hl1. unfold full. rewrite Hl, fmap_app.
    by apply prefix_app_r.
  - split; [|intros ? _]; rewrite (Hok _ _ _ Hx); done.
Qed.

Lemma np_take_default (y : list Row) (mask : list nat) (df : list Row)
    (n : nat) :
  np_take y mask = inr df →
  default [] (df !! n) = default [] (mask !! n ≫= (y !!.)).
Proof.
  intros Ht%np_take_inr.
  destruct (mask !! n) as [i|] eqn:Hi; simpl.
  - destruct (Forall2_lookup_l _ _ _ _ _ Ht Hi) as (row & -> & ->). done.
  - apply Forall2_length in Ht.
    rewrite (lookup_ge_None_2 df); [done|].
    apply lookup_ge_None in Hi. lia.
Qed.

(** The accumulation emissions of a step, whatever its outcome, are the
    beginning of those of a step that returns. *)
Lemma rollout_step_accumulation_any (sc : Scope) (t : Tensor)
    (acc : list Row) (i : Z) :
  let ckpt := sc_ckpt sc in
  let y := predict_step env t in
  omap accum_emission (rollout_step env sc (t, acc) i).1
  `prefix_of`
    if bool_decide (diagnostic_output_mask ckpt = []) then []
    else (λ np : nat * string,
            (step_of ckpt i, np.2,
             np_add (default [] (acc !! np.1))
               (np_maximum0 (diagnostic_row ckpt y np.1))))
         <$> enumerate (diagnostic_params ckpt).
Proof.
  intros ckpt y.
  set (full := if bool_decide (diagnostic_output_mask ckpt = []) then []
               else (λ np : nat * string,
                       (step_of ckpt i, np.2,
                        np_add (default [] (acc !! np.1))
                          (np_maximum0 (diagnostic_row ckpt y np.1))))
                    <$> enumerate (diagnostic_params ckpt)).
  change full with ([] ++ [] ++ [] ++ [] ++ full).
  unfold rollout_step. cbv zeta. cbn [fst snd].
  apply bind_omap_prefix; [done|]. intros _ _. split; [done|].
  apply bind_omap_prefix; [done|]. intros pf _. split; [done|].
  destruct (bool_decide (diagnostic_output_mask (sc_ckpt sc) = []))
    eqn:Hdiag; cbn [negb].
  - unfold ret at 1. rewrite bind_nil_inr. 
    rewrite <-(app_nil_r full).
    assert (Hfull : full = []) by (unfold full, ckpt; by rewrite Hdiag).
    rewrite Hfull. change (@nil (Z * string * Row))
      with (@nil (Z * string * Row) ++ [] ++ [] ++ [] ++ []).
    apply bind_omap_prefix.
    { rewrite omap_none; [done|]. apply foldM_Forall. intros _ nm.
      destruct (emit_prognostic_any (V:=V) (sc_reference_fields sc)
                  (sc_most_recent_datetime sc) pf (step_of (sc_ckpt sc) i)
                  (nm.1, nm.2.1)) as [[-> _]|(d & tp & ->)];
        by repeat constructor. }
    intros u _. split.
    { rewrite omap_none; [done|]. apply foldM_Forall. intros _ nm.
      destruct (emit_prognostic_any (V:=V) (sc_reference_fields sc)
                  (sc_most_recent_datetime sc) pf (step_of (sc_ckpt sc) i)
                  (nm.1, nm.2.1)) as [[-> _]|(d & tp & ->)];
        by repeat constructor. }
    unfold ret at 1. rewrite bind_nil_inr.
    apply bind_omap_prefix; [done|]. intros ? _. split; [done|].
    apply bind_omap_prefix;
      [by rewrite forcing_and_constants_trace|].
    intros ? _. split; [by rewrite forcing_and_constants_trace|].
    by destruct (advance _ _ _ _ _).
  - apply bind_omap_prefix; [done|]. intros df Hdf. split; [done|].
    apply lift_inr_2 in Hdf.
    apply squeezed_columns_inr in Hdf as (_ & _ & Hdf).
    assert (Hfull : full
              = (λ np : nat * string,
                   (step_of (sc_ckpt sc) i, np.2,
                    np_add (default [] (acc !! np.1))
                      (np_maximum0 (default [] (df !! np.1)))))
                <$> enumerate (diagnostic_params (sc_ckpt sc))).
    { unfold full, ckpt. rewrite Hdiag. apply list_fmap_ext.
      intros k [n p] _. simpl. do 3 f_equal. unfold diagnostic_row.
      symmetry. by apply np_take_default. }
    apply bind_omap_prefix.
    { rewrite omap_none; [done|]. apply foldM_Forall. intros _ nm.
      destruct (emit_prognostic_any (V:=V) (sc_reference_fields sc)
                  (sc_most_recent_datetime sc) pf (step_of (sc_ckpt sc) i)
                  (nm.1, nm.2.1)) as [[-> _]|(d & tp & ->)];
        by repeat constructor. }
    intros u _. split.
    { rewrite omap_none; [done|]. apply foldM_Forall. intros _ nm.
      destruct (emit_prognostic_any (V:=V) (sc_reference_fields sc)
                  (sc_most_recent_datetime sc) pf (step_of (sc_ckpt sc) i)
                  (nm.1, nm.2.1)) as [[-> _]|(d & tp & ->)];
        by repeat constructor. }
    rewrite <-(app_nil_r full), Hfull.
    pose proof (accumulate_loop_any (sc_precip_template sc)
                  (sc_most_recent_datetime sc) df (step_of (sc_ckpt sc) i)
                  acc (diagnostic_params (sc_ckpt sc))) as [Hpre Hall].
    apply bind_omap_prefix; [exact Hpre|].
    intros acc' Hacc'. split; [by apply (Hall acc')|].
    change (@nil (Z * string * Row))
      with (@nil (Z * string * Row) ++ [] ++ []).
    apply bind_omap_prefix; [done|]. intros ? _. split; [done|].
    apply bind_omap_prefix;
      [by rewrite forcing_and_constants_trace|].
    intros ? _. split; [by rewrite forcing_and_constants_trace|].
    by destruct (advance _ _ _ _ _).
Qed.

Lemma accumulation_law_snoc (ckpt : Checkpoint) (g : nat)
    (ys : list (list Row)) (y : list Row) :
  accumulation_law ckpt g (ys ++ [y]) (S (length ys))
  = accumulation_law ckpt g ys (length ys)
    ++ if bool_decide (diagnostic_output_mask ckpt = []) then []
       else (λ np : nat * string,
               (step_of ckpt (Z.of_nat (length ys)), np.2,
                accumulated g (diagnostic_rows ckpt (ys ++ [y]) np.1)))
            <$> enumerate (diagnostic_params ckpt).
Proof.
  unfold accumulation_law.
  destruct (bool_decide _); [done|].
  rewrite seq_S, bind_app. simpl (0 + length ys)%nat. f_equal.
  - apply Forall_bind_ext, Forall_seq. intros k Hk.
    by rewrite take_app_le by lia.
  - rewrite bind_singleton. rewrite firstn_all2; [done|].
    rewrite length_app. simpl. lia.
Qed.

Lemma np_add_nil_r (a : Row) : np_add (V:=V) a [] = [].
Proof. unfold np_add. by destruct a. Qed.

(** Whatever the outcome of the loop of the rollout, its accumulation
    emissions are the beginning of the sums of the law over the outputs of
    the model so far. *)
Lemma rollout_accumulation_any (sc : Scope) (t0 : Tensor) (m : nat) :
  let ckpt := sc_ckpt sc in
  let g := sc_gridpoints sc in
  let x := foldM (rollout_step env sc)
             (t0, replicate (length (diagnostic_output_mask ckpt))
                    (replicate g f32_zero))
             (Z.of_nat <$> seq 0 m) in
  omap accum_emission x.1
  `prefix_of` accumulation_law ckpt g (outputs env x.1)
                (length (outputs env x.1)).
Proof.
  intros ckpt g x. destruct x as [tr [e|[t acc]]] eqn:Hx; unfold x in Hx;
    simpl.
  - apply foldM_inl in Hx
      as (l1 & a & l2 & tr1 & [t1 acc1] & tr2 & Hl & H1 & H2 & ->).
    apply range_split in Hl as (Hl1 & -> & _).
    rewrite Hl1 in H1.
    apply rollout_accumulation in H1 as (Hlen & Hacc & Hrows & Hem).
    fold ckpt g in Hlen, Hacc, Hrows, Hem.
    pose proof (rollout_step_predicts env sc (t1, acc1)
                  (Z.of_nat (length l1))) as Hpred.
    pose proof (rollout_step_accumulation_any sc t1 acc1
                  (Z.of_nat (length l1))) as Hstep.
    rewrite H2 in Hpred, Hstep. cbn [fst] in Hpred, Hstep.
    fold ckpt in Hstep.
    assert (Hout : outputs env (tr1 ++ tr2)
                   = outputs env tr1 ++ [predict_step env t1]).
    { unfold outputs. by rewrite omap_app, Hpred, fmap_app. }
    rewrite Hout, omap_app, Hem, length_app. simpl.
    rewrite Nat.add_1_r, accumulation_law_snoc, Hlen.
    apply prefix_app.
    destruct (bool_decide (diagnostic_output_mask ckpt = [])) eqn:Hdiag;
      [done|].
    apply bool_decide_eq_false in Hdiag.
    erewrite list_fmap_ext; [exact Hstep|].
    intros k [n p] [-> Hp%lookup_lt_Some]%enumerate_lookup. simpl.
    do 2 f_equal. unfold diagnostic_rows. rewrite fmap_app. simpl.
    rewrite accumulated_snoc.
    fold (diagnostic_rows ckpt (outputs env tr1) k).
    destruct (acc1 !! k) as [row|] eqn:Hrow; simpl.
    + rewrite (Hrows k row Hrow). by rewrite decide_True.
    + apply lookup_ge_None in Hrow. unfold diagnostic_row.
      rewrite (lookup_ge_None_2 (diagnostic_output_mask ckpt)) by lia.
      simpl. unfold np_maximum0. simpl. by rewrite np_add_nil_r.
  - apply rollout_accumulation in Hx as (Hlen & _ & _ & Hem).
    fold ckpt g in Hlen, Hem. by rewrite Hem, Hlen.
Qed.

End Accumulation.

Section Monotone.

Context {V : Type} `{Float32Order V} `{!Float32NaN V}.
Variable env : Collaborators V.

Local Abbreviation Event := (Event V).
Local Abbreviation Scope := (Scope V).
Local Abbreviation Field := (Field V).
Local Abbreviation Tensor := (Tensor V).
Local Abbreviation Row := (Row V).

Lemma accumulated_nonneg (g : nat) (vs : list Row) :
  Forall numbers vs →
  Forall (λ a, f32_isnan a = false ∧ f32_le f32_zero a) (accumulated g vs).
Proof.
  induction vs as [|v vs IH] using rev_ind; intros Hvs.
  - apply Forall_replicate. split; [apply f32_zero_number|apply f32_le_zero_zero].
  - apply Forall_app in Hvs as [Hvs [Hv _]%Forall_cons].
    specialize (IH Hvs). rewrite accumulated_snoc.
    apply Forall_lookup. intros k b Hb.
    unfold np_add, np_maximum0 in Hb.
    apply lookup_zip_with_Some in Hb as (a & x' & -> & Ha & Hx).
    rewrite list_lookup_fmap in Hx.
    apply fmap_Some in Hx as (x & Hx & ->).
    rewrite Forall_lookup in IH. destruct (IH k a Ha) as [Han Hal].
    unfold numbers in Hv. rewrite Forall_lookup in Hv.
    specialize (Hv k x Hx). split.
    + apply f32_add_number; auto using f32_maximum0_number, f32_maximum0_nonneg.
    + apply f32_add_nonneg; auto using f32_maximum0_number, f32_maximum0_nonneg.
Qed.

Lemma accumulated_increases (g : nat) (vs : list Row) (v : Row)
    (k : nat) (a b : V) :
  Forall numbers (vs ++ [v]) →
  accumulated g vs !! k = Some a →
  accumulated g (vs ++ [v]) !! k = Some b →
  f32_le a b.
Proof.
  intros [Hvs [Hv _]%Forall_cons]%Forall_app Ha Hb.
  pose proof (accumulated_nonneg g vs Hvs) as Hnn.
  rewrite accumulated_snoc in Hb. unfold np_add, np_maximum0 in Hb.
  apply lookup_zip_with_Some in Hb as (a' & x' & -> & Ha' & Hx).
  assert (a' = a) as -> by congruence.
  rewrite list_lookup_fmap in Hx. apply fmap_Some in Hx as (x & Hx & ->).
  rewrite Forall_lookup in Hnn. destruct (Hnn k a Ha) as [Han Hal].
  unfold numbers in Hv. rewrite Forall_lookup in Hv. specialize (Hv k x Hx).
  apply f32_add_increases; auto using f32_maximum0_number, f32_maximum0_nonneg.
Qed.

(** A NaN among the rows enters the sum and stays in it. *)
Lemma accumulated_nan (g : nat) (vs : list Row) (j x : nat) (v : Row)
    (b a : V) :
  vs !! j = Some v → v !! x = Some b → f32_isnan b = true →
  accumulated g vs !! x = Some a → f32_isnan a = true.
Proof.
  revert j v a. induction vs as [|w vs IH] using rev_ind;
    intros j v a Hj Hx Hb; [done|].
  rewrite accumulated_snoc. unfold np_add, np_maximum0.
  intros (a' & c & -> & Ha' & Hc)%lookup_zip_with_Some.
  rewrite list_lookup_fmap in Hc. apply fmap_Some in Hc as (w' & Hw & ->).
  destruct (decide (j < length vs)%nat) as [Hlt|Hge].
  - rewrite lookup_app_l in Hj by done.
    apply f32_add_nan_l. by eapply IH.
  - rewrite lookup_app_r in Hj by lia.
    apply list_lookup_singleton_Some in Hj as [_ <-].
    assert (w' = b) as -> by congruence.
    by apply f32_add_nan_r, f32_maximum0_nan.
Qed.

(** C2, as amended.  The accumulator of a prepared run starts as zeros,
    one row per index of [diagnostic_output_mask].  Whatever the outcome of
    the rollout, its accumulation emissions are, step after step and
    parameter after parameter, the beginning of the list of the sums from
    zero of [np.maximum(0, v_j)] over the outputs [v_1 .. v_k] of the model
    for that diagnostic variable, row by row and grid point by grid point;
    a rollout that completes emits the whole list, over all its steps.
    When none of these outputs holds a NaN, every entry of every sum is at
    least the entry of the sum one step before.  A NaN in an output [v_j]
    at a grid point makes the emitted entry at that grid point a NaN at
    the step [j] and at every step after it. *)
Theorem accumulation_law_holds (ckpt : Checkpoint)
    (input_fields : list Field) (start_datetime : datetime) (lead_time : Z)
    (tr0 : list Event) (sc : Scope) (t0 : Tensor) (acc0 : list Row) :
  prepare env ckpt input_fields start_datetime = (tr0, inr (sc, (t0, acc0))) →
  let g := sc_gridpoints sc in
  let out := rollout env sc lead_time (t0, acc0) in
  let ys := outputs env out.1 in
  let law := accumulation_law ckpt g ys (length ys) in
  acc0 = replicate (length (diagnostic_output_mask ckpt))
           (replicate g f32_zero)
  ∧ omap accum_emission out.1 `prefix_of` law
  ∧ (∀ st, out.2 = inr st →
       length ys = Z.to_nat (lead_time `div` hour_steps ckpt)
       ∧ omap accum_emission out.1 = law)
  ∧ (∀ n, (∀ y, y ∈ ys → numbers (diagnostic_row ckpt y n)) →
       ∀ k j a b, (k < length ys)%nat →
         accumulated g (diagnostic_rows ckpt (take k ys) n) !! j = Some a →
         accumulated g (diagnostic_rows ckpt (take (S k) ys) n) !! j = Some b →
         f32_le a b)
  ∧ (∀ step param data,
       (step, param, data) ∈ omap accum_emission out.1 →
       ∃ k n, (k < length ys)%nat
         ∧ step = step_of ckpt (Z.of_nat k)
         ∧ diagnostic_params ckpt !! n = Some param
         ∧ data = accumulated g (diagnostic_rows ckpt (take (S k) ys) n)
         ∧ ∀ j y x b a, (j ≤ k)%nat → ys !! j = Some y →
             diagnostic_row ckpt y n !! x = Some b → f32_isnan b = true →
             data !! x = Some a → f32_isnan a = true).
Proof.
  intros Hp g out ys law.
  apply prepare_inr in Hp as [(Hck & _) _ _ Hacc0]. subst acc0.
  set (m := Z.to_nat (lead_time `div` hour_steps ckpt)).
  assert (Hcases :
    out = ([], inl ZeroDivisionError)
    ∨ out = foldM (rollout_step env sc)
              (t0, replicate (length (diagnostic_output_mask ckpt))
                     (replicate g f32_zero))
              (Z.of_nat <$> seq 0 m)).
  { unfold out, rollout, rollout_range, py_floordiv, lift. rewrite Hck.
    destruct (decide (hour_steps ckpt = 0)) as [|_]; [by left|right].
    by rewrite bind_nil_inr. }
  split_and!.
  - done.
  - unfold law, ys. destruct Hcases as [->| ->]; [apply prefix_nil|].
    pose proof (rollout_accumulation_any env sc t0 m) as Hany.
    rewrite Hck in Hany. exact Hany.
  - intros [t acc] Hok. unfold law, ys.
    destruct Hcases as [Hout|Hout]; rewrite Hout in *; [done|].
    apply pair_eta_inr in Hok. rewrite <-Hck in Hok at 1.
    apply (rollout_accumulation env sc t0 m) in Hok
      as (Hlen & _ & _ & Hlaw).
    rewrite Hck in Hlaw. fold g in Hlaw.
    split; [done|]. by rewrite Hlaw, Hlen.
  - intros n Hnum k j a b Hk Ha Hb.
    destruct (lookup_lt_is_Some_2 ys k Hk) as [y Hy].
    rewrite (take_S_r _ _ _ Hy) in Hb.
    unfold diagnostic_rows in Ha, Hb.
    rewrite fmap_app, list_fmap_singleton in Hb.
    eapply accumulated_increases; [|exact Ha|exact Hb].
    apply Forall_app. split.
    + apply Forall_fmap, Forall_forall. intros y' Hy'. apply Hnum.
      apply list_elem_of_lookup in Hy' as [i Hi].
      apply lookup_take_Some in Hi as [Hi _]. by eapply list_elem_of_lookup_2.
    + constructor; [|constructor]. apply Hnum. by eapply list_elem_of_lookup_2.
  - intros step param data Hin.
    assert (Hlaw : (step, param, data) ∈ law).
    { assert (Hpre : omap accum_emission out.1 `prefix_of` law).
      { unfold law, ys. destruct Hcases as [->| ->]; [apply prefix_nil|].
        pose proof (rollout_accumulation_any env sc t0 m) as Hany.
        rewrite Hck in Hany. exact Hany. }
      destruct Hpre as [rest ->]. apply elem_of_app. by left. }
    unfold law, accumulation_law in Hlaw.
    destruct (bool_decide (diagnostic_output_mask ckpt = []));
      [by apply not_elem_of_nil in Hlaw|].
    apply list_elem_of_bind in Hlaw as (k & Hlaw & [_ Hk]%elem_of_seq).
    apply list_elem_of_fmap in Hlaw as ([n p] & [= -> -> ->] & Hnp).
    apply list_elem_of_lookup in Hnp as [i [-> Hp]%enumerate_lookup].
    exists k, i. simpl in Hk. split_and!; try done.
    intros j y x b a Hjk Hy Hx Hb Ha.
    eapply (accumulated_nan g _ j x _ b a); [|exact Hx|exact Hb|exact Ha].
    unfold diagnostic_rows. rewrite list_lookup_fmap.
    rewrite lookup_take_lt by lia. by rewrite Hy.
Qed.

End Monotone.

(** ** The sliding window *)

Section Window.

Context {V : Type} `{Float32 V}.
Variable env : Collaborators V.

Local Abbreviation Event := (Event V).
Local Abbreviation Scope := (Scope V).
Local Abbreviation Field := (Field V).
Local Abbreviation Tensor := (Tensor V).
Local Abbreviation Row := (Row V).

Lemma put_rows_same (slot1 slot2 : list Row) (mask : list nat)
    (rows : list Row) (i : nat) :
  i ∈ mask → (length mask ≤ length rows)%nat →
  (i < length slot1)%nat → (i < length slot2)%nat →
  put_rows slot1 mask rows !! i = put_rows slot2 mask rows !! i.
Proof.
  unfold put_rows. revert slot1 slot2 rows.
  induction mask as [|k mask IH]; intros slot1 slot2 [|r rows] Hi Hlen H1 H2;
    simpl in *; try lia; try (by apply not_elem_of_nil in Hi).
  destruct (decide (i ∈ mask)) as [Hin|Hnin].
  - apply IH; [done|lia|by rewrite length_insert..].
  - apply elem_of_cons in Hi as [->|?]; [|done].
    fold (put_rows (<[k:=r]> slot1) mask rows).
    fold (put_rows (<[k:=r]> slot2) mask rows).
    rewrite !put_rows_other by done.
    by rewrite !list_lookup_insert_eq.
Qed.

(** One window advance: the oldest slot leaves the front, and comes back
    at the end with the prediction and the forcing written into it. *)
Lemma advance_inr (ckpt : Checkpoint) (g : nat) (t : Tensor)
    (prognostic_fields forcing : list Row) (t' : Tensor) :
  advance ckpt g t prognostic_fields forcing = inr t' →
  ∃ slot0 rest slotP slotF,
    t = slot0 :: rest
    ∧ assign_rows torch_mismatch g slot0 (prognostic_input_mask ckpt)
        prognostic_fields = inr slotP
    ∧ assign_rows torch_mismatch g slotP (computed_forcings_mask ckpt)
        forcing = inr slotF
    ∧ t' = rest ++ [slotF].
Proof.
  unfold advance, assign_last, roll_lags.
  destruct t as [|slot0 rest]; [done|].
  rewrite last_snoc.
  destruct (assign_rows _ _ slot0 _ _) as [e|slotP] eqn:HP; [done|].
  rewrite length_insert, length_app. simpl.
  replace (pred (length rest + 1)) with (length rest + 0)%nat by lia.
  rewrite insert_app_r. simpl. rewrite last_snoc.
  destruct (assign_rows _ _ slotP _ _) as [e|slotF] eqn:HF; [done|].
  intros [= <-]. rewrite insert_app_r. simpl.
  by exists slot0, rest, slotP, slotF.
Qed.

(** The rows of the window after the advance. *)
Lemma advance_entries (ckpt : Checkpoint) (g : nat) (t : Tensor)
    (prognostic_fields forcing : list Row) (t' : Tensor) :
  advance ckpt g t prognostic_fields forcing = inr t' →
  let nlags := length t in
  let mP := prognostic_input_mask ckpt in
  let mF := computed_forcings_mask ckpt in
  (1 ≤ nlags)%nat
  ∧ length t' = nlags
  ∧ (∀ n, tensor_shape nlags n g t → tensor_shape nlags n g t')
  ∧ (∀ l i, (l < nlags)%nat → i ∉ mP → i ∉ mF →
       entry t' l i = entry t ((l + 1) mod nlags)%nat i)
  ∧ (NoDup mP → ∀ j i, mP !! j = Some i → i ∉ mF →
       entry t' (nlags - 1) i
       = prognostic_fields
           !! broadcast_index (length prognostic_fields) (length mP) j)
  ∧ (NoDup mF → ∀ j i, mF !! j = Some i →
       entry t' (nlags - 1) i
       = forcing !! broadcast_index (length forcing) (length mF) j).
Proof.
  intros (slot0 & rest & slotP & slotF & -> & HP & HF & ->)%advance_inr.
  cbv zeta. cbn [length]. apply assign_rows_spec in HP as (HlP & HoP & HaP & HgP).
  apply assign_rows_spec in HF as (HlF & HoF & HaF & HgF).
  assert (Hlast : ∀ i, entry (rest ++ [slotF]) (S (length rest) - 1) i
                       = slotF !! i).
  { intros i. unfold entry. replace (S (length rest) - 1)%nat
      with (length rest) by lia.
    by rewrite lookup_app_r, Nat.sub_diag by lia. }
  split_and!.
  - lia.
  - rewrite length_app. simpl. lia.
  - intros n [_ [[Hn Hg] Hrest]%Forall_cons]. split.
    + rewrite length_app. simpl. lia.
    + apply Forall_app. split; [done|]. constructor; [|constructor].
      split; [lia|auto].
  - intros l i Hl HiP HiF. unfold entry.
    destruct (decide (l = length rest)) as [->|Hne].
    + rewrite lookup_app_r, Nat.sub_diag by lia.
      replace ((length rest + 1) mod S (length rest))%nat with 0%nat
        by (replace (length rest + 1)%nat with (S (length rest)) by lia;
            by rewrite Nat.Div0.mod_same).
      simpl. by rewrite HoF, HoP.
    + rewrite lookup_app_l by lia.
      rewrite Nat.mod_small by lia.
      by replace (l + 1)%nat with (S l) by lia.
  - intros Hnd j i Hj HiF. rewrite Hlast, HoF by done. by apply HaP.
  - intros Hnd j i Hj. rewrite Hlast. by apply HaF.
Qed.

(** What a prepared run knows of its tensor without any assumption on the
    order of the masks. *)
Lemma prepared_tensor ckpt input_fields start_datetime tr0 sc
    (t0 : Tensor) (acc0 : list Row) :
  prepare env ckpt input_fields start_datetime = (tr0, inr (sc, (t0, acc0))) →
  let nlags := length (lagged ckpt) in
  let n := num_input_features ckpt in
  sc_ckpt sc = ckpt
  ∧ sc_input_fields sc = input_fields
  ∧ sc_start_datetime sc = start_datetime
  ∧ partition ckpt
  ∧ tensor_shape nlags n (sc_gridpoints sc) t0
  ∧ (∀ l l' i, (l < nlags)%nat → (l' < nlags)%nat →
       i ∈ computed_constants_mask ckpt → entry t0 l i = entry t0 l' i).
Proof.
  intros Hp nlags n.
  apply prepare_inr in Hp as
    [Hsc (rows & Hrows & src & cols & tra & Hsrc & Hcl & Hcols & Hpc & Ha & ->) _ _].
  destruct Hsc as (Hck & Hif & Hsd & _).
  apply classify_inr in Hcl as (_ & _ & Hp).
  pose proof (partition_facts ckpt Hp) as [(HrC & HrK & HrF & HrP) Hdis].
  assert (Hlsrc : length src = nlags).
  { by apply (reshape_lags_lookup nlags _ _ src 0 0) in Hsrc as [? _]. }
  apply assemble_inr in Ha as (t1 & t2 & t3 & S1 & S2 & S3 & S4 & _);
    [|done].
  pose proof (full_nan_shape (V:=V) nlags n (sc_gridpoints sc)) as Sh0.
  pose proof (proj1 (slotwise_assign _ _ _ _ _ _ S1) _ _ Sh0) as Sh1.
  pose proof (proj1 (slotwise_assign _ _ _ _ _ _ S2) _ _ Sh1) as Sh2.
  pose proof (proj1 (slotwise_assign _ _ _ _ _ _ S3) _ _ Sh2) as Sh3.
  pose proof (proj1 (slotwise_assign _ _ _ _ _ _ S4) _ _ Sh3) as Sh4.
  split_and!; try done.
  intros l l' i Hl Hl' Hi.
  destruct (slotwise_assign _ _ _ _ _ _ S4) as (_ & So4 & _).
  specialize (Hdis i). rewrite !So4 by tauto.
  destruct Sh2 as [Hl2 HN2]. rewrite Forall_lookup in HN2.
  destruct S3 as [_ S3].
  destruct (lookup_lt_is_Some_2 t2 l) as [s Hs]; [lia|].
  destruct (lookup_lt_is_Some_2 t2 l') as [s' Hs']; [lia|].
  destruct (S3 l s Hs) as (s3 & Hs3 & rs & [-> _] & Has).
  destruct (S3 l' s' Hs') as (s3' & Hs3' & rs' & [-> _] & Has').
  unfold entry. rewrite Hs3, Hs3'. simpl.
  apply assign_rows_inr in Has as (rws & Hb & _ & ->).
  apply assign_rows_inr in Has' as (rws' & Hb' & _ & ->).
  assert (rws' = rws) as -> by congruence.
  apply broadcast_rows_inr in Hb as (Hlen & _).
  rewrite Forall_forall in HrC. specialize (HrC i Hi).
  destruct (HN2 l s Hs) as [HNs _]. destruct (HN2 l' s' Hs') as [HNs' _].
  apply put_rows_same; [done|lia..].
Qed.

(** The rows that no step writes move through the window. *)
Lemma rollout_rotation (sc : Scope) (t0 : Tensor) (acc0 : list Row)
    (k : nat) (tr : list Event) (t : Tensor) (acc : list Row) (n : nat) :
  foldM (rollout_step env sc) (t0, acc0) (Z.of_nat <$> seq 0 k)
  = (tr, inr (t, acc)) →
  tensor_shape (length t0) n (sc_gridpoints sc) t0 →
  tensor_shape (length t0) n (sc_gridpoints sc) t
  ∧ (∀ l i, (l < length t0)%nat →
       i ∉ prognostic_input_mask (sc_ckpt sc) →
       i ∉ computed_forcings_mask (sc_ckpt sc) →
       entry t l i = entry t0 ((l + k) mod length t0)%nat i).
Proof.
  revert tr t acc. induction k as [|k IH]; intros tr t acc.
  - simpl. intros [= <- <- <-] Hsh. split; [done|].
    intros l i Hl _ _. by rewrite Nat.add_0_r, Nat.mod_small.
  - rewrite seq_S, fmap_app, list_fmap_singleton, foldM_snoc.
    simpl (0 + k)%nat.
    intros (tr1 & [t1 acc1] & tr2 & H1 & H2 & ->)%bind_inr Hsh.
    destruct (IH _ _ _ H1 Hsh) as [Hsh1 Hrot]. clear IH.
    apply rollout_step_inr in H2
      as (fields & accums & pfs & _ & _ & _ & _ & _ & _ & Hadv).
    apply advance_entries in Hadv as (Hpos & Hlen & Hshape & Hmove & _).
    destruct Hsh1 as [Hl1 Hs1]. rewrite Hl1 in *.
    split; [apply Hshape; by split|].
    intros l i Hl HiP HiF. rewrite Hmove by done.
    rewrite Hrot by (done || by apply Nat.mod_upper_bound; lia).
    f_equal. rewrite Nat.Div0.add_mod_idemp_l. f_equal. lia.
Qed.

(** C1, as amended.  Take a prepared run, [k] steps of its rollout and
    the step after them.  The tensor has the shape [(L, N, G)] after the
    assembly, before the step and after it.  After the step the newest
    slot holds, at the prognostic input positions, the rows
    [y_pred[..., prognostic_output_mask]] of this step's prediction and, at
    the computed forcing positions, the rows computed by the data source for
    the start date plus [step] hours.  The rows at the computed-constant
    and constant-from-input positions are those of the assembled tensor
    moved through the window: slot [l] holds those of the assembled slot
    [(l + k + 1) mod L].  So the computed constants, which the assembly
    writes alike at every lag, are everywhere as after the assembly, and so
    is a constant from the input whose retrieved fields are the same at
    every lag. *)
Theorem sliding_window_frame (ckpt : Checkpoint)
    (input_fields : list Field) (start_datetime : datetime)
    (tr0 tr tr' : list Event) (sc : Scope) (t0 t t' : Tensor)
    (acc0 acc acc' : list Row) (k : nat) :
  prepare env ckpt input_fields start_datetime = (tr0, inr (sc, (t0, acc0))) →
  foldM (rollout_step env sc) (t0, acc0) (Z.of_nat <$> seq 0 k)
  = (tr, inr (t, acc)) →
  rollout_step env sc (t, acc) (Z.of_nat k) = (tr', inr (t', acc')) →
  let nlags := length (lagged ckpt) in
  let n := num_input_features ckpt in
  let g := sc_gridpoints sc in
  let mP := prognostic_input_mask ckpt in
  let mF := computed_forcings_mask ckpt in
  let step := step_of ckpt (Z.of_nat k) in
  let forcing := cml_load_source env (take 1 input_fields)
                   (start_datetime + timedelta_hours step)
                   (computed_forcings ckpt) in
  (1 ≤ nlags)%nat
  ∧ tensor_shape nlags n g t0 ∧ tensor_shape nlags n g t
  ∧ tensor_shape nlags n g t'
  ∧ (∃ prediction,
       np_take (predict_step env t) (prognostic_output_mask ckpt)
       = inr prediction
       ∧ (NoDup mP → ∀ j i, mP !! j = Some i →
            entry t' (nlags - 1) i
            = prediction !! broadcast_index (length prediction) (length mP) j))
  ∧ (NoDup mF → ∀ j i, mF !! j = Some i →
       entry t' (nlags - 1) i
       = forcing !! broadcast_index (length (computed_forcings ckpt))
                      (length mF) j)
  ∧ (∀ l i, (l < nlags)%nat →
       i ∈ computed_constants_mask ckpt ∨ i ∈ constants_from_input_mask ckpt →
       entry t' l i = entry t0 ((l + S k) mod nlags)%nat i)
  ∧ (∀ l i, (l < nlags)%nat → i ∈ computed_constants_mask ckpt →
       entry t' l i = entry t0 l i)
  ∧ (∀ i, i ∈ constants_from_input_mask ckpt →
       (∀ l l', (l < nlags)%nat → (l' < nlags)%nat →
                entry t0 l i = entry t0 l' i) →
       ∀ l, (l < nlags)%nat → entry t' l i = entry t0 l i).
Proof.
  intros Hp Hk Hs nlags n g mP mF step forcing.
  apply prepared_tensor in Hp as (Hck & Hif & Hsd & Hpart & Hsh0 & Hcs).
  fold nlags n g in Hsh0, Hcs.
  pose proof (partition_facts ckpt Hpart) as [_ Hdis].
  assert (Hl0 : length t0 = nlags) by (by destruct Hsh0).
  rewrite <-Hl0 in Hsh0.
  pose proof (rollout_rotation sc t0 acc0 k tr t acc n Hk Hsh0)
    as [Hsh Hrot].
  assert (Hstep : foldM (rollout_step env sc) (t0, acc0)
                    (Z.of_nat <$> seq 0 (S k)) = (tr ++ tr', inr (t', acc'))).
  { rewrite seq_S, fmap_app, list_fmap_singleton, foldM_snoc.
    simpl (0 + k)%nat. rewrite (bind_ok _ _ _ _ Hk). by rewrite Hs. }
  pose proof (rollout_rotation sc t0 acc0 (S k) _ t' acc' n Hstep Hsh0)
    as [Hsh' Hrot'].
  rewrite Hck, Hl0 in *.
  apply rollout_step_inr in Hs
    as (fields & accums & pfs & _ & _ & _ & _ & Hpfs & Hflen & Hadv).
  rewrite Hck, Hif, Hsd in *. fold step forcing in Hadv, Hflen.
  apply advance_entries in Hadv as (Hpos & Hlen & _ & _ & HP & HF).
  assert (Hlt : length t = nlags) by (by destruct Hsh).
  rewrite Hlt in *.
  assert (Hrotate : ∀ l i, (l < nlags)%nat →
            i ∈ computed_constants_mask ckpt
            ∨ i ∈ constants_from_input_mask ckpt →
            entry t' l i = entry t0 ((l + S k) mod nlags)%nat i).
  { intros l i Hl Hi. specialize (Hdis i). apply Hrot'; [done|tauto..]. }
  split_and!; try done.
  - exists pfs. split; [done|]. intros Hnd j i Hj. apply HP; [done..|].
    specialize (Hdis i). intros HiF.
    assert (i ∈ prognostic_input_mask ckpt)
      by (by eapply list_elem_of_lookup_2).
    tauto.
  - intros Hnd j i Hj. rewrite <-Hflen. by apply HF.
  - intros l i Hl Hi. rewrite Hrotate by auto.
    apply Hcs; [apply Nat.mod_upper_bound; lia|done..].
  - intros i Hi Hsame l Hl. rewrite Hrotate by auto.
    apply Hsame; [apply Nat.mod_upper_bound; lia|done].
Qed.

End Window.

(** * The example run *)

(** Evaluates a computation and takes its trace and result as the two
    values that the goal asks for. *)
Ltac evaluated m :=
  let v := eval vm_compute in m in
  lazymatch v with
  | (?tr, inr ?x) => exists tr, x
  | (?tr, inl ?e) => exists tr, e
  end.

Ltac evaluate :=
  lazymatch goal with
  | |- ex (λ tr, ex (λ st, ?m = _ ∧ _)) => evaluated m
  end.

(** Proves the first conjunct of the goal by evaluation and keeps it as
    [H]. *)
Ltac holds_first H :=
  lazymatch goal with
  | |- ?A ∧ _ => assert (H : A) by (vm_compute; reflexivity); split; [exact H|]
  end.

(** Evaluates [m] and keeps the equation between [m] and its value as
    [H]. *)
Tactic Notation "stage" ident(H) constr(m) :=
  let v := eval vm_compute in m in
  assert (H : m = v) by (vm_compute; reflexivity).

(** The stages of the preparation of a run of the example, evaluated one
    after the other. *)
Ltac stages env ckpt fields start :=
  stage Hg (gridpoints_of fields);
  lazymatch goal with _ : gridpoints_of _ = inr ?g |- _ =>
  stage Hrows (fields_to_numpy g fields);
  lazymatch goal with _ : fields_to_numpy _ _ = inr ?rows |- _ =>
  stage Hsrc (reshape_lags (length (lagged ckpt)) g rows);
  lazymatch goal with _ : reshape_lags _ _ _ = inr ?src |- _ =>
  stage Hc (classify (V:=exact) ckpt);
  lazymatch goal with _ : classify _ = (_, inr ?c) |- _ =>
  stage Hm (retrieved_fields_masks (V:=exact) c);
  lazymatch goal with _ : retrieved_fields_masks _ = (_, inr ?cols) |- _ =>
  stage Ha (assemble env ckpt c cols.1 cols.2 fields g src start);
  lazymatch goal with _ : assemble _ _ _ _ _ _ _ _ _ = (_, inr ?t) |- _ =>
  stage Hd (get_most_recent_datetime fields);
  lazymatch goal with _ : get_most_recent_datetime _ = (_, inr ?mr) |- _ =>
  stage Htpl (precip_template_of ckpt (reference_fields_of mr fields));
  stage Hv (validate (V:=exact) ckpt t)
  end end end end end end end.

Lemma example_prepared :
  prepare Example.env Example.ckpt Example.input_fields 0
  = ([LoadSource 0 ["cos_latitude"];
      LoadSource (-6 * Example.hour) ["insolation"];
      LoadSource 0 ["insolation"];
      CallbackInit Example.input_fields
        (Some (["tp"], Example.field 0 13 14, 2%nat))],
     inr (Example.scope, (Example.tensor0, Example.accumulator0))).
Proof. vm_compute. reflexivity. Qed.

Lemma example_ascending : ascending_masks Example.ckpt.
Proof. repeat split; repeat constructor. Qed.

(** The rollout of the example over twelve hours makes two predictions and
    emits at the steps 6 and 12. *)
Lemma rollout_step_numbers_witness :
  ∃ tr st',
    rollout Example.env Example.scope 12
      (Example.tensor0, Example.accumulator0) = (tr, inr st')
    ∧ length (omap predicted tr) = 2%nat
    ∧ omap emitted_step tr = [6; 6; 6; 12; 12; 12].
Proof.
  evaluate.
  holds_first Hr.
  pose proof (rollout_step_numbers Example.env Example.scope 12
                (Example.tensor0, Example.accumulator0)) as Hn.
  cbv zeta in Hn. destruct Hn as (_ & Hgo & _).
  destruct Hgo as (_ & _ & _ & _ & _ & Hdone); [simpl; lia|].
  rewrite Hr in Hdone. cbn [fst snd] in Hdone.
  destruct (Hdone _ eq_refl) as [Hn He].
  split; [exact Hn|]. etrans; [exact He|reflexivity].
Defined.

(** With a negative lead time the run completes without a step, though
    the floor of [-1 / 6] is [-1]; with steps of zero hours the loop header
    raises after the preparation. *)
Lemma rollout_steps_outside_range :
  (-1) `div` hour_steps Example.ckpt = -1
  ∧ (run Example.env Example.runner Example.input_fields (-1) 0).2 = inr ()
  ∧ omap predicted
      (run Example.env Example.runner Example.input_fields (-1) 0).1 = []
  ∧ hour_steps Cases.ckpt_still = 0
  ∧ (run Example.env {| checkpoint := Some Cases.ckpt_still |}
       Example.input_fields 12 0).2 = inl ZeroDivisionError.
Proof. split_and!; vm_compute; reflexivity. Qed.

(** Fields of which one is later than the last make the run fail; a
    template of another date than the most recent one makes the step
    fail, at the prognostic emission and at the accumulation. *)
Lemma temporal_ordering_checked_witness :
  fails (run Example.env Example.runner Example.unordered_fields 12 0)
  ∧ emit_prognostic (sc_reference_fields Example.stale_scope) 0
      [[Num 14; Num 15]; [Num 23; Num 24]] 6 (0%nat, 0%nat)
    = ([], inl AssertionError)
  ∧ fails (accumulate (Example.field (-6 * Example.hour) 11 12) 0
             [[Num (-5); Num 7]] 6 Example.accumulator0 (0%nat, "tp"))
  ∧ fails (rollout_step Example.env Example.stale_scope
             (Example.tensor0, Example.accumulator0) 0).
Proof.
  destruct (temporal_ordering_checked (V:=exact) Example.env)
    as (Hrun & Hprog & Hacc).
  split.
  { refine (proj2 (Hrun Example.runner Example.unordered_fields 12 0
                     (Example.field 0 1 0)
                     (Example.field (6 * Example.hour) 21 22) _ _ _)).
    - reflexivity.
    - apply list_elem_of_lookup_2 with 1%nat. reflexivity.
    - vm_compute. reflexivity. }
  split.
  { refine (proj1 (Hprog Example.stale_scope
                     (Example.tensor0, Example.accumulator0) 0 0%nat "2t"
                     (Example.field (-6 * Example.hour) 11 12) _ _ _) _ _ _).
    - apply list_elem_of_lookup_2 with 0%nat. reflexivity.
    - reflexivity.
    - vm_compute. discriminate. }
  refine ((λ H, conj (proj1 (proj1 H _ _ _ _)) (proj2 H))
            (Hacc Example.stale_scope
               (Example.tensor0, Example.accumulator0) 0 _ _ _)).
  - discriminate.
  - discriminate.
  - vm_compute. discriminate.
Defined.

(** The masks of the example are a partition; those of the checkpoint
    with a gap make the classification fail after a report of the
    features 2 and 4. *)
Lemma classification_checks_partition_witness :
  partition Example.ckpt
  ∧ classify (V:=exact) Example.ckpt_gap
    = ([LogMissing 2 2 "lsm"; LogMissing 4 4 "insolation"],
       inl (RuntimeError "Missing fields"))
  ∧ missing_report (V:=exact) Example.ckpt_gap
    = [LogMissing 2 2 "lsm"; LogMissing 4 4 "insolation"].
Proof.
  destruct (classification_checks_partition (V:=exact) Example.ckpt)
    as (Hok & _).
  destruct (classification_checks_partition (V:=exact) Example.ckpt_gap)
    as (_ & _ & _ & _ & Hgap & _).
  split.
  { refine (proj2 (proj2 (Hok [] (classified Example.ckpt) _))).
    vm_compute. reflexivity. }
  assert (Hc : classify (V:=exact) Example.ckpt_gap
               = ([LogMissing 2 2 "lsm"; LogMissing 4 4 "insolation"],
                  inl (RuntimeError "Missing fields")))
    by (vm_compute; reflexivity).
  split; [exact Hc|].
  symmetry. exact (proj1 (proj2 (Hgap _ _ Hc))).
Defined.

(** A NaN in the imputable [10u] passes and is recorded; a NaN in [2t]
    raises the error that names it. *)
Lemma missing_values_rule_witness :
  validate (V:=exact) Example.ckpt Example.tensor_nan_10u
  = ([], inr (missing_names Example.ckpt Example.tensor_nan_10u (seq 0 5)))
  ∧ "10u" ∈ missing_names Example.ckpt Example.tensor_nan_10u (seq 0 5)
  ∧ ∃ i, (i < 5)%nat ∧ offending Example.ckpt Example.tensor_nan_2t i
         ∧ validate (V:=exact) Example.ckpt Example.tensor_nan_2t
           = ([LogNoImputation (feature_name Example.ckpt i) i i],
              inl (ValueError ("Field '" +:+ feature_name Example.ckpt i +:+
                     "' has NaNs and is not marked as imputable"))).
Proof.
  destruct (missing_values_rule Example.env Example.ckpt
              Example.tensor_nan_10u) as (_ & _ & _ & Hpass & _).
  destruct (missing_values_rule Example.env Example.ckpt
              Example.tensor_nan_2t) as (_ & _ & Hraise & _).
  destruct Hpass as [Hv Hin].
  { intros i Hi Hm.
    do 5 (destruct i as [|i];
          [first [ apply list_elem_of_lookup_2 with 0%nat; reflexivity
                 | vm_compute in Hm; discriminate Hm ]|]).
    simpl in Hi. lia. }
  split; [exact Hv|]. split.
  { apply (Hin 1%nat); [simpl; lia|reflexivity]. }
  destruct (validate (V:=exact) Example.ckpt Example.tensor_nan_2t)
    as [tr [e|names]] eqn:He; [|vm_compute in He; discriminate He].
  destruct (Hraise tr e eq_refl) as (i & Hi & Hoff & _ & -> & ->).
  exists i. split; [exact Hi|]. split; [exact Hoff|]. reflexivity.
Defined.

(** The tensor assembled for the example has two lags, five features and
    two grid points, its [2t] of the older lag is the first retrieved
    field, and the data source was called once for the constants and
    once per lag for the forcings.  With the prognostic mask [[1, 0]] the
    feature 1, first in the mask, holds the retrieved field of the feature
    0, the first prognostic feature in the feature space. *)
Lemma assembly_correct_witness :
  tensor_shape 2 5 2 Example.tensor0
  ∧ entry Example.tensor0 0 0 = Some [Num 11; Num 12]
  ∧ omap load_source_call
      (prepare Example.env Example.ckpt Example.input_fields 0).1
    = [(0, ["cos_latitude"]); (-6 * Example.hour, ["insolation"]);
       (0, ["insolation"])]
  ∧ ∃ tr t,
      assemble Example.env Cases.ckpt_swapped (classified Cases.ckpt_swapped)
        [0%nat; 1%nat] [2%nat] Example.input_fields 2
        [ [[Num 11; Num 12]; [Num 21; Num 22]; [Num 1; Num 0]];
          [[Num 13; Num 14]; [Num 23; Num 24]; [Num 1; Num 0]] ] 0
      = (tr, inr t)
      ∧ entry t 1 1 = Some [Num 13; Num 14].
Proof.
  split_and!.
  - stages Example.env Example.ckpt Example.input_fields 0.
    exact (proj1 (assembly_correct Example.env Example.ckpt
                    Example.input_fields 0 _ _ _ _ _ _ _ _ _
                    Hrows Hsrc Hc Hm Ha)).
  - stages Example.env Example.ckpt Example.input_fields 0.
    destruct (assembly_correct Example.env Example.ckpt
                Example.input_fields 0 _ _ _ _ _ _ _ _ _
                Hrows Hsrc Hc Hm Ha)
      as (_ & _ & _ & _ & _ & _ & _ & _ & _ & Hin & _).
    destruct (Hin ltac:(repeat constructor) ltac:(repeat constructor)
                0%nat 0%nat) as [_ He].
    + vm_compute. lia.
    + right. apply list_elem_of_lookup_2 with 0%nat. reflexivity.
    + etrans; [exact He|reflexivity].
  - stages Example.env Example.ckpt Example.input_fields 0.
    destruct (assembly_correct Example.env Example.ckpt
                Example.input_fields 0 _ _ _ _ _ _ _ _ _
                Hrows Hsrc Hc Hm Ha)
      as (_ & _ & _ & _ & _ & _ & _ & _ & _ & _ & _ & _ & Hcalls).
    rewrite example_prepared. cbn [fst]. etrans; [|exact Hcalls].
    reflexivity.
  - evaluate. holds_first Hsw.
    stages Example.env Cases.ckpt_swapped Example.input_fields 0.
    destruct (assembly_correct Example.env Cases.ckpt_swapped
                Example.input_fields 0 _ _ _ _ _ _ _ _ _
                Hrows Hsrc Hc Hm Ha)
      as (_ & _ & _ & _ & _ & HP & _).
    assert (Hnd : NoDup (prognostic_input_mask Cases.ckpt_swapped)).
    { apply NoDup_cons. split; [|apply NoDup_singleton].
      intros Hin%list_elem_of_singleton. discriminate Hin. }
    destruct (HP Hnd 1%nat 0%nat 1%nat) as (i' & Hi' & _ & He).
    + vm_compute. lia.
    + reflexivity.
    + injection Hi' as <-. etrans; [exact He|reflexivity].
Defined.

(** With the prognostic mask [[1, 0]] the run is prepared, and the feature
    1 ([10u], an input feature whose retrieved field is the second of
    each lag) holds at the newer lag the field of [2t], not its own. *)
Lemma assembly_unordered_mask :
  ∃ tr sc t acc,
    prepare Example.env Cases.ckpt_swapped Example.input_fields 0
    = (tr, inr (sc, (t, acc)))
    ∧ is_input Cases.ckpt_swapped 1
    ∧ retrieved_index Cases.ckpt_swapped 1 = 1%nat
    ∧ values <$> Example.input_fields !! (1 * 3 + 1)%nat
      = Some [Num 23; Num 24]
    ∧ entry t 1 1 = Some [Num 13; Num 14].
Proof.
  lazymatch eval vm_compute in
      (prepare Example.env Cases.ckpt_swapped Example.input_fields 0) with
  | (?tr0, inr (?sc, (?t0, ?acc0))) => exists tr0, sc, t0, acc0
  end.
  split_and!; try (vm_compute; reflexivity).
  right. apply list_elem_of_lookup_2 with 0%nat. reflexivity.
Qed.

(** The example accumulates the precipitation [-5, 7] of each step:
    [0, 7] after the first step and [0, 14] after the second.  With a model
    whose second output has no diagnostic column the rollout raises after
    the emission of the first step, which is the beginning of the sums of
    the law.  With a model whose second output has a NaN, the sum at that
    grid point is a NaN. *)
Lemma accumulation_law_holds_witness :
  (∃ tr st,
     rollout Example.env Example.scope 12
       (Example.tensor0, Example.accumulator0) = (tr, inr st)
     ∧ outputs Example.env tr
       = [ [[Num 14; Num 15]; [Num 23; Num 24]; [Num (-5); Num 7]];
           [[Num 15; Num 16]; [Num 23; Num 24]; [Num (-5); Num 7]] ]
     ∧ omap accum_emission tr
       = [(6, "tp", [Num 0; Num 7]); (12, "tp", [Num 0; Num 14])]
     ∧ f32_le (Num 7) (Num 14))
  ∧ (∃ tr e,
       rollout Cases.env_breaks Example.scope 12
         (Example.tensor0, Example.accumulator0) = (tr, inl e)
       ∧ omap accum_emission tr = [(6, "tp", [Num 0; Num 7])]
       ∧ omap accum_emission tr
         `prefix_of` accumulation_law Example.ckpt 2
                       (outputs Cases.env_breaks tr) 2)
  ∧ (∃ tr st,
       rollout Example.env_nan Example.scope 12
         (Example.tensor0, Example.accumulator0) = (tr, inr st)
       ∧ outputs Example.env_nan tr
         = [ [[Num 13; Num 14]; [Num 23; Num 24]; [Num 1; Num 1]];
             [[Num 13; Num 14]; [Num 23; Num 24]; [NaN; Num 1]] ]
       ∧ ∀ data a, (12, "tp", data) ∈ omap accum_emission tr →
                   data !! 0%nat = Some a → f32_isnan a = true).
Proof.
  split_and!.
  - evaluate.
    holds_first Hr. holds_first Hys.
    pose proof (accumulation_law_holds Example.env Example.ckpt
                  Example.input_fields 0 12 _ _ _ _ example_prepared) as Hl.
    cbv zeta in Hl. rewrite Hr in Hl. cbn [fst snd] in Hl.
    destruct Hl as (_ & _ & Hlaw & Hmono & _).
    destruct (Hlaw _ eq_refl) as [_ He].
    split; [etrans; [exact He|vm_compute; reflexivity]|].
    apply (Hmono 0%nat) with (k := 1%nat) (j := 1%nat).
    + intros y Hy. rewrite Hys in Hy.
      apply elem_of_cons in Hy as [->|Hy];
        [|apply list_elem_of_singleton in Hy as ->];
        repeat constructor.
    + vm_compute. lia.
    + rewrite Hys. reflexivity.
    + rewrite Hys. reflexivity.
  - evaluate.
    holds_first Hr. holds_first He.
    assert (Hp : prepare Cases.env_breaks Example.ckpt Example.input_fields 0
                 = (_, inr (Example.scope,
                            (Example.tensor0, Example.accumulator0))))
      by exact example_prepared.
    pose proof (accumulation_law_holds Cases.env_breaks Example.ckpt
                  Example.input_fields 0 12 _ _ _ _ Hp) as Hl.
    cbv zeta in Hl. rewrite Hr in Hl. cbn [fst snd] in Hl.
    exact (proj1 (proj2 Hl)).
  - evaluate.
    holds_first Hr. holds_first Hys.
    assert (Hp : prepare Example.env_nan Example.ckpt Example.input_fields 0
                 = (_, inr (Example.scope,
                            (Example.tensor0, Example.accumulator0))))
      by exact example_prepared.
    pose proof (accumulation_law_holds Example.env_nan Example.ckpt
                  Example.input_fields 0 12 _ _ _ _ Hp) as Hl.
    cbv zeta in Hl. rewrite Hr in Hl. cbn [fst snd] in Hl.
    destruct Hl as (_ & _ & _ & _ & Hnan).
    intros data a Hin Ha.
    destruct (Hnan _ _ _ Hin) as (k & n & Hk & Hstep & Hparam & _ & Hprop).
    assert (k = 1%nat) as ->.
    { unfold step_of in Hstep. simpl in Hstep. lia. }
    assert (n = 0%nat) as ->.
    { destruct n as [|n]; [reflexivity|].
      simpl in Hparam. destruct n; discriminate Hparam. }
    apply (Hprop 1%nat [[Num 13; Num 14]; [Num 23; Num 24]; [NaN; Num 1]]
             0%nat NaN a); [lia| |reflexivity|reflexivity|exact Ha].
    rewrite Hys. reflexivity.
Defined.

(** The runs of the example call the callback first with the fields, the
    diagnostic parameter [tp], the template of [2t] and the shape [(2,)];
    without diagnostics, with the fields alone; with a diagnostic parameter
    and no diagnostic output, never. *)
Lemma initial_callback_once_witness :
  (∃ post,
     (run Example.env Example.runner Example.input_fields 12 0).1
     = [ LoadSource 0 ["cos_latitude"];
         LoadSource (-6 * Example.hour) ["insolation"];
         LoadSource 0 ["insolation"] ]
       ++ CallbackInit Example.input_fields
            (Some (["tp"], Example.field 0 13 14, 2%nat)) :: post
     ∧ Forall (λ e, is_init e = false) post)
  ∧ (∃ post,
       (run Example.env {| checkpoint := Some Cases.ckpt_plain |}
          Example.input_fields 12 0).1
       = [ LoadSource 0 ["cos_latitude"];
           LoadSource (-6 * Example.hour) ["insolation"];
           LoadSource 0 ["insolation"] ]
         ++ CallbackInit Example.input_fields None :: post
       ∧ Forall (λ e, is_init e = false) post)
  ∧ run Example.env {| checkpoint := Some Cases.ckpt_no_output |}
      Example.input_fields 12 0
    = ([ LoadSource 0 ["cos_latitude"];
         LoadSource (-6 * Example.hour) ["insolation"];
         LoadSource 0 ["insolation"] ], inl IndexError).
Proof.
  split_and!.
  - stages Example.env Example.ckpt Example.input_fields 0.
    destruct (proj2 (initial_callback_once Example.env Example.runner
                       Example.input_fields 12 0)
                Example.ckpt _ _ _ _ _ _ _ _ _ _ _ _ _ _
                eq_refl Hg Hrows Hsrc Hc Hm Ha Hv Hd Htpl)
      as (_ & Hcall & _).
    destruct Hcall as (post & Hrun & Hpost);
      [right; discriminate|].
    exists post. split; [exact Hrun|exact Hpost].
  - stages Example.env Cases.ckpt_plain Example.input_fields 0.
    destruct (proj2 (initial_callback_once Example.env
                       {| checkpoint := Some Cases.ckpt_plain |}
                       Example.input_fields 12 0)
                Cases.ckpt_plain _ _ _ _ _ _ _ _ _ _ _ _ _ _
                eq_refl Hg Hrows Hsrc Hc Hm Ha Hv Hd Htpl)
      as (_ & Hcall & _).
    destruct Hcall as (post & Hrun & Hpost);
      [left; reflexivity|].
    exists post. split; [exact Hrun|exact Hpost].
  - stages Example.env Cases.ckpt_no_output Example.input_fields 0.
    destruct (proj2 (initial_callback_once Example.env
                       {| checkpoint := Some Cases.ckpt_no_output |}
                       Example.input_fields 12 0)
                Cases.ckpt_no_output _ _ _ _ _ _ _ _ _ _ _ _ _ _
                eq_refl Hg Hrows Hsrc Hc Hm Ha Hv Hd Htpl)
      as (_ & _ & Hnone).
    apply Hnone; [discriminate|reflexivity].
Defined.

(** The lag offsets of the example are [[-6, 0]]: its assembly calls the
    data source for the forcings of the older slot six hours before the
    start and for those of the newer slot at the start. *)
Lemma lagged_offsets_and_dates_witness :
  lagged Example.ckpt = [-6; 0]
  ∧ lag_date Example.ckpt 0 1 = inr 0
  ∧ ∃ tr t,
      assemble Example.env Example.ckpt (classified Example.ckpt)
        [0%nat; 1%nat] [2%nat] Example.input_fields 2
        [ [[Num 11; Num 12]; [Num 21; Num 22]; [Num 1; Num 0]];
          [[Num 13; Num 14]; [Num 23; Num 24]; [Num 1; Num 0]] ] 0
      = (tr, inr t)
      ∧ omap load_source_call tr
        = [(0, ["cos_latitude"]); (-6 * Example.hour, ["insolation"]);
           (0, ["insolation"])]
      ∧ omap load_source_call tr !! 2%nat = Some (0, ["insolation"])
      ∧ entry t 1 4 = Some [Num 0; Num 0].
Proof.
  pose proof (lagged_offsets_and_dates Example.env Example.ckpt) as Hl.
  cbv zeta in Hl.
  destruct Hl as (_ & _ & _ & _ & Hfwd & _ & Hasm).
  destruct Hfwd as (Hform & _ & Hlast); [simpl; lia|].
  destruct Hlast as [_ Hdate]; [simpl; lia|].
  split; [etrans; [exact Hform|reflexivity]|].
  split; [exact (Hdate 0)|].
  evaluate. holds_first Ha.
  destruct (Hasm _ _ _ _ _ _ _ _ _ Ha) as (Hcalls & _ & _ & Hnew & _ & HF).
  split; [etrans; [exact Hcalls|reflexivity]|].
  split; [exact (Hnew ltac:(simpl; lia) ltac:(simpl; lia))|].
  etrans; [|reflexivity].
  refine (HF (NoDup_singleton _) 1%nat 0 0%nat 4%nat _ eq_refl).
  exact (Hdate 0).
Defined.

(** With steps of minus three hours and four lags the offsets are
    [[0, 3, 6, 9]], not [[9, 6, 3, 0]]: none is negative, the last is 9, and
    the assembly calls the data source for the newest slot nine hours
    after the start. *)
Lemma lagged_backward_steps :
  hour_steps Cases.ckpt_backward = -3
  ∧ multi_step Cases.ckpt_backward = 4
  ∧ lagged Cases.ckpt_backward = [0; 3; 6; 9]
  ∧ lag_offsets Cases.ckpt_backward = [9; 6; 3; 0]
  ∧ lag_date Cases.ckpt_backward 0 3 = inr (9 * Example.hour)
  ∧ omap load_source_call
      (prepare Example.env Cases.ckpt_backward Cases.fields_backward 0).1
    = [ (0, ["cos_latitude"]); (0, ["insolation"]);
        (3 * Example.hour, ["insolation"]); (6 * Example.hour, ["insolation"]);
        (9 * Example.hour, ["insolation"]) ].
Proof. split_and!; vm_compute; reflexivity. Qed.

(** One step and the step after it, in the example: the newest slot holds
    the prediction and the forcing of the hour 12, and the constants are
    as after the assembly. *)
Lemma sliding_window_frame_witness :
  ∃ tr st,
    foldM (rollout_step Example.env Example.scope)
      (Example.tensor0, Example.accumulator0) (Z.of_nat <$> seq 0 1)
    = (tr, inr st)
    ∧ ∃ tr' st',
        rollout_step Example.env Example.scope st (Z.of_nat 1)
        = (tr', inr st')
        ∧ tensor_shape 2 5 2 st'.1
        ∧ entry st'.1 1 0 = Some [Num 15; Num 16]
        ∧ entry st'.1 1 4 = Some [Num 12; Num 12]
        ∧ entry st'.1 0 3 = entry Example.tensor0 0 3
        ∧ entry st'.1 0 2 = entry Example.tensor0 0 2.
Proof.
  evaluate. holds_first Hk. evaluate. holds_first Hs.
  destruct (sliding_window_frame Example.env Example.ckpt
              Example.input_fields 0 _ _ _ _ _ _ _ _ _ _ 1
              example_prepared Hk Hs)
    as (_ & _ & _ & Hshape & (prediction & Hpred & HP) & HF & Hrot & HC & _).
  split; [exact Hshape|].
  injection Hpred as <-.
  split.
  { etrans; [|reflexivity].
    refine (HP _ 0%nat 0%nat eq_refl).
    apply NoDup_cons. split; [|apply NoDup_singleton].
    intros Hin%list_elem_of_singleton. discriminate Hin. }
  split.
  { etrans; [|reflexivity].
    exact (HF (NoDup_singleton _) 0%nat 4%nat eq_refl). }
  split.
  { apply HC; [simpl; lia|].
    apply list_elem_of_lookup_2 with 0%nat. reflexivity. }
  apply (Hrot 0%nat 2%nat); [simpl; lia|]. right.
  apply list_elem_of_lookup_2 with 0%nat. reflexivity.
Defined.

(** The accumulator of a model that gives a NaN at the second step goes
    from [1] to NaN, which is not above [1]. *)
Lemma accumulation_not_monotone :
  (run Example.env_nan Example.runner Example.input_fields 12 0).2 = inr ()
  ∧ omap accum_emission
      (run Example.env_nan Example.runner Example.input_fields 12 0).1
    = [(6, "tp", [Num 1; Num 1]); (12, "tp", [NaN; Num 2])]
  ∧ ¬ f32_le (Num 1) NaN.
Proof. split; [|split]; [vm_compute; reflexivity..|]. intros []. Qed.

(** With a land sea mask that differs between the two dates, the older
    slot holds after one step the mask of the newer date: the rows of a
    constant from the input are not those of the assembly. *)
Lemma sliding_window_constants_rotate :
  (2%nat ∈ constants_from_input_mask Example.ckpt)
  ∧ ∃ tr0 sc t0 acc0 tr' t' acc',
      prepare Example.env Example.ckpt Example.drifting_fields 0
      = (tr0, inr (sc, (t0, acc0)))
      ∧ rollout_step Example.env sc (t0, acc0) 0 = (tr', inr (t', acc'))
      ∧ entry t0 0 2 = Some [Num 1; Num 0]
      ∧ entry t' 0 2 = Some [Num 2; Num 0]
      ∧ entry t' 0 2 ≠ entry t0 0 2.
Proof.
  split; [apply list_elem_of_lookup_2 with 0%nat; reflexivity|].
  lazymatch eval vm_compute in
      (prepare Example.env Example.ckpt Example.drifting_fields 0) with
  | (?tr0, inr (?sc, (?t0, ?acc0))) =>
      exists tr0, sc, t0, acc0;
      lazymatch eval vm_compute in
          (rollout_step Example.env sc (t0, acc0) 0) with
      | (?tr', inr (?t', ?acc')) => exists tr', t', acc'
      end
  end.
  split_and!; try (vm_compute; reflexivity). vm_compute. discriminate.
Qed.

(** * Further properties *)

(** ** What the window holds *)

Section WindowContents.

Context {V : Type} `{Float32 V}.
Variable env : Collaborators V.

Local Abbreviation Event := (Event V).
Local Abbreviation Scope := (Scope V).
Local Abbreviation Field := (Field V).
Local Abbreviation Tensor := (Tensor V).
Local Abbreviation Row := (Row V).

Lemma advance_shift (ckpt : Checkpoint) (g : nat) (t : Tensor)
    (prognostic_fields forcing : list Row) (t' : Tensor) :
  advance ckpt g t prognostic_fields forcing = inr t' →
  length t' = length t
  ∧ ∀ l, (S l < length t)%nat → t' !! l = t !! S l.
Proof.
  intros (slot0 & rest & slotP & slotF & -> & _ & _ & ->)%advance_inr.
  split; [rewrite length_app; simpl; lia|].
  intros l Hl. simpl in Hl. rewrite lookup_app_l by lia. done.
Qed.

(** One step moves every slot down by one place, whole, and builds the
    newest slot from the oldest one. *)
Theorem step_shifts_window (sc : Scope) (t t' : Tensor) (acc acc' : list Row)
    (i : Z) (tr : list Event) :
  rollout_step env sc (t, acc) i = (tr, inr (t', acc')) →
  let nlags := length t in
  (1 ≤ nlags)%nat
  ∧ length t' = nlags
  ∧ (∀ l, (S l < nlags)%nat → t' !! l = t !! S l)
  ∧ (∀ j, j ∉ prognostic_input_mask (sc_ckpt sc) →
          j ∉ computed_forcings_mask (sc_ckpt sc) →
          entry t' (nlags - 1) j = entry t 0 j).
Proof.
  intros Hs nlags.
  apply rollout_step_inr in Hs
    as (fields & accums & pfs & _ & _ & _ & _ & _ & _ & Hadv).
  pose proof (advance_entries _ _ _ _ _ _ Hadv) as (Hpos & Hlen & _ & Hmove & _).
  apply advance_inr in Hadv as (slot0 & rest & slotP & slotF & -> & _ & _ & ->).
  split; [done|]. split; [done|]. split.
  - intros l Hl. simpl in nlags. subst nlags. rewrite lookup_app_l by lia.
    done.
  - intros j HP HF. fold nlags in Hmove.
    rewrite Hmove by (done || lia). f_equal.
    replace (nlags - 1 + 1)%nat with nlags by lia.
    by rewrite Nat.Div0.mod_same.
Qed.

Lemma rollout_predictions (sc : Scope) (st st' : Tensor * list Row) (k : nat)
    (tr : list Event) :
  foldM (rollout_step env sc) st (Z.of_nat <$> seq 0 k) = (tr, inr st') →
  length (omap predicted tr) = k.
Proof.
  intros Hf.
  eapply (foldM_length_omap (rollout_step env sc) predicted 1) in Hf.
  - rewrite Hf, length_fmap, length_seq. lia.
  - intros s a tr' s' _ Hs.
    apply rollout_step_numbers_step in Hs as [_ ->]. done.
Qed.

(** After [k] steps: a slot [l] with [l + k < L] is the assembled slot
    [l + k]; a slot [l] with [l + k = L + s] was built by the step of
    index [s], from the prediction and the forcing of that step. *)
Lemma window_contents (sc : Scope) (t0 : Tensor) (acc0 : list Row) (k : nat)
    (tr : list Event) (t : Tensor) (acc : list Row) :
  foldM (rollout_step env sc) (t0, acc0) (Z.of_nat <$> seq 0 k)
  = (tr, inr (t, acc)) →
  let ckpt := sc_ckpt sc in
  let mP := prognostic_input_mask ckpt in
  let mF := computed_forcings_mask ckpt in
  let forcing (s : nat) :=
    cml_load_source env (take 1 (sc_input_fields sc))
      (sc_start_datetime sc + timedelta_hours (step_of ckpt (Z.of_nat s)))
      (computed_forcings ckpt) in
  length t = length t0
  ∧ (∀ l, (l + k < length t0)%nat → t !! l = t0 !! (l + k)%nat)
  ∧ (∀ l s, (l < length t0)%nat → (l + k = length t0 + s)%nat →
       ∃ y prediction,
         outputs env tr !! s = Some y
         ∧ np_take y (prognostic_output_mask ckpt) = inr prediction
         ∧ (NoDup mP → ∀ j i, mP !! j = Some i → i ∉ mF →
              entry t l i
              = prediction !! broadcast_index (length prediction)
                                (length mP) j)
         ∧ (NoDup mF → ∀ j i, mF !! j = Some i →
              entry t l i
              = forcing s !! broadcast_index (length (computed_forcings ckpt))
                               (length mF) j)).
Proof.
  intros Hf ckpt mP mF forcing. revert tr t acc Hf.
  induction k as [|k IH]; intros tr t acc.
  - simpl. intros [= <- <- <-]. split; [done|]. split.
    + intros l _. by rewrite Nat.add_0_r.
    + intros l s Hl Hs. lia.
  - rewrite seq_S, fmap_app, list_fmap_singleton, foldM_snoc.
    simpl (0 + k)%nat.
    intros (tr1 & [t1 acc1] & tr2 & H1 & H2 & ->)%bind_inr.
    destruct (IH _ _ _ H1) as (Hlen1 & Hold & Hnew). clear IH.
    pose proof (rollout_predictions _ _ _ _ _ H1) as Hnp.
    pose proof (rollout_step_numbers_step _ _ _ _ _ _ H2) as [_ Hp2].
    simpl in Hp2.
    apply rollout_step_inr in H2
      as (fields & accums & pfs & _ & _ & _ & _ & Hpfs & Hfl & Hadv).
    pose proof (advance_shift _ _ _ _ _ _ Hadv) as (Hlen & Hshift).
    apply advance_entries in Hadv as (Hpos & _ & _ & _ & HP & HF).
    rewrite Hlen1 in *.
    split; [done|]. split.
    + intros l Hl. rewrite Hshift by lia. rewrite Hold by lia.
      f_equal. lia.
    + intros l s Hl Hs.
      assert (Hout : outputs env (tr1 ++ tr2)
                     = outputs env tr1 ++ [predict_step env t1]).
      { unfold outputs. by rewrite omap_app, Hp2, fmap_app. }
      destruct (decide (S l < length t0)%nat) as [Hlt|Hge].
      * destruct (Hnew (S l) s) as (y & prediction & Hy & Hpr & HyP & HyF);
          [lia..|].
        exists y, prediction. split.
        { rewrite Hout. by apply lookup_app_l_Some. }
        split; [done|].
        unfold entry in *. rewrite Hshift by lia. done.
      * assert (l = (length t0 - 1)%nat) as -> by lia.
        assert (s = k) as -> by lia.
        exists (predict_step env t1), pfs. split.
        { rewrite Hout. rewrite lookup_app_r; unfold outputs;
            rewrite length_fmap, Hnp; [|lia]. by rewrite Nat.sub_diag. }
        split; [done|]. split; [exact HP|].
        intros Hnd j i Hj. rewrite (HF Hnd j i Hj). by rewrite Hfl.
Qed.

(** The forcing rows of the assembled tensor, and the events of the
    assembly. *)
Lemma prepared_forcings ckpt input_fields start_datetime tr0 sc
    (t0 : Tensor) (acc0 : list Row) :
  prepare env ckpt input_fields start_datetime = (tr0, inr (sc, (t0, acc0))) →
  let forcings h := cml_load_source env (take 1 input_fields)
                      (start_datetime + timedelta_hours h)
                      (computed_forcings ckpt) in
  length t0 = length (lagged ckpt)
  ∧ (NoDup (computed_forcings_mask ckpt) → ∀ l h j i,
       lagged ckpt !! l = Some h →
       computed_forcings_mask ckpt !! j = Some i →
       entry t0 l i
       = forcings h !! broadcast_index (length (computed_forcings ckpt))
                         (length (computed_forcings_mask ckpt)) j)
  ∧ tr0 = LoadSource start_datetime (computed_constants ckpt)
          :: ((λ h, LoadSource (start_datetime + timedelta_hours h)
                      (computed_forcings ckpt)) <$> lagged ckpt)
          ++ [CallbackInit input_fields
                (init_payload ckpt (sc_precip_template sc)
                   (sc_gridpoints sc))].
Proof.
  intros Hp forcings.
  apply prepare_inr in Hp as
    [Hsc (rows & Hrows & src & cols & tra & Hsrc & Hcl & Hcols & Hpc & Ha & ->) _ _].
  set (g := sc_gridpoints sc) in *. set (nlags := length (lagged ckpt)) in *.
  set (n := num_input_features ckpt) in *.
  assert (Hlsrc : length src = nlags).
  { by apply (reshape_lags_lookup nlags g _ src 0 0) in Hsrc as [? _]. }
  apply assemble_inr in Ha as (t1 & t2 & t3 & S1 & S2 & S3 & S4 & ->);
    [|done].
  apply slotwise_assign in S1 as (Sh1 & _ & _).
  apply slotwise_assign in S2 as (Sh2 & _ & _).
  apply slotwise_assign in S3 as (Sh3 & _ & _).
  apply slotwise_assign in S4 as (Sh4 & _ & Sa4).
  pose proof (full_nan_shape (V:=V) nlags n g) as Sh0.
  assert (Hl3 : length t3 = nlags) by (by apply Sh1, Sh2, Sh3 in Sh0 as [? _]).
  assert (Hl4 : length t0 = nlags)
    by (by apply Sh1, Sh2, Sh3, Sh4 in Sh0 as [? _]).
  split; [done|]. split; [|done].
  intros Hnd l h j i Hh Hj.
  destruct (Sa4 Hnd l j i) as (rs & (h' & Hh' & -> & Hlen) & ->);
    [rewrite Hl3; by eapply lookup_lt_Some|done|].
  assert (h' = h) as -> by congruence. by rewrite Hlen.
Qed.

(** The entries of the list of the lag offsets. *)
Lemma lagged_lookup (ckpt : Checkpoint) (l : nat) (h : Z) :
  0 ≤ hour_steps ckpt → lagged ckpt !! l = Some h →
  (l < length (lagged ckpt))%nat
  ∧ h = - Z.of_nat (length (lagged ckpt) - 1 - l) * hour_steps ckpt.
Proof.
  intros Hhs Hl. split; [by eapply lookup_lt_Some|].
  rewrite lagged_closed_form in * by done. unfold lag_offsets in *.
  rewrite length_fmap, length_seq.
  rewrite list_lookup_fmap in Hl.
  apply fmap_Some in Hl as (j & [-> Hj]%lookup_seq & ->). simpl.
  do 2 f_equal. lia.
Qed.

(** The forcing rows of the window follow the dates of its slots: after
    [k] steps the slot of the lag offset [h] holds the forcings of the
    date [start + k * hour_steps + h] hours, whether the assembly or a step
    computed them. *)
Theorem window_forcing_dates (ckpt : Checkpoint) (input_fields : list Field)
    (start_datetime : datetime) (tr0 tr : list Event) (sc : Scope)
    (t0 t : Tensor) (acc0 acc : list Row) (k : nat) :
  prepare env ckpt input_fields start_datetime = (tr0, inr (sc, (t0, acc0))) →
  foldM (rollout_step env sc) (t0, acc0) (Z.of_nat <$> seq 0 k)
  = (tr, inr (t, acc)) →
  0 ≤ hour_steps ckpt →
  NoDup (computed_forcings_mask ckpt) →
  ∀ l h j i,
    lagged ckpt !! l = Some h →
    computed_forcings_mask ckpt !! j = Some i →
    entry t l i
    = cml_load_source env (take 1 input_fields)
        (start_datetime
         + timedelta_hours (Z.of_nat k * hour_steps ckpt + h))
        (computed_forcings ckpt)
      !! broadcast_index (length (computed_forcings ckpt))
           (length (computed_forcings_mask ckpt)) j.
Proof.
  intros Hp Hf Hhs Hnd l h j i Hl Hj.
  pose proof (prepared_tensor _ _ _ _ _ _ _ _ Hp) as (Hck & Hif & Hsd & _).
  pose proof (prepared_forcings _ _ _ _ _ _ _ Hp) as (Hlen0 & Hbase & _).
  pose proof (window_contents _ _ _ _ _ _ _ Hf) as (Hlen & Hold & Hnew).
  rewrite Hck, Hif, Hsd, Hlen0 in *. clear Hck Hif Hsd.
  pose proof (lagged_lookup _ _ _ Hhs Hl) as [Hlt ->].
  set (nlags := length (lagged ckpt)) in *.
  destruct (decide (l + k < nlags)%nat) as [Hin|Hout].
  - unfold entry. rewrite Hold by done. fold (entry t0 (l + k) i).
    destruct (lookup_lt_is_Some_2 (lagged ckpt) (l + k)%nat Hin) as [h' Hh'].
    rewrite (Hbase Hnd _ _ _ _ Hh' Hj).
    apply lagged_lookup in Hh' as [_ ->]; [|done]. fold nlags.
    do 3 f_equal. unfold timedelta_hours. f_equal. nia.
  - destruct (Hnew l (l + k - nlags)%nat) as (y & pr & _ & _ & _ & HF);
      [done|lia|].
    rewrite (HF Hnd j i Hj). do 3 f_equal.
    unfold timedelta_hours, step_of. f_equal. nia.
Qed.

(** The prognostic rows of the window are the last predictions: after [k]
    steps a slot [l] with [l + k >= L] holds the prediction of the step of
    index [l + k - L], an older slot still holds the rows of the assembled
    slot [l + k]. *)
Theorem window_prognostic_history (ckpt : Checkpoint)
    (input_fields : list Field) (start_datetime : datetime)
    (tr0 tr : list Event) (sc : Scope) (t0 t : Tensor)
    (acc0 acc : list Row) (k : nat) :
  prepare env ckpt input_fields start_datetime = (tr0, inr (sc, (t0, acc0))) →
  foldM (rollout_step env sc) (t0, acc0) (Z.of_nat <$> seq 0 k)
  = (tr, inr (t, acc)) →
  NoDup (prognostic_input_mask ckpt) →
  let nlags := length (lagged ckpt) in
  let mP := prognostic_input_mask ckpt in
  length (outputs env tr) = k
  ∧ ∀ l j i, (l < nlags)%nat → mP !! j = Some i →
      if decide (l + k < nlags)%nat
      then entry t l i = entry t0 (l + k) i
      else ∃ y prediction,
             outputs env tr !! (l + k - nlags)%nat = Some y
             ∧ np_take y (prognostic_output_mask ckpt) = inr prediction
             ∧ entry t l i
               = prediction !! broadcast_index (length prediction)
                                 (length mP) j.
Proof.
  intros Hp Hf Hnd nlags mP.
  pose proof (prepared_tensor _ _ _ _ _ _ _ _ Hp)
    as (Hck & _ & _ & Hpart & _).
  pose proof (prepared_forcings _ _ _ _ _ _ _ Hp) as (Hlen0 & _).
  pose proof (window_contents _ _ _ _ _ _ _ Hf) as (Hlen & Hold & Hnew).
  rewrite Hck, Hlen0 in *. fold nlags in Hold, Hnew.
  split.
  { unfold outputs. rewrite length_fmap. by eapply rollout_predictions. }
  intros l j i Hl Hj. destruct (decide (l + k < nlags)%nat) as [Hin|Hout].
  - unfold entry. by rewrite Hold.
  - destruct (Hnew l (l + k - nlags)%nat) as (y & pr & Hy & Hpr & HP & _);
      [done|lia|].
    exists y, pr. split; [done|]. split; [done|].
    apply (HP Hnd j i Hj).
    pose proof (partition_facts ckpt Hpart) as [_ Hdis].
    specialize (Hdis i).
    assert (i ∈ prognostic_input_mask ckpt)
      by (by eapply list_elem_of_lookup_2).
    tauto.
Qed.

End WindowContents.

(** ** The run as a whole *)

Lemma foldM_traces {E A S} (f : S → A → Eff E S) (P : A → list E → Prop)
    (l : list A) :
  (∀ s a tr s', f s a = (tr, inr s') → P a tr) →
  ∀ s tr s', foldM f s l = (tr, inr s') →
  ∃ trs, tr = concat trs ∧ Forall2 P l trs.
Proof.
  intros Hf. induction l as [|a l IH]; intros s tr s'; simpl.
  - intros [= <- _]. exists []. by split; [|constructor].
  - intros (tr1 & s1 & tr2 & H1 & H2 & ->)%bind_inr.
    destruct (IH _ _ _ H2) as (trs & -> & Htrs).
    exists (tr1 :: trs). split; [done|]. constructor; [|done]. by eapply Hf.
Qed.

Section WholeRun.

Context {V : Type} `{Float32 V}.
Variable env : Collaborators V.

Local Abbreviation Event := (Event V).
Local Abbreviation Scope := (Scope V).
Local Abbreviation Field := (Field V).
Local Abbreviation Tensor := (Tensor V).
Local Abbreviation Row := (Row V).

Lemma rollout_inr (sc : Scope) (lead_time : Z) (st st' : Tensor * list Row)
    (tr : list Event) :
  rollout env sc lead_time st = (tr, inr st') →
  hour_steps (sc_ckpt sc) ≠ 0
  ∧ foldM (rollout_step env sc) st
      (Z.of_nat <$> seq 0 (Z.to_nat (lead_time `div` hour_steps (sc_ckpt sc))))
    = (tr, inr st').
Proof.
  unfold rollout, rollout_range, py_floordiv.
  destruct (decide (hour_steps (sc_ckpt sc) = 0)) as [|Hne]; [done|].
  unfold lift, py_range. intros Hb.
  apply bind_inr in Hb as (? & steps & tr' & [= <- <-] & Hf & ->). done.
Qed.

Lemma run_inr (self : Runner) (input_fields : list Field) (lead_time : Z)
    (start_datetime : datetime) (tr : list Event) (u : unit) :
  run env self input_fields lead_time start_datetime = (tr, inr u) →
  ∃ ckpt tr0 sc st tr1 st',
    checkpoint self = Some ckpt
    ∧ prepare env ckpt input_fields start_datetime = (tr0, inr (sc, st))
    ∧ rollout env sc lead_time st = (tr1, inr st')
    ∧ tr = tr0 ++ tr1.
Proof.
  unfold run, get_checkpoint. intros Hr.
  destruct (checkpoint self) as [ckpt|]; [|done].
  apply bind_inr in Hr as (? & ? & tr' & [= <- <-] & Hr & ->).
  apply bind_inr in Hr as (tr0 & [sc st] & tr'' & Hp & Hr & ->).
  apply bind_inr in Hr as (tr1 & st' & tr3 & Hro & [= <- _] & ->).
  exists ckpt, tr0, sc, st, tr1, st'. by rewrite app_nil_r.
Qed.

Lemma run_prepared (ckpt : Checkpoint) (input_fields : list Field)
    (lead_time : Z) (start_datetime : datetime) (tr0 : list Event)
    (sc : Scope) (st : Tensor * list Row) :
  prepare env ckpt input_fields start_datetime = (tr0, inr (sc, st)) →
  run env {| checkpoint := Some ckpt |} input_fields lead_time start_datetime
  = (tr0 ++ (rollout env sc lead_time st).1,
     match (rollout env sc lead_time st).2 with
     | inl e => inl e
     | inr _ => inr tt
     end).
Proof.
  intros Hp. unfold run. simpl. rewrite Hp. simpl.
  destruct (rollout env sc lead_time st) as [tr1 [e|st']]; simpl; [done|].
  by rewrite app_nil_r.
Qed.

Lemma omap_load_source_call_step (sc : Scope) st i tr st' :
  rollout_step env sc st i = (tr, inr st') →
  omap load_source_call tr
  = [(sc_start_datetime sc + timedelta_hours (step_of (sc_ckpt sc) i),
      computed_forcings (sc_ckpt sc))].
Proof.
  intros (fields & accums & -> & Hf & _ & Ha & _)%rollout_step_events.
  csimpl. rewrite !omap_app. csimpl.
  assert (omap load_source_call fields = []) as ->.
  { clear -Hf. induction Hf as [|e l (d & tp & ->) _ IH]; [done|].
    csimpl. by rewrite IH. }
  assert (omap load_source_call accums = []) as ->.
  { clear -Ha. induction Ha as [|e l (d & tp & p & ->) _ IH]; [done|].
    csimpl. by rewrite IH. }
  done.
Qed.

(** The calls of the data source in a run that completes: one for the
    constants at the start date, one per lag for the forcings at the start
    date plus the lag offset, and one per step for the forcings at the start
    date plus [k * hour_steps] hours, in this order and no other. *)
Theorem run_data_source_calls (self : Runner) (ckpt : Checkpoint)
    (input_fields : list Field) (lead_time : Z) (start_datetime : datetime)
    (tr : list Event) :
  checkpoint self = Some ckpt →
  run env self input_fields lead_time start_datetime = (tr, inr tt) →
  omap load_source_call tr
  = (start_datetime, computed_constants ckpt)
    :: ((λ h, (start_datetime + timedelta_hours h, computed_forcings ckpt))
        <$> lagged ckpt)
    ++ ((λ k : nat,
           (start_datetime + timedelta_hours (Z.of_nat k * hour_steps ckpt),
            computed_forcings ckpt))
        <$> seq 1 (Z.to_nat (lead_time `div` hour_steps ckpt))).
Proof.
  intros Hck (ckpt' & tr0 & sc & [t0 acc0] & tr1 & st' & Hck' & Hp & Hr & ->)%run_inr.
  assert (ckpt' = ckpt) as -> by congruence.
  pose proof (prepared_tensor _ _ _ _ _ _ _ _ Hp) as (Hsc & _ & Hsd & _).
  pose proof (prepared_forcings _ _ _ _ _ _ _ _ Hp) as (_ & _ & ->).
  apply rollout_inr in Hr as [Hne Hf]. rewrite Hsc in *.
  rewrite omap_app. csimpl. rewrite omap_app. csimpl.
  rewrite app_nil_r. f_equal. f_equal.
  - generalize (lagged ckpt). intros l.
    induction l as [|h l IH]; csimpl; [done|]. by rewrite IH.
  - eapply (foldM_omap (rollout_step env sc) load_source_call
               (λ i, [(start_datetime
                       + timedelta_hours (step_of ckpt i),
                       computed_forcings ckpt)])) in Hf; [rewrite Hf|].
    + generalize (Z.to_nat (lead_time `div` hour_steps ckpt)). intros m.
      rewrite <-(fmap_S_seq 0 m), <-!list_fmap_compose.
      induction (seq 0 m) as [|k l IH]; csimpl; [done|].
      rewrite IH. do 3 f_equal. unfold step_of. f_equal. lia.
    + intros s a tr' s' _ Hs.
      rewrite (omap_load_source_call_step _ _ _ _ _ Hs).
      by rewrite Hsc, Hsd.
Qed.

(** The loop header at its edges.  With a lead time below one step the
    run completes after the preparation: the model is never called and
    nothing is emitted after the initial call.  With [hour_steps = 0] the
    division of the loop header raises, after the preparation and its
    initial call of the callback. *)
Theorem run_without_steps (ckpt : Checkpoint) (input_fields : list Field)
    (lead_time : Z) (start_datetime : datetime) (tr0 : list Event)
    (sc : Scope) (st : Tensor * list Row) :
  prepare env ckpt input_fields start_datetime = (tr0, inr (sc, st)) →
  let self := {| checkpoint := Some ckpt |} in
  (0 < hour_steps ckpt → lead_time < hour_steps ckpt →
   run env self input_fields lead_time start_datetime = (tr0, inr tt))
  ∧ (hour_steps ckpt = 0 →
     run env self input_fields lead_time start_datetime
     = (tr0, inl ZeroDivisionError))
  ∧ last tr0 = Some (CallbackInit input_fields
                       (init_payload ckpt (sc_precip_template sc)
                          (sc_gridpoints sc)))
  ∧ omap predicted tr0 = [].
Proof.
  intros Hp self. destruct st as [t0 acc0].
  pose proof (prepared_tensor _ _ _ _ _ _ _ _ Hp) as (Hsc & _).
  pose proof (prepared_forcings _ _ _ _ _ _ _ _ Hp) as (_ & _ & Htr).
  split_and!.
  - intros Hhs Hlt. unfold self. rewrite (run_prepared _ _ _ _ _ _ _ Hp).
    unfold rollout, rollout_range, py_floordiv. rewrite Hsc.
    rewrite decide_False by lia. unfold py_range.
    assert (lead_time `div` hour_steps ckpt ≤ 0).
    { destruct (decide (0 ≤ lead_time)).
      - rewrite Z.div_small by lia. done.
      - pose proof (Z.div_lt_upper_bound lead_time (hour_steps ckpt) 0 Hhs).
        lia. }
    replace (Z.to_nat _) with 0%nat by lia. simpl. by rewrite app_nil_r.
  - intros Hz. unfold self. rewrite (run_prepared _ _ _ _ _ _ _ Hp).
    unfold rollout, rollout_range, py_floordiv. rewrite Hsc.
    rewrite decide_True by done. simpl. by rewrite app_nil_r.
  - rewrite Htr. rewrite app_comm_cons. by rewrite last_snoc.
  - rewrite Htr. csimpl. rewrite omap_app. csimpl. rewrite app_nil_r.
    generalize (lagged ckpt). intros l.
    induction l as [|h l IH]; csimpl; done.
Qed.

(** On a grid of a single point, or with a model of a single output
    feature, [np.squeeze] leaves an array with one axis and the first step
    raises [IndexError] right after the call of the model: nothing is
    emitted for any step. *)
Theorem run_single_column_fails (ckpt : Checkpoint)
    (input_fields : list Field) (lead_time : Z) (start_datetime : datetime)
    (tr0 : list Event) (sc : Scope) (t0 : Tensor) (acc0 : list Row) :
  prepare env ckpt input_fields start_datetime = (tr0, inr (sc, (t0, acc0))) →
  0 < hour_steps ckpt → hour_steps ckpt ≤ lead_time →
  sc_gridpoints sc = 1%nat ∨ length (predict_step env t0) = 1%nat →
  run env {| checkpoint := Some ckpt |} input_fields lead_time start_datetime
  = (tr0 ++ [Predict t0], inl IndexError).
Proof.
  intros Hp Hhs Hle Hone.
  pose proof (prepared_tensor _ _ _ _ _ _ _ _ Hp) as (Hsc & _).
  assert (Hstep : ∀ st' : Tensor * list Row → Eff Event (Tensor * list Row),
            bind (rollout_step env sc (t0, acc0) (Z.of_nat 0)) st'
            = ([Predict t0], inl IndexError)).
  { intros st'. unfold rollout_step, squeezed_columns. cbn [fst snd].
    rewrite decide_True by done. done. }
  assert (Hro : rollout env sc lead_time (t0, acc0)
                = ([Predict t0], inl IndexError)).
  { unfold rollout, rollout_range, py_floordiv. rewrite Hsc.
    rewrite decide_False by lia. unfold py_range.
    assert (1 ≤ lead_time `div` hour_steps ckpt)
      by (apply Z.div_le_lower_bound; lia).
    destruct (Z.to_nat (lead_time `div` hour_steps ckpt)) as [|m] eqn:Hm;
      [lia|].
    unfold lift. rewrite (bind_ok _ _ [] _ eq_refl).
    cbn [seq fmap list_fmap foldM]. by rewrite Hstep. }
  rewrite (run_prepared _ _ _ _ _ _ _ Hp). by rewrite Hro.
Qed.

(** The events of a run that completes, in their order: the calls of the
    data source of the assembly, the initial call of the callback, and then
    for the step [k = 1, 2, ..] the call of the model, the prognostic
    emissions of the step [k * hour_steps], its accumulation emissions and
    the call of the data source for the next forcing.  Nothing is logged as
    an error. *)
Theorem run_trace_shape (self : Runner) (ckpt : Checkpoint)
    (input_fields : list Field) (lead_time : Z) (start_datetime : datetime)
    (tr : list Event) :
  checkpoint self = Some ckpt →
  run env self input_fields lead_time start_datetime = (tr, inr tt) →
  ∃ sc steps,
    tr = LoadSource start_datetime (computed_constants ckpt)
         :: ((λ h, LoadSource (start_datetime + timedelta_hours h)
                     (computed_forcings ckpt)) <$> lagged ckpt)
         ++ CallbackInit input_fields
              (init_payload ckpt (sc_precip_template sc) (sc_gridpoints sc))
         :: concat steps
    ∧ Forall2 (λ (k : nat) (events : list Event),
        let step := Z.of_nat k * hour_steps ckpt in
        ∃ x fields accums,
          events = Predict x :: fields ++ accums
                   ++ [LoadSource (start_datetime + timedelta_hours step)
                         (computed_forcings ckpt)]
          ∧ Forall (field_event_at step) fields
          ∧ length fields = prognostic_emissions sc
          ∧ Forall (accum_event_at step) accums
          ∧ length accums = accumulation_emissions sc)
        (seq 1 (Z.to_nat (lead_time `div` hour_steps ckpt))) steps.
Proof.
  intros Hck (ckpt' & tr0 & sc & [t0 acc0] & tr1 & st' & Hck' & Hp & Hr & ->)%run_inr.
  assert (ckpt' = ckpt) as -> by congruence.
  pose proof (prepared_tensor _ _ _ _ _ _ _ _ Hp) as (Hsc & _ & Hsd & _).
  pose proof (prepared_forcings _ _ _ _ _ _ _ _ Hp) as (_ & _ & ->).
  apply rollout_inr in Hr as [Hne Hf]. rewrite Hsc in *.
  eapply (foldM_traces (rollout_step env sc)
            (λ (i : Z) (events : list Event),
               let step := step_of ckpt i in
               ∃ x fields accums,
                 events = Predict x :: fields ++ accums
                          ++ [LoadSource
                                (start_datetime + timedelta_hours step)
                                (computed_forcings ckpt)]
                 ∧ Forall (field_event_at step) fields
                 ∧ length fields = prognostic_emissions sc
                 ∧ Forall (accum_event_at step) accums
                 ∧ length accums = accumulation_emissions sc)) in Hf.
  - destruct Hf as (steps & -> & Hsteps). exists sc, steps. split.
    + rewrite <-app_comm_cons. f_equal. by rewrite <-(assoc_L (++)).
    + rewrite <-(fmap_S_seq 0). apply Forall2_fmap_l.
      apply Forall2_fmap_l in Hsteps.
      eapply Forall2_impl; [exact Hsteps|]. intros k events. simpl.
      unfold step_of. by replace (Z.of_nat k + 1) with (Z.of_nat (S k)) by lia.
  - intros st i tr' st'' Hs. simpl.
    apply rollout_step_events in Hs
      as (fields & accums & -> & H1 & H2 & H3 & H4).
    rewrite Hsc, Hsd in *. by exists st.1, fields, accums.
Qed.

End WholeRun.

(** ** The emissions and the exceptions of a step *)

Lemma raised_bind {E A B} (m : Eff E A) (k : A → Eff E B) :
  raised (bind m k)
  = match m.2 with
    | inl e => Some e
    | inr a => raised (k a)
    end.
Proof. by destruct m as [tr [e|a]]. Qed.

Lemma raised_foldM {E A S} (f : S → A → Eff E S) (l : list A) (s : S) e :
  raised (foldM f s l) = Some e → ∃ s' a, a ∈ l ∧ raised (f s' a) = Some e.
Proof.
  revert s. induction l as [|a l IH]; intros s; simpl; [done|].
  rewrite raised_bind. destruct (f s a) as [tr [e'|s']] eqn:Hf; simpl.
  - intros [= ->]. exists s, a. split; [left|]. by rewrite Hf.
  - intros (s'' & a' & Ha' & Hr)%IH. exists s'', a'. split; [by right|done].
Qed.

Lemma raised_lift {E A} (r : PyResult A) e :
  raised (lift (E:=E) r) = Some e ↔ r = inl e.
Proof. unfold raised, lift. simpl. destruct r; naive_solver. Qed.

Section StepEvents.

Context {V : Type} `{Float32 V}.
Variable env : Collaborators V.

Local Abbreviation Event := (Event V).
Local Abbreviation Scope := (Scope V).
Local Abbreviation Field := (Field V).
Local Abbreviation Tensor := (Tensor V).
Local Abbreviation Row := (Row V).

(** The prognostic emissions of a step, in order: the [n]-th one carries
    the row of the output feature [prognostic_output_mask[n]] and the
    template [reference_fields[m]], [m] being the [n]-th retrieved-field
    index of the prognostic inputs; there is one per pair of
    [zip(prognostic_data_from_retrieved_fields_mask, prognostic_params)],
    so that the shorter of the two lists decides how many. *)
Theorem prognostic_emissions_carry (sc : Scope) (t : Tensor) (acc : list Row)
    (i : Z) (tr : list Event) (st' : Tensor * list Row) :
  rollout_step env sc (t, acc) i = (tr, inr st') →
  let ckpt := sc_ckpt sc in
  let y_pred := predict_step env t in
  Forall2 (λ (nm : nat * (nat * string)) (e : Row * Field * Z),
      ∃ o data template,
        prognostic_output_mask ckpt !! nm.1 = Some o
        ∧ y_pred !! o = Some data
        ∧ sc_reference_fields sc !! nm.2.1 = Some template
        ∧ valid_datetime template = sc_most_recent_datetime sc
        ∧ e = (data, template, step_of ckpt i))
    (enumerate (zip (sc_prog_cols sc) (prognostic_params ckpt)))
    (omap field_emission tr)
  ∧ length (omap field_emission tr)
    = (length (sc_prog_cols sc) `min` length (prognostic_params ckpt))%nat.
Proof.
  intros Hstep ckpt y_pred.
  pose proof (rollout_step_events _ _ _ _ _ _ Hstep)
    as (fields0 & accums0 & Htr0 & _ & Hlen0 & Hacc0 & _).
  unfold rollout_step in Hstep. cbn [fst snd] in Hstep.
  fold ckpt y_pred in Hstep.
  apply bind_inr in Hstep as (? & [] & tr1 & [= <-] & H1 & ->).
  apply bind_inr in H1 as (? & pf & tr2 & [Hpf ->]%lift_inr & H2 & ->).
  apply bind_inr in H2 as (trd & df & tr3 & Hdf & H3 & ->).
  apply bind_inr in H3 as (fields & [] & tr4 & Hfields & H4 & ->).
  assert (trd = []) as ->.
  { destruct (negb _); [by apply lift_inr in Hdf as [_ ->]|].
    by injection Hdf as <- _. }
  simpl in Htr0. injection Htr0 as Htr0.
  apply squeezed_columns_inr in Hpf as (_ & _ & Hpf%np_take_inr).
  assert (Hf2 : Forall2 (λ (nm : nat * (nat * string)) (e : Event),
      ∃ o data template,
        prognostic_output_mask ckpt !! nm.1 = Some o
        ∧ y_pred !! o = Some data
        ∧ sc_reference_fields sc !! nm.2.1 = Some template
        ∧ valid_datetime template = sc_most_recent_datetime sc
        ∧ e = CallbackField data template (step_of ckpt i) true)
      (enumerate (zip (sc_prog_cols sc) (prognostic_params ckpt))) fields).
  { eapply foldM_one_event; [|exact Hfields]. simpl.
    intros [] nm tr0 [] Hemit. unfold emit_prognostic in Hemit.
    cbn [fst snd] in Hemit.
    apply bind_inr in Hemit
      as (? & template & ? & [Htp ->]%lift_inr & Hemit & ->).
    apply bind_inr in Hemit
      as (? & [] & ? & [Hd ->]%py_assert_inr & Hemit & ->).
    apply bind_inr in Hemit
      as (? & data & ? & [Hdata ->]%lift_inr & [= <-] & ->).
    eexists. split; [done|].
    unfold py_index in Htp, Hdata.
    destruct (sc_reference_fields sc !! nm.2.1) as [tp|] eqn:Htp';
      [|done]. injection Htp as ->.
    destruct (pf !! nm.1) as [d|] eqn:Hd'; [|done]. injection Hdata as ->.
    destruct (Forall2_lookup_r _ _ _ _ _ Hpf Hd') as (o & Ho & Hy).
    apply bool_decide_eq_true in Hd.
    by exists o, data, template. }
  (* the events after the prognostic emissions carry no such emission *)
  assert (Hlen : length fields = length fields0).
  { apply Forall2_length in Hf2. rewrite enumerate_length in Hf2.
    by rewrite <-Hf2, Hlen0. }
  apply app_inj_1 in Htr0 as [_ ->]; [|done].
  assert (Hrest : omap field_emission
                    (accums0 ++ [LoadSource (V:=V)
                       (sc_start_datetime sc
                        + timedelta_hours (step_of (sc_ckpt sc) i))
                       (computed_forcings (sc_ckpt sc))]) = []).
  { rewrite omap_app. csimpl. rewrite app_nil_r. clear -Hacc0.
    induction Hacc0 as [|e l (d & tp & p & ->) _ IH]; [done|].
    csimpl. by rewrite IH. }
  lazymatch goal with
  | |- context [omap field_emission ?x] =>
      assert (Htr : omap field_emission x = omap field_emission fields)
  end.
  { rewrite !omap_app in *. rewrite Hrest. csimpl. by rewrite app_nil_r. }
  rewrite Htr. clear Htr.
  assert (HF : Forall2 (λ (nm : nat * (nat * string)) (e : Row * Field * Z),
      ∃ o data template,
        prognostic_output_mask ckpt !! nm.1 = Some o
        ∧ y_pred !! o = Some data
        ∧ sc_reference_fields sc !! nm.2.1 = Some template
        ∧ valid_datetime template = sc_most_recent_datetime sc
        ∧ e = (data, template, step_of ckpt i))
    (enumerate (zip (sc_prog_cols sc) (prognostic_params ckpt)))
    (omap field_emission fields)).
  { clear -Hf2.
    induction Hf2 as [|nm e l1 l2 (o & d & tp & ? & ? & ? & ? & ->) _ IH];
      csimpl; constructor; [|done]. by exists o, d, tp. }
  split; [done|].
  apply Forall2_length in HF. rewrite enumerate_length, length_zip in HF.
  done.
Qed.

(** The templates of a prepared run: [most_recent_datetime] is the date of
    the last field and no field is later; [reference_fields] holds exactly
    the fields of that date, the last one among them; [precip_template] is
    one of them. *)
Lemma prepared_templates ckpt input_fields start_datetime tr0 sc
    (t0 : Tensor) (acc0 : list Row) :
  prepare env ckpt input_fields start_datetime = (tr0, inr (sc, (t0, acc0))) →
  let mr := sc_most_recent_datetime sc in
  (∃ latest, last input_fields = Some latest ∧ mr = valid_datetime latest
             ∧ latest ∈ sc_reference_fields sc)
  ∧ Forall (λ f, valid_datetime f ≤ mr) input_fields
  ∧ (∀ f, f ∈ sc_reference_fields sc
          ↔ f ∈ input_fields ∧ valid_datetime f = mr)
  ∧ sc_precip_template sc ∈ sc_reference_fields sc.
Proof.
  intros Hp mr.
  apply prepare_inr in Hp as [(_ & _ & _ & _ & Hmr & Href & Htpl) _ _ _].
  fold mr in Hmr, Href. rewrite get_most_recent_datetime_eq in Hmr.
  destruct (last input_fields) as [latest|] eqn:Hlast; [|done].
  destruct (forallb _ input_fields) eqn:Hall; [|done].
  simpl in Hmr. injection Hmr as Hmr.
  assert (Hmem : ∀ f, f ∈ sc_reference_fields sc
                      ↔ f ∈ input_fields ∧ valid_datetime f = mr).
  { intros f. rewrite Href. unfold reference_fields_of.
    rewrite list_elem_of_filter. tauto. }
  split_and!.
  - exists latest. split; [done|]. split; [done|]. apply Hmem. split; [|done].
    apply last_Some in Hlast as [l' ->]. apply elem_of_app. right. by left.
  - apply Forall_forall. intros f Hf. rewrite <-Hmr.
    rewrite forallb_forall in Hall.
    apply list_elem_of_In, Hall, bool_decide_eq_true in Hf. done.
  - done.
  - unfold precip_template_of in Htpl.
    destruct (variable_to_index ckpt !! "2t") as [k|]; [|done].
    unfold py_index in Htpl.
    destruct (sc_reference_fields sc !! k) as [f|] eqn:Hk; [|done].
    injection Htpl as <-. by eapply list_elem_of_lookup_2.
Qed.

Lemma squeezed_columns_inl (g : nat) (y : list Row) (mask : list nat) e :
  squeezed_columns g y mask = inl e → e = IndexError.
Proof.
  unfold squeezed_columns. destruct (decide _); [by intros [= <-]|].
  by intros [-> _]%np_take_inl.
Qed.

Lemma assign_rows_inl (mm : PyError) (g : nat) (slot : list Row)
    (mask : list nat) (src : list Row) e :
  assign_rows mm g slot mask src = inl e → e = mm ∨ e = IndexError.
Proof.
  unfold assign_rows, broadcast_rows.
  destruct (forallb _ src); [|intros [= <-]; by left].
  destruct (decide (length src = length mask)).
  - destruct (forallb _ mask); [done|]. intros [= <-]. by right.
  - destruct src as [|r [|r' src]]; try (intros [= <-]; by left).
    destruct (forallb _ mask); [done|]. intros [= <-]. by right.
Qed.

Lemma advance_inl (ckpt : Checkpoint) (g : nat) (t : Tensor)
    (prognostic_fields forcing : list Row) e :
  advance ckpt g t prognostic_fields forcing = inl e →
  e = torch_mismatch ∨ e = IndexError.
Proof.
  assert (Hlast : ∀ (t : Tensor) mask src e,
            assign_last g t mask src = inl e →
            e = torch_mismatch ∨ e = IndexError).
  { intros t1 mask src e1. unfold assign_last.
    destruct (last t1) as [slot|]; [|intros [= <-]; by right].
    destruct (assign_rows _ _ _ _ _) as [e2|slot'] eqn:Ha; [|done].
    intros [= <-]. by eapply assign_rows_inl. }
  unfold advance.
  destruct (assign_last g (roll_lags t) _ _) as [e1|t1] eqn:H1.
  - intros [= <-]. by eapply Hlast.
  - apply Hlast.
Qed.

Lemma forcing_and_constants_result source date param :
  (forcing_and_constants env source date param).2
  = if decide (length (cml_load_source env source date param)
               = length param)
    then inr (cml_load_source env source date param)
    else inl AssertionError.
Proof.
  unfold forcing_and_constants. simpl.
  destruct (decide _); [by rewrite bool_decide_eq_true_2|].
  by rewrite bool_decide_eq_false_2.
Qed.

(** In a run started by [run] the date checks of the rollout cannot fail:
    every template has the most recent date.  A step that raises
    [AssertionError] does so in [forcing_and_constants], the data source
    having answered with another number of fields than parameters. *)
Theorem step_assertion_is_data_source (ckpt : Checkpoint)
    (input_fields : list Field) (start_datetime : datetime)
    (tr0 : list Event) (sc : Scope) (t0 : Tensor) (acc0 : list Row)
    (st : Tensor * list Row) (i : Z) :
  prepare env ckpt input_fields start_datetime = (tr0, inr (sc, (t0, acc0))) →
  Forall (λ f, valid_datetime f = sc_most_recent_datetime sc)
    (sc_reference_fields sc)
  ∧ valid_datetime (sc_precip_template sc) = sc_most_recent_datetime sc
  ∧ (raised (rollout_step env sc st i) = Some AssertionError →
     length (cml_load_source env (take 1 input_fields)
               (start_datetime + timedelta_hours (step_of ckpt i))
               (computed_forcings ckpt))
     ≠ length (computed_forcings ckpt)).
Proof.
  intros Hp.
  pose proof (prepared_tensor _ _ _ _ _ _ _ _ Hp) as (Hsc & Hif & Hsd & _).
  pose proof (prepared_templates _ _ _ _ _ _ _ Hp) as (_ & _ & Hmem & Htpl).
  assert (Hrefs : Forall (λ f, valid_datetime f = sc_most_recent_datetime sc)
                    (sc_reference_fields sc)).
  { apply Forall_forall. intros f Hf. by apply Hmem in Hf as [_ ?]. }
  assert (Hprecip : valid_datetime (sc_precip_template sc)
                    = sc_most_recent_datetime sc).
  { by apply Hmem in Htpl as [_ ?]. }
  split; [done|]. split; [done|].
  unfold rollout_step. rewrite Hsc, Hif, Hsd.
  rewrite raised_bind. cbn [tell snd].
  rewrite raised_bind.
  destruct (lift (squeezed_columns _ _ (prognostic_output_mask ckpt)))
    as [tr1 [e1|pf]] eqn:H1; cbn [snd].
  { injection H1 as _ H1. by intros [= ->]; apply squeezed_columns_inl in H1. }
  rewrite raised_bind.
  destruct (if negb (bool_decide (diagnostic_output_mask ckpt = []))
            then lift (squeezed_columns _ _ (diagnostic_output_mask ckpt))
            else ret []) as [tr2 [e2|df]] eqn:H2; cbn [snd].
  { destruct (negb _); [|done]. injection H2 as _ H2.
    by intros [= ->]; apply squeezed_columns_inl in H2. }
  rewrite raised_bind.
  destruct (foldM _ tt (enumerate (zip _ _))) as [tr3 [e3|[]]] eqn:H3;
    cbn [snd].
  { intros [= ->].
    assert (Hr3 : raised (foldM (λ (_ : ()) nm,
                     emit_prognostic (sc_reference_fields sc)
                       (sc_most_recent_datetime sc) pf (step_of ckpt i)
                       (nm.1, nm.2.1)) ()
                    (enumerate (zip (sc_prog_cols sc)
                                  (prognostic_params ckpt))))
                  = Some AssertionError) by (by rewrite H3).
    apply raised_foldM in Hr3 as ([] & nm & _ & Hr3).
    unfold emit_prognostic in Hr3. cbn [fst snd] in Hr3.
    rewrite raised_bind in Hr3. unfold lift at 1 in Hr3. cbn [snd] in Hr3.
    unfold py_index in Hr3 at 1.
    destruct (sc_reference_fields sc !! nm.2.1) as [tp|] eqn:Htp; [|done].
    rewrite raised_bind in Hr3.
    rewrite Forall_lookup in Hrefs. rewrite (Hrefs _ _ Htp) in Hr3.
    rewrite bool_decide_eq_true_2 in Hr3 by done. cbn [py_assert ret snd] in Hr3.
    rewrite raised_bind in Hr3. unfold lift, py_index in Hr3. cbn [snd] in Hr3.
    by destruct (pf !! nm.1). }
  rewrite raised_bind.
  destruct (if negb (bool_decide (diagnostic_output_mask ckpt = []))
            then foldM _ st.2 (enumerate (diagnostic_params ckpt))
            else ret st.2) as [tr4 [e4|acc1]] eqn:H4; cbn [snd].
  { intros [= ->]. destruct (negb _); [|done].
    assert (Hr4 : raised (foldM (accumulate (sc_precip_template sc)
                     (sc_most_recent_datetime sc) df (step_of ckpt i))
                    st.2 (enumerate (diagnostic_params ckpt)))
                  = Some AssertionError) by (by rewrite H4).
    apply raised_foldM in Hr4 as (acc' & np & _ & Hr4).
    unfold accumulate in Hr4.
    rewrite raised_bind in Hr4. unfold lift at 1 in Hr4. cbn [snd] in Hr4.
    unfold py_index at 1 in Hr4.
    destruct (acc' !! np.1) as [row|]; [|done].
    rewrite raised_bind in Hr4. unfold lift at 1 in Hr4. cbn [snd] in Hr4.
    unfold py_index at 1 in Hr4.
    destruct (df !! np.1) as [v|]; [|done].
    rewrite raised_bind in Hr4. unfold lift at 1 in Hr4. cbn [snd] in Hr4.
    unfold iadd_maximum0 in Hr4.
    destruct (decide (length v = length row)); [|done].
    rewrite raised_bind in Hr4.
    rewrite bool_decide_eq_true_2 in Hr4 by done. done. }
  rewrite raised_bind.
  destruct (lift (np_take _ (prognostic_output_mask ckpt)))
    as [tr5 [e5|pfs]] eqn:H5; cbn [snd].
  { injection H5 as _ H5. by intros [= ->]; apply np_take_inl in H5 as [? _]. }
  rewrite raised_bind, forcing_and_constants_result.
  destruct (decide (length (cml_load_source env (take 1 input_fields)
                      (start_datetime + timedelta_hours (step_of ckpt i))
                      (computed_forcings ckpt))
                    = length (computed_forcings ckpt))) as [Heq|Hne];
    [|done].
  rewrite raised_bind.
  destruct (lift (advance _ _ _ _ _)) as [tr6 [e6|t']] eqn:H6; cbn [snd];
    [|done].
  injection H6 as _ H6. intros [= ->].
  by apply advance_inl in H6 as [?|?].
Qed.

End StepEvents.

(** ** The sign of the accumulations *)

Section Sign.

Context {V : Type} `{Float32Order V}.
Variable env : Collaborators V.

Local Abbreviation Event := (Event V).
Local Abbreviation Scope := (Scope V).
Local Abbreviation Field := (Field V).
Local Abbreviation Tensor := (Tensor V).
Local Abbreviation Row := (Row V).

(** No accumulation that the callback receives is negative: when the
    diagnostic outputs of the model hold no NaN, every value of every
    accumulation emission is a number that is at least zero, whatever the
    sign of the outputs. *)
Theorem accumulations_nonnegative (ckpt : Checkpoint)
    (input_fields : list Field) (start_datetime : datetime) (lead_time : Z)
    (tr0 tr : list Event) (sc : Scope) (t0 t : Tensor) (acc0 acc : list Row) :
  prepare env ckpt input_fields start_datetime = (tr0, inr (sc, (t0, acc0))) →
  rollout env sc lead_time (t0, acc0) = (tr, inr (t, acc)) →
  (∀ y n, y ∈ outputs env tr → numbers (diagnostic_row ckpt y n)) →
  ∀ step param data,
    (step, param, data) ∈ omap accum_emission tr →
    Forall (λ a, f32_isnan a = false ∧ f32_le f32_zero a) data.
Proof.
  intros Hp Hr Hnum step param data Hin.
  apply prepare_inr in Hp as [(Hck & _) _ _ Hacc0]. subst acc0.
  apply rollout_inr in Hr as [_ Hr]. rewrite Hck in Hr.
  pose proof (rollout_accumulation env sc t0
                (Z.to_nat (lead_time `div` hour_steps ckpt)) tr t acc) as Hinv.
  rewrite Hck in Hinv.
  destruct (Hinv Hr) as (_ & _ & _ & Hlaw). rewrite Hlaw in Hin.
  unfold accumulation_law in Hin.
  destruct (bool_decide (diagnostic_output_mask ckpt = []));
    [by apply not_elem_of_nil in Hin|].
  apply list_elem_of_bind in Hin as (k & Hin & _).
  apply list_elem_of_fmap in Hin as ([n p] & [= _ _ ->] & _).
  apply accumulated_nonneg. unfold diagnostic_rows.
  apply Forall_fmap, Forall_forall. intros y Hy. apply Hnum.
  apply list_elem_of_lookup in Hy as [i Hi].
  apply lookup_take_Some in Hi as [Hi _]. by eapply list_elem_of_lookup_2.
Qed.

End Sign.

(** ** The retrieved fields and the features they feed *)

Lemma retrieved_index_filter (ckpt : Checkpoint) (n : nat) :
  retrieved_index ckpt <$> filter (is_input ckpt) (seq 0 n)
  = seq 0 (retrieved_index ckpt n).
Proof.
  induction n as [|n IH]; [done|].
  rewrite seq_S, filter_app, fmap_app, IH, retrieved_index_S.
  change (0 + n)%nat with n. rewrite filter_cons, filter_nil.
  destruct (decide (is_input ckpt n)).
  - by rewrite seq_S.
  - by rewrite app_nil_r.
Qed.

Lemma filter_inputs_split (ckpt : Checkpoint) (l : list nat) :
  (∀ i, ¬ (i ∈ constants_from_input_mask ckpt
           ∧ i ∈ prognostic_input_mask ckpt)) →
  filter (λ i, i ∈ prognostic_input_mask ckpt) l
  ++ filter (λ i, i ∈ constants_from_input_mask ckpt) l
  ≡ₚ filter (is_input ckpt) l.
Proof.
  intros Hdis. induction l as [|x l IH]; [done|].
  rewrite !filter_cons. specialize (Hdis x).
  destruct (decide (x ∈ prognostic_input_mask ckpt)),
    (decide (x ∈ constants_from_input_mask ckpt)).
  - tauto.
  - rewrite decide_True by (unfold is_input; tauto). simpl. by rewrite IH.
  - rewrite decide_True by (unfold is_input; tauto).
    rewrite <-Permutation_middle. by rewrite IH.
  - rewrite decide_False by (unfold is_input; tauto). done.
Qed.

Lemma retrieved_index_sorted (ckpt : Checkpoint) (l : list nat) :
  StronglySorted lt l → Forall (is_input ckpt) l →
  StronglySorted lt (retrieved_index ckpt <$> l).
Proof.
  induction 1 as [|x l Hl IH Hx]; intros Hin; csimpl; constructor.
  - apply IH. by eapply Forall_inv_tail.
  - apply Forall_fmap, Forall_forall. intros y Hy. simpl.
    apply retrieved_index_mono; [by eapply Forall_inv|].
    rewrite Forall_forall in Hx. by apply Hx.
Qed.

Lemma filter_in_nil (l : list nat) : filter (λ i, i ∈ @nil nat) l = [].
Proof.
  induction l as [|x l IH]; [done|].
  rewrite filter_cons, decide_False by apply not_elem_of_nil. done.
Qed.

Section Retrieval.

Context {V : Type} `{Float32 V}.
Variable env : Collaborators V.

Local Abbreviation Event := (Event V).
Local Abbreviation Scope := (Scope V).
Local Abbreviation Field := (Field V).
Local Abbreviation Tensor := (Tensor V).
Local Abbreviation Row := (Row V).

(** After a classification that succeeds, the loop that deals out the
    retrieved fields cannot raise (its [assert] never fails) and logs
    nothing.  The two lists it builds are ascending and share out the
    indices [0 .. R - 1], [R] being the number of input features: every
    retrieved field of a lag feeds exactly one feature. *)
Theorem retrieved_fields_shared_out (ckpt : Checkpoint) (tr : list Event)
    (c : Classification) :
  classify (V:=V) ckpt = (tr, inr c) →
  ∃ prog const,
    retrieved_fields_masks (V:=V) c = ([], inr (prog, const))
    ∧ prog ++ const ≡ₚ seq 0 (length (input_features ckpt))
    ∧ StronglySorted lt prog ∧ StronglySorted lt const
    ∧ length prog
      = length (filter (λ i, i ∈ prognostic_input_mask ckpt)
                  (seq 0 (num_input_features ckpt)))
    ∧ length const
      = length (filter (λ i, i ∈ constants_from_input_mask ckpt)
                  (seq 0 (num_input_features ckpt))).
Proof.
  intros (_ & -> & Hp)%classify_inr.
  pose proof (partition_facts ckpt Hp) as [_ Hdis].
  set (n := num_input_features ckpt).
  exists (retrieved_index ckpt
            <$> filter (λ i, i ∈ prognostic_input_mask ckpt) (seq 0 n)),
         (retrieved_index ckpt
            <$> filter (λ i, i ∈ constants_from_input_mask ckpt) (seq 0 n)).
  split_and!.
  - unfold retrieved_fields_masks.
    assert (Hlen : length (check (classified ckpt)) = n).
    { unfold classified. cbn [check].
      by rewrite !np_put_length, length_replicate. }
    rewrite Hlen. fold n. by rewrite (retrieved_loop ckpt n Hp).
  - rewrite <-fmap_app, filter_inputs_split by (intros i; specialize (Hdis i); tauto).
    unfold input_features. fold n. rewrite retrieved_index_filter.
    by unfold retrieved_index.
  - apply retrieved_index_sorted.
    + apply StronglySorted_filter_lt, StronglySorted_seq.
    + apply Forall_forall. intros i [Hi _]%list_elem_of_filter. by right.
  - apply retrieved_index_sorted.
    + apply StronglySorted_filter_lt, StronglySorted_seq.
    + apply Forall_forall. intros i [Hi _]%list_elem_of_filter. by left.
  - by rewrite length_fmap.
  - by rewrite length_fmap.
Qed.

(** The exceptions of the classification.  [IndexError] comes only from a
    mask with an index from [N] on and [AssertionError] only from an index
    in two masks, both before anything is logged; with masks in range and
    disjoint the only exception left is the [RuntimeError] of an index
    that no mask holds. *)
Theorem classification_exceptions (ckpt : Checkpoint) :
  let n := num_input_features ckpt in
  let masks := [computed_constants_mask ckpt; constants_from_input_mask ckpt;
                computed_forcings_mask ckpt; prognostic_input_mask ckpt] in
  let in_range := Forall (Forall (λ i, i < n)%nat) masks in
  let disjoint := ∀ i, (length (kinds_of ckpt i) ≤ 1)%nat in
  (∀ tr, classify (V:=V) ckpt = (tr, inl IndexError) →
     tr = [] ∧ ¬ in_range)
  ∧ (∀ tr, classify (V:=V) ckpt = (tr, inl AssertionError) →
       tr = [] ∧ ¬ disjoint)
  ∧ (in_range → disjoint →
     ∀ tr e, classify (V:=V) ckpt = (tr, inl e) →
       e = RuntimeError "Missing fields" ∧ tr ≠ [])
  ∧ (∀ tr e, classify (V:=V) ckpt = (tr, inl e) →
       e = IndexError ∨ e = AssertionError
       ∨ e = RuntimeError "Missing fields").
Proof.
  intros n masks in_range disjoint.
  assert (Hir : in_range ↔
            Forall (λ i, i < n)%nat (computed_constants_mask ckpt)
            ∧ Forall (λ i, i < n)%nat (constants_from_input_mask ckpt)
            ∧ Forall (λ i, i < n)%nat (computed_forcings_mask ckpt)
            ∧ Forall (λ i, i < n)%nat (prognostic_input_mask ckpt)).
  { unfold in_range, masks. rewrite !Forall_cons, Forall_nil. tauto. }
  assert (Hdj : ∀ i, (2 ≤ length (kinds_of ckpt i))%nat → ¬ disjoint).
  { intros i Hi Hd. specialize (Hd i). lia. }
  pose proof (classify_outcome (V:=V) ckpt) as Hout. simpl in Hout.
  fold n in Hout.
  destruct Hout as [[Heq Hr]|[[Heq [j Hov%kinds_of_overlap]]|
    [Hr [Hdis [[Heq Hcov]|[Heq [j [Hj Hunc]]]]]]]]; rewrite Heq.
  - split_and!; try done.
    + intros tr [= <-]. split; [done|]. by rewrite Hir.
    + intros Hin. by apply Hir in Hin.
    + intros tr e [= _ <-]. by left.
  - split_and!; try done.
    + intros tr [= <-]. split; [done|]. by eapply Hdj.
    + intros _ Hd. by apply Hdj in Hov.
    + intros tr e [= _ <-]. right. by left.
  - split_and!; done.
  - split_and!; try done.
    + intros _ _ tr e [= <- <-]. split; [done|].
      rewrite report_missing_classified. unfold missing_report.
      intros Hnil%fmap_nil_inv.
      assert (Hin : j ∈ filter (λ i, kinds_of ckpt i = []) (seq 0 n)).
      { apply list_elem_of_filter. split.
        - by apply kinds_of_nil.
        - apply elem_of_seq. lia. }
      fold n in Hnil. rewrite Hnil in Hin. by apply not_elem_of_nil in Hin.
    + intros tr e [= _ <-]. right. by right.
Qed.

(** ** The retrieved fields as a lagged array *)

Lemma concat_chunks {A} (r n : nat) (rows : list A) :
  concat ((λ l, take r (drop (l * r) rows)) <$> seq 0 n)
  = take (n * r) rows.
Proof.
  induction n as [|n IH]; [done|].
  rewrite seq_S, fmap_app, concat_app, IH. csimpl. rewrite app_nil_r.
  rewrite take_take_drop. f_equal. lia.
Qed.

Lemma reshape_lags_inr (nlags g : nat) (rows : list Row)
    (src : list (list Row)) :
  reshape_lags nlags g rows = inr src →
  let r := (length rows / nlags)%nat in
  nlags ≠ 0%nat
  ∧ length src = nlags
  ∧ Forall (λ fields, length fields = r) src
  ∧ concat src = take (nlags * r) rows
  ∧ (g ≠ 0%nat → concat src = rows).
Proof.
  intros Hre r. unfold reshape_lags in Hre. fold r in Hre.
  destruct (decide (nlags = 0%nat)) as [|Hn]; [done|].
  destruct (decide _) as [Heq|]; [|done]. injection Hre as <-.
  assert (Hle : (nlags * r ≤ length rows)%nat)
    by apply Nat.Div0.mul_div_le.
  split_and!.
  - done.
  - by rewrite length_fmap, length_seq.
  - apply Forall_fmap, Forall_seq. intros l Hl. simpl.
    rewrite length_take, length_drop.
    assert ((l + 1) * r ≤ nlags * r)%nat
      by (apply Nat.mul_le_mono_r; lia). lia.
  - apply concat_chunks.
  - intros Hg. rewrite concat_chunks. apply take_ge. nia.
Qed.

(** The reshape of the retrieved fields into lags.  It raises
    [ZeroDivisionError] without lags and [ValueError] when the fields are
    not a whole number of fields per lag (on a grid with points).  When it
    succeeds it cuts the fields, in their order, into [L] blocks of [R]
    fields: putting the blocks one after the other gives the fields back. *)
Theorem reshape_lags_round_trip (nlags g : nat) (rows : list Row) :
  let r := (length rows / nlags)%nat in
  (nlags = 0%nat → reshape_lags nlags g rows = inl ZeroDivisionError)
  ∧ (nlags ≠ 0%nat → g ≠ 0%nat → length rows ≠ (nlags * r)%nat →
     reshape_lags nlags g rows = inl (ValueError "cannot reshape array"))
  ∧ (∀ src, reshape_lags nlags g rows = inr src →
       nlags ≠ 0%nat
       ∧ length src = nlags
       ∧ Forall (λ fields, length fields = r) src
       ∧ concat src = take (nlags * r) rows
       ∧ (g ≠ 0%nat → concat src = rows)).
Proof.
  intros r. unfold reshape_lags. fold r. split_and!.
  - intros ->. done.
  - intros Hn Hg Hlen. rewrite decide_False by done.
    rewrite decide_False; [done|]. nia.
  - intros src Hre. fold (reshape_lags nlags g rows) in Hre.
    exact (reshape_lags_inr nlags g rows src Hre).
Qed.

(** ** What a run needs to start *)

Lemma prepare_stages ckpt input_fields start_datetime tr0 sc
    (t0 : Tensor) (acc0 : list Row) :
  prepare env ckpt input_fields start_datetime = (tr0, inr (sc, (t0, acc0))) →
  let g := sc_gridpoints sc in
  let nlags := length (lagged ckpt) in
  let n := num_input_features ckpt in
  let prog := retrieved_index ckpt
                <$> filter (λ i, i ∈ prognostic_input_mask ckpt) (seq 0 n) in
  let const := retrieved_index ckpt
                 <$> filter (λ i, i ∈ constants_from_input_mask ckpt)
                       (seq 0 n) in
  partition ckpt
  ∧ Forall (λ f : Field, length (values f) = g) input_fields
  ∧ (∃ src fields,
       reshape_lags nlags g (values <$> input_fields) = inr src
       ∧ src !! 0%nat = Some fields
       ∧ (∃ rows, np_take_array fields prog = inr rows)
       ∧ (∃ rows, np_take_array fields const = inr rows))
  ∧ (diagnostic_params ckpt ≠ [] → diagnostic_output_mask ckpt ≠ []).
Proof.
  intros Hp g nlags n prog const.
  assert (Hdiag : diagnostic_params ckpt ≠ [] →
                  diagnostic_output_mask ckpt ≠ []).
  { revert Hp. unfold prepare.
    intros (? & g' & tr1 & _ & H1 & ->)%bind_inr.
    apply bind_inr in H1 as (? & rows & tr2 & _ & H2 & ->).
    apply bind_inr in H2 as (? & src & tr3 & _ & H3 & ->).
    apply bind_inr in H3 as (trc & c & tr4 & _ & H4 & ->).
    apply bind_inr in H4 as (trr & cols & tr5 & _ & H5 & ->).
    apply bind_inr in H5 as (tra & t' & tr6 & _ & H6 & ->).
    apply bind_inr in H6 as (trv & names & tr7 & _ & H7 & ->).
    apply bind_inr in H7 as (trm & mr & tr8 & _ & H8 & ->).
    apply bind_inr in H8 as (? & tpl & tr9 & _ & H9 & ->).
    apply bind_inr in H9 as (tri & [] & tr10 & Hi & _ & ->).
    intros Hne Hm. unfold callback_init in Hi. rewrite Hm in Hi.
    destruct (diagnostic_params ckpt); [done|]. done. }
  apply prepare_inr in Hp as
    [Hsc (rows & Hrows & src & cols & tra & Hsrc & Hcl & Hcols & Hpc & Ha & ->) _ _].
  fold g nlags in Hrows, Hsrc, Ha.
  apply classify_inr in Hcl as (_ & _ & Hpart).
  apply fields_to_numpy_inr in Hrows as [-> Hgrid].
  assert (Hlen : length (check (classified ckpt)) = n).
  { unfold classified. cbn [check].
    by rewrite !np_put_length, length_replicate. }
  unfold retrieved_fields_masks in Hcols. rewrite Hlen in Hcols.
  rewrite (retrieved_loop ckpt n Hpart) in Hcols by done.
  injection Hcols as <-. cbn [fst snd] in Ha.
  destruct (reshape_lags_inr _ _ _ _ Hsrc) as (Hnl & Hlsrc & _).
  apply assemble_inr in Ha as (t1 & t2 & t3 & S1 & S2 & _); [|done].
  destruct (lookup_lt_is_Some_2 src 0) as [fields Hf0]; [lia|].
  destruct S1 as [Hl1 S1].
  destruct (lookup_lt_is_Some_2
              (full_nan (V:=V) nlags n g) 0) as [s0 Hs0].
  { unfold full_nan. rewrite length_replicate. lia. }
  destruct (S1 0%nat s0 Hs0)
    as (s1 & Hs1 & rs1 & (fields1 & Hf1 & Ht1) & _).
  destruct S2 as [Hl2 S2].
  destruct (S2 0%nat s1 Hs1)
    as (s2 & Hs2 & rs2 & (fields2 & Hf2 & Ht2) & _).
  assert (fields1 = fields) as -> by congruence.
  assert (fields2 = fields) as -> by congruence.
  split_and!; try done.
  - rewrite Forall_fmap in Hgrid. done.
  - exists src, fields. split_and!; try done; by eexists.
Qed.

(** A run that reaches its first step had: at least one input field, all
    fields on one grid; at least one lag; on a grid with points a whole
    number [R] of fields per lag, and no fewer than the input features;
    masks that partition the features; a diagnostic output whenever there
    are diagnostic parameters; and the variable ["2t"] among the fields of
    the most recent date. *)
Theorem prepare_requirements (ckpt : Checkpoint) (input_fields : list Field)
    (start_datetime : datetime) (tr0 : list Event) (sc : Scope)
    (t0 : Tensor) (acc0 : list Row) :
  prepare env ckpt input_fields start_datetime = (tr0, inr (sc, (t0, acc0))) →
  let g := sc_gridpoints sc in
  let nlags := length (lagged ckpt) in
  let r := (length input_fields / nlags)%nat in
  (∃ f, input_fields !! 0%nat = Some f ∧ g = length (values f))
  ∧ Forall (λ f : Field, length (values f) = g) input_fields
  ∧ 1 ≤ multi_step ckpt
  ∧ (g ≠ 0%nat → length input_fields = (nlags * r)%nat)
  ∧ (length (input_features ckpt) ≤ r)%nat
  ∧ partition ckpt
  ∧ (diagnostic_params ckpt ≠ [] → diagnostic_output_mask ckpt ≠ [])
  ∧ (∃ k, variable_to_index ckpt !! "2t" = Some k
          ∧ (k < length (sc_reference_fields sc))%nat).
Proof.
  intros Hp g nlags r.
  pose proof (prepare_stages _ _ _ _ _ _ _ Hp)
    as (Hpart & Hgrid & (src & fields & Hsrc & Hf0 & [rp Hrp] & [rc Hrc])
        & Hdiag).
  fold g nlags in Hgrid, Hsrc.
  apply prepare_inr in Hp as [(_ & _ & _ & Hg & _ & _ & Htpl) _ _ _].
  destruct (reshape_lags_inr _ _ _ _ Hsrc)
    as (Hnl & Hlsrc & Hrows & _ & Hcat).
  rewrite length_fmap in Hrows. fold r in Hrows.
  split_and!; try done.
  - unfold gridpoints_of, py_index in Hg.
    destruct (input_fields !! 0%nat) as [f|]; [|done].
    injection Hg as Hg. by exists f.
  - unfold nlags, lagged, py_sorted in Hnl.
    rewrite merge_sort_Permutation, length_fmap, py_range_length in Hnl.
    lia.
  - intros Hg0. specialize (Hcat Hg0).
    assert (Hl : length (concat src) = length (values <$> input_fields))
      by (by rewrite Hcat).
    rewrite length_fmap in Hl. rewrite <-Hl.
    rewrite <-Hlsrc. clear -Hrows.
    induction Hrows as [|x l Hx _ IH]; [done|].
    simpl. rewrite length_app, Hx, IH. lia.
  - assert (Hlf : length fields = r).
    { rewrite Forall_lookup in Hrows. by eapply Hrows. }
    apply np_take_array_inr in Hrp as [_ Hrp], Hrc as [_ Hrc].
    assert (Hall : Forall (λ c, c < r)%nat
                     (seq 0 (length (input_features ckpt)))).
    { pose proof (partition_facts ckpt Hpart) as [_ Hdis].
      unfold input_features.
      change (length (filter (is_input ckpt)
                        (seq 0 (num_input_features ckpt))))
        with (retrieved_index ckpt (num_input_features ckpt)).
      rewrite <-retrieved_index_filter, <-filter_inputs_split
        by (intros i; specialize (Hdis i); tauto).
      rewrite fmap_app. apply Forall_app. split.
      - apply Forall_forall. intros c Hc.
        apply list_elem_of_lookup in Hc as [j Hj].
        destruct (Forall2_lookup_l _ _ _ _ _ Hrp Hj) as (row & _ & Hrow).
        rewrite <-Hlf. by eapply lookup_lt_Some.
      - apply Forall_forall. intros c Hc.
        apply list_elem_of_lookup in Hc as [j Hj].
        destruct (Forall2_lookup_l _ _ _ _ _ Hrc Hj) as (row & _ & Hrow).
        rewrite <-Hlf. by eapply lookup_lt_Some. }
    rewrite Forall_seq in Hall.
    destruct (length (input_features ckpt)) as [|m]; [lia|].
    specialize (Hall m). lia.
  - unfold precip_template_of in Htpl.
    destruct (variable_to_index ckpt !! "2t") as [k|]; [|done].
    exists k. split; [done|].
    unfold py_index in Htpl.
    destruct (sc_reference_fields sc !! k) eqn:Hk; [|done].
    by eapply lookup_lt_Some.
Qed.

(** The indices of the retrieved fields go through [np.array] of a Python
    list, which for an empty list is an array of floats that numpy refuses
    as an index.  So a checkpoint without prognostic inputs, or without
    constants from the input, cannot be run: the run raises and the
    callback is never called. *)
Theorem run_needs_both_input_kinds (ckpt : Checkpoint)
    (input_fields : list Field) (lead_time : Z) (start_datetime : datetime) :
  prognostic_input_mask ckpt = [] ∨ constants_from_input_mask ckpt = [] →
  let out := run env {| checkpoint := Some ckpt |} input_fields lead_time
               start_datetime in
  fails out ∧ Forall (λ e, is_callback e = false) out.1.
Proof.
  intros Hempty out.
  assert (Hprep : ∀ tr0 start,
            prepare env ckpt input_fields start_datetime ≠ (tr0, inr start)).
  { intros tr0 [sc [t0 acc0]] Hp.
    pose proof (prepare_stages _ _ _ _ _ _ _ Hp)
      as (_ & _ & (src & fields & _ & _ & [rp Hrp] & [rc Hrc]) & _).
    apply np_take_array_inr in Hrp as [Hrp _], Hrc as [Hrc _].
    destruct Hempty as [He|He]; rewrite He in *.
    - apply Hrp. by rewrite filter_in_nil.
    - apply Hrc. by rewrite filter_in_nil. }
  unfold out, run. simpl.
  destruct (prepare_until_init env ckpt input_fields start_datetime)
    as [(e & He & Hq)|(pre & init & start & Hp & _)].
  - destruct (prepare _ _ _ _) as [tr r]. simpl in *. subst r. simpl.
    split; [by eexists|done].
  - by apply Hprep in Hp.
Qed.

End Retrieval.

(** ** The ensemble dimension *)

Section Ensemble.

Context {V : Type}.

Lemma unsqueeze_inr (dim : nat) (x x' : TorchTensor V) :
  unsqueeze dim x = inr x' →
  (dim ≤ length (shape x))%nat
  ∧ shape x' = take dim (shape x) ++ 1%nat :: drop dim (shape x)
  ∧ storage x' = storage x.
Proof.
  unfold unsqueeze. destruct (decide _); [|done]. by intros [= <-].
Qed.

(** The wrapper around the model.  It needs an input with at least two
    axes.  It never touches the values: those of its result are those that
    the model returned.  Of the shape that the model returned it removes the
    axis 2 when that axis has size one and leaves the shape alone
    otherwise, so that an output with a larger axis 2 passes through
    unchanged.  Around a model that returns its input, the wrapper returns
    its input. *)
Theorem add_ensemble_dim_shapes
    (func : TorchTensor V → PyResult (TorchTensor V)) (x : TorchTensor V) :
  ((length (shape x) < 2)%nat → add_ensemble_dim func x = inl IndexError)
  ∧ (∀ y, add_ensemble_dim func x = inr y →
       ∃ x' y',
         shape x' = take 2 (shape x) ++ 1%nat :: drop 2 (shape x)
         ∧ storage x' = storage x
         ∧ func x' = inr y'
         ∧ storage y = storage y'
         ∧ shape y = match shape y' !! 2%nat with
                     | Some 1%nat => delete 2%nat (shape y')
                     | _ => shape y'
                     end)
  ∧ ((2 ≤ length (shape x))%nat → add_ensemble_dim inr x = inr x).
Proof.
  split_and!.
  - intros Hlt. unfold add_ensemble_dim, unsqueeze.
    rewrite decide_False by lia. done.
  - intros y. unfold add_ensemble_dim.
    destruct (unsqueeze 2 x) as [e|x'] eqn:Hx; [done|].
    apply unsqueeze_inr in Hx as (_ & Hs & Hv).
    destruct (func x') as [e|y'] eqn:Hf; [done|].
    unfold squeeze_. intros Hy. exists x', y'. split_and!; try done.
    + destruct (shape y' !! 2%nat) as [[|[|n]]|]; try by injection Hy as <-.
      by destruct (decide _); [injection Hy as <-|].
    + destruct (shape y' !! 2%nat) as [[|[|n]]|]; try by injection Hy as <-.
      by destruct (decide _); [injection Hy as <-|].
  - intros Hge. unfold add_ensemble_dim, unsqueeze, squeeze_.
    rewrite decide_True by lia. cbn [shape storage].
    assert (Hlen : length (take 2 (shape x)) = 2%nat)
      by (rewrite length_take; lia).
    rewrite <-Hlen at 1. rewrite list_lookup_middle by done.
    rewrite <-Hlen at 1. rewrite delete_middle, take_drop.
    by destruct x.
Qed.

End Ensemble.

(** ** The most recent date and the accumulator *)

Section Dates.

Context {V : Type} `{Float32 V}.
Variable env : Collaborators V.

Local Abbreviation Event := (Event V).
Local Abbreviation Scope := (Scope V).
Local Abbreviation Field := (Field V).
Local Abbreviation Tensor := (Tensor V).
Local Abbreviation Row := (Row V).

(** [get_most_recent_datetime] returns the date of the last field and
    succeeds exactly when no field is later, so that what it returns is the
    latest date of all.  It does not ask for more: the fields before the
    last one may come in any order.  It logs nothing. *)
Theorem most_recent_is_maximum (input_fields : list Field)
    (tr : list Event) (d : datetime) :
  get_most_recent_datetime input_fields = (tr, inr d)
  ↔ tr = []
    ∧ (∃ latest, last input_fields = Some latest ∧ valid_datetime latest = d)
    ∧ Forall (λ f, valid_datetime f ≤ d) input_fields.
Proof.
  rewrite get_most_recent_datetime_eq. split.
  - destruct (last input_fields) as [latest|]; [|done].
    destruct (forallb _ input_fields) eqn:Hall; [|done].
    intros [= <- <-]. split; [done|]. split; [by exists latest|].
    apply Forall_forall. intros f Hf. rewrite forallb_forall in Hall.
    by apply list_elem_of_In, Hall, bool_decide_eq_true in Hf.
  - intros (-> & (latest & -> & <-) & Hall).
    replace (forallb _ input_fields) with true; [done|].
    symmetry. apply forallb_forall. intros f Hf%list_elem_of_In.
    apply bool_decide_eq_true. rewrite Forall_forall in Hall. by apply Hall.
Qed.

(** The accumulator keeps its shape through the rollout: as many rows as
    before, and rows on the grid stay on the grid. *)
Theorem accumulator_shape_kept (sc : Scope) (lead_time : Z)
    (st st' : Tensor * list Row) (tr : list Event) :
  rollout env sc lead_time st = (tr, inr st') →
  length st'.2 = length st.2
  ∧ ∀ g, Forall (λ row : Row, length row = g) st.2 →
         Forall (λ row : Row, length row = g) st'.2.
Proof.
  intros [_ Hf]%rollout_inr.
  eapply (foldM_invariant (rollout_step env sc)
            (λ s, length s.2 = length st.2
                  ∧ ∀ g, Forall (λ row : Row, length row = g) st.2 →
                         Forall (λ row : Row, length row = g) s.2));
    [|split; [done|by intros]|exact Hf].
  intros [t acc] i tr1 [t1 acc1] _ [Hlen Hgrid] Hs.
  apply rollout_step_inr in Hs
    as (fields & accums & pfs & _ & _ & _ & Hacc & _).
  simpl in *.
  destruct (bool_decide (diagnostic_output_mask (sc_ckpt sc) = [])).
  { destruct Hacc as [-> _]. done. }
  destruct Hacc as (df & _ & Hloop).
  apply accumulate_loop in Hloop as (Hl & Hold & Hnew & _).
  split; [lia|]. intros g Hg. specialize (Hgrid g Hg).
  apply Forall_lookup. intros n row Hrow.
  rewrite Forall_lookup in Hgrid.
  destruct (decide (n < length (diagnostic_params (sc_ckpt sc)))%nat)
    as [Hn|Hn].
  - destruct (Hnew n Hn) as (row0 & v & Hr0 & _ & Hv & Hr1).
    rewrite Hrow in Hr1. injection Hr1 as ->.
    unfold np_add, np_maximum0.
    rewrite length_zip_with, length_fmap, Hv, (Hgrid _ _ Hr0). lia.
  - rewrite Hold in Hrow by lia. by eapply Hgrid.
Qed.

End Dates.

(** ** The further properties on the example *)

Lemma example_ran :
  (run Example.env Example.runner Example.input_fields 12 0).2 = inr tt.
Proof. vm_compute. reflexivity. Qed.

(** The example calls the data source for the constants, for the two lags
    and for the two steps. *)
Lemma run_data_source_calls_witness :
  omap load_source_call
    (run Example.env Example.runner Example.input_fields 12 0).1
  = [ (0, ["cos_latitude"]);
      (-6 * Example.hour, ["insolation"]); (0, ["insolation"]);
      (6 * Example.hour, ["insolation"]); (12 * Example.hour, ["insolation"]) ].
Proof.
  rewrite (run_data_source_calls Example.env Example.runner Example.ckpt
             Example.input_fields 12 0 _ eq_refl).
  - reflexivity.
  - pose proof example_ran as Hr.
    destruct (run Example.env Example.runner Example.input_fields 12 0)
      as [tr r]. simpl in *. by rewrite Hr.
Defined.

(** The first step of the example moves the newer slot to the place of the
    older one. *)
Lemma step_shifts_window_witness :
  ∃ tr st,
    rollout_step Example.env Example.scope
      (Example.tensor0, Example.accumulator0) 0 = (tr, inr st)
    ∧ st.1 !! 0%nat = Example.tensor0 !! 1%nat.
Proof.
  evaluate. holds_first Hs.
  destruct (step_shifts_window Example.env Example.scope _ _ _ _ 0 _ Hs)
    as (_ & _ & Hshift & _).
  apply (Hshift 0%nat). simpl. lia.
Defined.

(** After one step of the example the older slot holds the forcing of the
    hour 0 and the newer one that of the hour 6. *)
Lemma window_forcing_dates_witness :
  ∃ tr st,
    foldM (rollout_step Example.env Example.scope)
      (Example.tensor0, Example.accumulator0) (Z.of_nat <$> seq 0 1)
    = (tr, inr st)
    ∧ entry st.1 0 4 = Some [Num 0; Num 0]
    ∧ entry st.1 1 4 = Some [Num 6; Num 6].
Proof.
  evaluate. holds_first Hf.
  pose proof (window_forcing_dates Example.env Example.ckpt
                Example.input_fields 0 _ _ _ _ _ _ _ 1 example_prepared Hf
                ltac:(simpl; lia) (NoDup_singleton _)) as Hw.
  split.
  - etrans; [exact (Hw 0%nat (-6) 0%nat 4%nat eq_refl eq_refl)|reflexivity].
  - etrans; [exact (Hw 1%nat 0 0%nat 4%nat eq_refl eq_refl)|reflexivity].
Defined.

(** After one step of the example the newer slot holds the first
    prediction of [2t] and the older one the assembled newer [2t]. *)
Lemma window_prognostic_history_witness :
  ∃ tr st,
    foldM (rollout_step Example.env Example.scope)
      (Example.tensor0, Example.accumulator0) (Z.of_nat <$> seq 0 1)
    = (tr, inr st)
    ∧ entry st.1 0 0 = entry Example.tensor0 1 0
    ∧ ∃ y prediction,
        outputs Example.env tr !! 0%nat = Some y
        ∧ np_take y [0%nat; 1%nat] = inr prediction
        ∧ entry st.1 1 0
          = prediction !! broadcast_index (length prediction) 2 0.
Proof.
  evaluate. holds_first Hf.
  assert (Hnd : NoDup (prognostic_input_mask Example.ckpt)).
  { apply NoDup_cons. split; [|apply NoDup_singleton].
    intros Hin%list_elem_of_singleton. discriminate Hin. }
  destruct (window_prognostic_history Example.env Example.ckpt
              Example.input_fields 0 _ _ _ _ _ _ _ 1 example_prepared Hf Hnd)
    as [_ Hw].
  assert (Hl : length (lagged Example.ckpt) = 2%nat) by reflexivity.
  rewrite Hl in Hw.
  pose proof (Hw 0%nat 0%nat 0%nat ltac:(lia) eq_refl) as H0.
  pose proof (Hw 1%nat 0%nat 0%nat ltac:(lia) eq_refl) as H1.
  rewrite decide_True in H0 by lia.
  rewrite decide_False in H1 by lia.
  split; [exact H0|exact H1].
Defined.

Lemma still_prepared :
  ∃ tr0 start,
    prepare Example.env Cases.ckpt_still Example.input_fields 0
    = (tr0, inr start).
Proof.
  evaluated (prepare Example.env Cases.ckpt_still Example.input_fields 0).
  vm_compute. reflexivity.
Qed.

(** With a lead time of three hours the example completes without a step;
    with steps of zero hours it raises [ZeroDivisionError]. *)
Lemma run_without_steps_witness :
  (run Example.env Example.runner Example.input_fields 3 0).2 = inr tt
  ∧ omap predicted
      (run Example.env Example.runner Example.input_fields 3 0).1 = []
  ∧ (run Example.env {| checkpoint := Some Cases.ckpt_still |}
       Example.input_fields 12 0).2 = inl ZeroDivisionError.
Proof.
  destruct (run_without_steps Example.env Example.ckpt Example.input_fields
              3 0 _ _ _ example_prepared) as (Hshort & _ & _ & Hnone).
  destruct still_prepared as (tr0 & [sc st] & Hp).
  destruct (run_without_steps Example.env Cases.ckpt_still
              Example.input_fields 12 0 _ _ _ Hp) as (_ & Hzero & _).
  split_and!.
  - change Example.runner with {| checkpoint := Some Example.ckpt |}.
    by rewrite Hshort by (simpl; lia).
  - change Example.runner with {| checkpoint := Some Example.ckpt |}.
    rewrite Hshort by (simpl; lia). exact Hnone.
  - by rewrite Hzero.
Defined.

Lemma one_output_prepared :
  ∃ tr0 sc acc0,
    prepare Cases.env_one_output Example.ckpt Example.input_fields 0
    = (tr0, inr (sc, (Example.tensor0, acc0))).
Proof.
  lazymatch eval vm_compute in
      (prepare Cases.env_one_output Example.ckpt Example.input_fields 0) with
  | (?tr, inr (?sc, (_, ?acc))) => exists tr, sc, acc
  end.
  vm_compute. reflexivity.
Qed.

(** With a model of one output feature the example raises [IndexError]
    at its first step. *)
Lemma run_single_column_fails_witness :
  (run Cases.env_one_output Example.runner Example.input_fields 12 0).2
  = inl IndexError.
Proof.
  destruct one_output_prepared as (tr0 & sc & acc0 & Hp).
  change Example.runner with {| checkpoint := Some Example.ckpt |}.
  rewrite (run_single_column_fails Cases.env_one_output Example.ckpt
             Example.input_fields 12 0 _ _ _ _ Hp);
    [reflexivity|simpl; lia|simpl; lia|by right].
Defined.

(** The first step of the example emits [2t] and [10u] of the prediction,
    each with its field of the most recent date as template. *)
Lemma prognostic_emissions_carry_witness :
  ∃ tr st,
    rollout_step Example.env Example.scope
      (Example.tensor0, Example.accumulator0) 0 = (tr, inr st)
    ∧ omap field_emission tr
      = [ ([Num 14; Num 15], Example.field 0 13 14, 6);
          ([Num 23; Num 24], Example.field 0 23 24, 6) ]
    ∧ length (omap field_emission tr) = 2%nat.
Proof.
  evaluate. holds_first Hs. split; [vm_compute; reflexivity|].
  exact (proj2 (prognostic_emissions_carry Example.env Example.scope
                  _ _ 0 _ _ Hs)).
Defined.

Lemma short_prepared :
  prepare Cases.env_short Example.ckpt Example.input_fields 0
  = ([LoadSource 0 ["cos_latitude"];
      LoadSource (-6 * Example.hour) ["insolation"];
      LoadSource 0 ["insolation"];
      CallbackInit Example.input_fields
        (Some (["tp"], Example.field 0 13 14, 2%nat))],
     inr (Example.scope, (Example.tensor0, Example.accumulator0))).
Proof. vm_compute. reflexivity. Qed.

(** With a data source that answers with no field for a later date, the
    first step raises [AssertionError], and it is the one of the data
    source. *)
Lemma step_assertion_is_data_source_witness :
  raised (rollout_step Cases.env_short Example.scope
            (Example.tensor0, Example.accumulator0) 0)
  = Some AssertionError
  ∧ length (cml_load_source Cases.env_short (take 1 Example.input_fields)
              (0 + timedelta_hours (step_of Example.ckpt 0))
              (computed_forcings Example.ckpt))
    ≠ length (computed_forcings Example.ckpt).
Proof.
  destruct (step_assertion_is_data_source Cases.env_short Example.ckpt
              Example.input_fields 0 _ _ _ _
              (Example.tensor0, Example.accumulator0) 0 short_prepared)
    as (_ & _ & Hstep).
  assert (Hr : raised (rollout_step Cases.env_short Example.scope
                         (Example.tensor0, Example.accumulator0) 0)
               = Some AssertionError) by (vm_compute; reflexivity).
  split; [exact Hr|exact (Hstep Hr)].
Defined.

(** The accumulations of the example are not negative. *)
Lemma accumulations_nonnegative_witness :
  ∃ tr st,
    rollout Example.env Example.scope 12
      (Example.tensor0, Example.accumulator0) = (tr, inr st)
    ∧ Forall (λ a, f32_isnan a = false ∧ f32_le f32_zero a) [Num 0; Num 7].
Proof.
  evaluate. holds_first Hr.
  refine (accumulations_nonnegative Example.env Example.ckpt
            Example.input_fields 0 12 _ _ _ _ _ _ _ example_prepared Hr _
            6 "tp" _ _).
  - intros y n Hy. vm_compute in Hy.
    apply elem_of_cons in Hy as [->|Hy];
      [|apply list_elem_of_singleton in Hy as ->].
    + destruct n as [|n]; [repeat constructor|].
      destruct n; vm_compute; constructor.
    + destruct n as [|n]; [repeat constructor|].
      destruct n; vm_compute; constructor.
  - vm_compute. left.
Defined.

(** The retrieved fields of the example: the first two feed the prognostic
    inputs, the third one the constant from the input. *)
Lemma retrieved_fields_shared_out_witness :
  retrieved_fields_masks (V:=exact) (classified Example.ckpt)
  = ([], inr ([0%nat; 1%nat], [2%nat])).
Proof.
  destruct (retrieved_fields_shared_out (V:=exact) Example.ckpt []
              (classified Example.ckpt))
    as (prog & const & Hm & _); [vm_compute; reflexivity|].
  rewrite Hm. revert Hm. vm_compute. intros [= <- <-]. reflexivity.
Defined.

(** The example meets what a run needs. *)
Lemma prepare_requirements_witness :
  partition Example.ckpt
  ∧ (length (input_features Example.ckpt) ≤ 6 / 2)%nat
  ∧ 1 ≤ multi_step Example.ckpt.
Proof.
  destruct (prepare_requirements Example.env Example.ckpt
              Example.input_fields 0 _ _ _ _ example_prepared)
    as (_ & _ & Hms & _ & Hr & Hpart & _).
  split; [exact Hpart|]. split; [exact Hr|exact Hms].
Defined.

(** The checkpoint without constants from the input cannot be run. *)
Lemma run_needs_both_input_kinds_witness :
  fails (run Example.env {| checkpoint := Some Cases.ckpt_no_constant |}
           Cases.fields_no_constant 12 0)
  ∧ (run Example.env {| checkpoint := Some Cases.ckpt_no_constant |}
       Cases.fields_no_constant 12 0) = ([], inl IndexError).
Proof.
  split; [|vm_compute; reflexivity].
  apply (run_needs_both_input_kinds Example.env Cases.ckpt_no_constant
           Cases.fields_no_constant 12 0). by right.
Defined.

(** Around a model that returns its input, the wrapper returns the tensor
    of the shape [(1, 2, 3)] as it is. *)
Lemma add_ensemble_dim_shapes_witness :
  add_ensemble_dim inr Cases.small_tensor = inr Cases.small_tensor.
Proof.
  apply (add_ensemble_dim_shapes inr Cases.small_tensor). simpl. lia.
Defined.

(** The accumulator of the example has one row of two values after the
    rollout. *)
Lemma accumulator_shape_kept_witness :
  ∃ tr st,
    rollout Example.env Example.scope 12
      (Example.tensor0, Example.accumulator0) = (tr, inr st)
    ∧ length st.2 = 1%nat
    ∧ Forall (λ row : list exact, length row = 2%nat) st.2.
Proof.
  evaluate. holds_first Hr.
  destruct (accumulator_shape_kept Example.env Example.scope 12 _ _ _ Hr)
    as [Hlen Hgrid].
  split; [exact Hlen|]. apply Hgrid. repeat constructor.
Defined.

(** The checkpoint with a gap raises the [RuntimeError]. *)
Lemma classification_exceptions_witness :
  ∃ tr e,
    classify (V:=exact) Example.ckpt_gap = (tr, inl e)
    ∧ (e = IndexError ∨ e = AssertionError
       ∨ e = RuntimeError "Missing fields").
Proof.
  evaluated (classify (V:=exact) Example.ckpt_gap).
  assert (Hc : classify (V:=exact) Example.ckpt_gap
               = ([LogMissing 2 2 "lsm"; LogMissing 4 4 "insolation"],
                  inl (RuntimeError "Missing fields")))
    by (vm_compute; reflexivity).
  split; [exact Hc|].
  destruct (classification_exceptions (V:=exact) Example.ckpt_gap)
    as (_ & _ & _ & Hany).
  exact (Hany _ _ Hc).
Defined.

(** The six fields of the example make two lags of three fields, and the
    two lags one after the other are the six fields. *)
Lemma reshape_lags_round_trip_witness :
  ∃ src,
    reshape_lags 2 2 (values <$> Example.input_fields) = inr src
    ∧ length src = 2%nat
    ∧ concat src = values <$> Example.input_fields.
Proof.
  lazymatch eval vm_compute in
      (reshape_lags 2 2 (values <$> Example.input_fields)) with
  | inr ?src => exists src
  end.
  holds_first Hr.
  destruct (reshape_lags_round_trip 2 2 (values <$> Example.input_fields))
    as (_ & _ & Hre).
  destruct (Hre _ Hr) as (_ & Hlen & _ & _ & Hcat).
  split; [exact Hlen|]. apply Hcat. lia.
Defined.

(** The events of the example are those of the assembly, the initial call
    and two steps. *)
Lemma run_trace_shape_witness :
  ∃ steps : list (list (Event exact)),
    length steps = 2%nat
    ∧ ∃ pre, (run Example.env Example.runner Example.input_fields 12 0).1
             = pre ++ concat steps.
Proof.
  pose proof example_ran as Hr.
  destruct (run Example.env Example.runner Example.input_fields 12 0)
    as [tr r] eqn:Hrun. simpl in Hr. subst r.
  destruct (run_trace_shape Example.env Example.runner Example.ckpt
              Example.input_fields 12 0 tr eq_refl Hrun)
    as (sc & steps & -> & Hsteps).
  exists steps. split.
  - apply Forall2_length in Hsteps. rewrite <-Hsteps. reflexivity.
  - lazymatch goal with
    | |- ∃ pre, (?a :: ?l ++ ?c :: ?rest, _).1 = _ => exists (a :: l ++ [c])
    end.
    cbn [fst]. rewrite <-app_comm_cons. f_equal.
Defined.
